(** * Address extractor: text normalizer, parser, validators, record store,
      search orchestration and retry wrapper.

    The TypeScript sources are embedded as Rocq functions.  A JavaScript
    string is the list of its UTF-16 code units (type [N]); regular
    expression literals are terms of a small regex type run by a
    backtracking matcher that follows the ECMAScript matching order;
    [null]/[undefined] is [None]; a thrown value is an explicit result
    constructor; files are an explicit state that is passed around. *)

From Stdlib Require Import String Ascii.
From Stdlib Require Import List NArith ZArith Bool Lia.
Import ListNotations.
Open Scope string_scope.
Open Scope list_scope.

Set Implicit Arguments.

(* ================================================================== *)
(** ** JavaScript strings *)
(* ================================================================== *)

Module JS.

Definition cu := N.
Definition jsstring := list cu.

(** A string literal of the sources (ASCII only). *)
Definition js (s : string) : jsstring :=
  List.map N_of_ascii (list_ascii_of_string s).

Local Open Scope N_scope.

Definition in_range (lo hi c : cu) : bool := (lo <=? c) && (c <=? hi).

Definition is_digit (c : cu) : bool := in_range 48 57 c.
Definition is_upper (c : cu) : bool := in_range 65 90 c.
Definition is_lower (c : cu) : bool := in_range 97 122 c.
Definition is_letter (c : cu) : bool := is_lower c || is_upper c.
(** [\w]: letters, digits and the underscore. *)
Definition is_word (c : cu) : bool :=
  is_letter c || is_digit c || (c =? 95)%N.

(** [\s], which is also the set [String.prototype.trim] strips: TAB, LF, VT,
    FF, CR, SP, NBSP, U+1680, U+2000..U+200A, LS, PS, U+202F, U+205F,
    U+3000 and U+FEFF. *)
Definition is_space (c : cu) : bool :=
  in_range 9 13 c || (c =? 32)%N || (c =? 160)%N || (c =? 5760)%N
  || in_range 8192 8202 c || (c =? 8232)%N || (c =? 8233)%N
  || (c =? 8239)%N || (c =? 8287)%N || (c =? 12288)%N || (c =? 65279)%N.

(** Line terminators, which [.] does not match. *)
Definition is_line_terminator (c : cu) : bool :=
  (c =? 10)%N || (c =? 13)%N || (c =? 8232)%N || (c =? 8233)%N.

(** Canonicalization of the [i] flag, restricted to what an ASCII pattern
    character can be equal to: a code unit of 128 or more never
    canonicalizes to an ASCII one. *)
Definition canon (c : cu) : cu := if is_lower c then c - 32 else c.

Local Close Scope N_scope.

Fixpoint eqb (a b : jsstring) : bool :=
  match a, b with
  | [], [] => true
  | x :: a', y :: b' => (x =? y)%N && eqb a' b'
  | _, _ => false
  end.

Fixpoint drop_while (p : cu -> bool) (s : jsstring) : jsstring :=
  match s with
  | [] => []
  | c :: t => if p c then drop_while p t else s
  end.

(** [s.trim()] *)
Definition trim (s : jsstring) : jsstring :=
  rev (drop_while is_space (rev (drop_while is_space s))).

(** [s.split(d)] for a one-character separator; never the empty list. *)
Fixpoint split (d : cu) (s : jsstring) : list jsstring :=
  match s with
  | [] => [[]]
  | c :: t =>
      if (c =? d)%N then [] :: split d t
      else match split d t with
           | h :: r => (c :: h) :: r
           | [] => [[c]]
           end
  end.

(** [parts.join(d)] *)
Fixpoint join (d : jsstring) (parts : list jsstring) : jsstring :=
  match parts with
  | [] => []
  | [p] => p
  | p :: rest => p ++ d ++ join d rest
  end.

Fixpoint starts_with (p s : jsstring) : bool :=
  match p, s with
  | [], _ => true
  | x :: p', y :: s' => (x =? y)%N && starts_with p' s'
  | _ :: _, [] => false
  end.

(** [s.replace(pat, rep)] with a string pattern: the first occurrence. *)
Fixpoint replace_str (pat rep s : jsstring) : jsstring :=
  if starts_with pat s then rep ++ skipn (length pat) s
  else match s with
       | [] => []
       | c :: t => c :: replace_str pat rep t
       end.

(** [arr.slice(s, e)] with integer arguments; a negative index counts from
    the end, and both are clamped to the array. *)
Definition slice {A} (l : list A) (s e : Z) : list A :=
  let n := Z.of_nat (length l) in
  let k := if (s <? 0)%Z then Z.max (n + s) 0 else Z.min s n in
  let f := if (e <? 0)%Z then Z.max (n + e) 0 else Z.min e n in
  firstn (Z.to_nat (f - k)) (skipn (Z.to_nat k) l).

(** Truthiness of a possibly undefined string. *)
Definition truthy (o : option jsstring) : bool :=
  match o with
  | Some (_ :: _) => true
  | _ => false
  end.

(** Strict equality of a possibly undefined string with a string. *)
Definition seq_opt (o : option jsstring) (s : jsstring) : bool :=
  match o with
  | Some x => eqb x s
  | None => false
  end.

(** [arr.indexOf(x)] on an array of strings; [None] is -1. *)
Fixpoint index_of (x : jsstring) (l : list jsstring) : option nat :=
  match l with
  | [] => None
  | y :: t => if eqb y x then Some 0
              else option_map S (index_of x t)
  end.

Definition includes (x : jsstring) (l : list jsstring) : bool :=
  existsb (fun y => eqb y x) l.

End JS.

(* ================================================================== *)
(** ** Regular expressions *)
(* ================================================================== *)

Module Regex.
Import JS.

Inductive regex : Type :=
| Eps
| Chr (p : cu -> bool)              (* one code unit of a class *)
| Seq (r1 r2 : regex)
| Alt (r1 r2 : regex)
| Star (greedy : bool) (r : regex)  (* r* and r*? *)
| Bol                               (* ^ *)
| Eol                               (* $ *)
| WordB.                            (* \b *)

(** A position is the code unit before it, if any, and the rest of the
    input. *)
Definition kont := option cu -> jsstring -> option jsstring.

Definition orelse (a b : option jsstring) : option jsstring :=
  match a with
  | Some _ => a
  | None => b
  end.

Definition word_opt (o : option cu) : bool :=
  match o with
  | Some c => is_word c
  | None => false
  end.

(** Iterations of a starred atom; an iteration that consumes nothing is
    rejected, as RepeatMatcher does. *)
Fixpoint star_loop (step : option cu -> jsstring -> kont -> option jsstring)
    (greedy : bool) (k : kont) (n : nat) (prev : option cu) (s : jsstring)
    : option jsstring :=
  match n with
  | O => k prev s
  | S n' =>
      let again :=
        step prev s (fun p' s' =>
          if Nat.ltb (length s') (length s)
          then star_loop step greedy k n' p' s'
          else None) in
      if greedy then orelse again (k prev s) else orelse (k prev s) again
  end.

(** The matcher, in continuation-passing style: the result is the input
    left after the first match in priority order. *)
Fixpoint m (r : regex) (prev : option cu) (s : jsstring) (k : kont)
    : option jsstring :=
  match r with
  | Eps => k prev s
  | Chr p =>
      match s with
      | c :: s' => if p c then k (Some c) s' else None
      | [] => None
      end
  | Seq r1 r2 => m r1 prev s (fun p' s' => m r2 p' s' k)
  | Alt r1 r2 => orelse (m r1 prev s k) (m r2 prev s k)
  | Star g r' => star_loop (m r') g k (S (length s)) prev s
  | Bol => match prev with None => k prev s | Some _ => None end
  | Eol => match s with [] => k prev s | _ :: _ => None end
  | WordB =>
      if xorb (word_opt prev) (word_opt (hd_error s)) then k prev s else None
  end.

Definition match_at (r : regex) (prev : option cu) (s : jsstring)
    : option jsstring :=
  m r prev s (fun _ rest => Some rest).

(** The leftmost match: the text before it, the matched text and the text
    after it. *)
Fixpoint find (r : regex) (prev : option cu) (s : jsstring)
    : option (jsstring * jsstring * jsstring) :=
  match match_at r prev s with
  | Some rest => Some ([], firstn (length s - length rest) s, rest)
  | None =>
      match s with
      | [] => None
      | c :: s' =>
          match find r (Some c) s' with
          | Some (pre, mid, post) => Some (c :: pre, mid, post)
          | None => None
          end
      end
  end.

(** [re.test(s)] *)
Definition test (r : regex) (s : jsstring) : bool :=
  match find r None s with Some _ => true | None => false end.

(** [s.match(re)] without the [g] flag: the matched text. *)
Definition match_text (r : regex) (s : jsstring) : option jsstring :=
  match find r None s with
  | Some (_, mid, _) => Some mid
  | None => None
  end.

(** [s.replace(re, rep)] without the [g] flag. *)
Definition replace_first (r : regex) (rep s : jsstring) : jsstring :=
  match find r None s with
  | Some (pre, _, post) => pre ++ rep ++ post
  | None => s
  end.

Definition last_of (prev : option cu) (matched : jsstring) : option cu :=
  match rev matched with
  | c :: _ => Some c
  | [] => prev
  end.

(** [s.replace(re, rep)] with the [g] flag: after an empty match the scan
    moves one code unit on. *)
Fixpoint replace_all_from (fuel : nat) (r : regex) (rep : jsstring)
    (prev : option cu) (s : jsstring) : jsstring :=
  match fuel with
  | O => s
  | S fuel' =>
      let skip :=
        match s with
        | [] => []
        | c :: s' => c :: replace_all_from fuel' r rep (Some c) s'
        end in
      match match_at r prev s with
      | Some rest =>
          if Nat.ltb (length rest) (length s)
          then rep ++ replace_all_from fuel' r rep
                        (last_of prev (firstn (length s - length rest) s)) rest
          else rep ++ skip
      | None => skip
      end
  end.

Definition replace_all (r : regex) (rep s : jsstring) : jsstring :=
  replace_all_from (S (length s)) r rep None s.

(** Pattern builders. *)
Definition chr (c : cu) (i : bool) : regex :=
  Chr (fun x => if i then (canon x =? canon c)%N else (x =? c)%N).

Fixpoint lit_of (i : bool) (l : jsstring) : regex :=
  match l with
  | [] => Eps
  | [c] => chr c i
  | c :: t => Seq (chr c i) (lit_of i t)
  end.

(** A literal run of pattern characters; [i] is the ignore-case flag. *)
Definition lit (i : bool) (s : string) : regex := lit_of i (js s).

Fixpoint alts (r : regex) (rs : list regex) : regex :=
  match rs with
  | [] => r
  | r' :: rs' => Alt r (alts r' rs')
  end.

(** [w1|w2|...] *)
Definition words (i : bool) (w : string) (ws : list string) : regex :=
  alts (lit i w) (List.map (lit i) ws).

Definition plus (r : regex) : regex := Seq r (Star true r).

Fixpoint rep (n : nat) (r : regex) : regex :=
  match n with
  | O => Eps
  | 1 => r
  | S n' => Seq r (rep n' r)
  end.

Fixpoint seqs (r : regex) (rs : list regex) : regex :=
  match rs with
  | [] => r
  | r' :: rs' => Seq r (seqs r' rs')
  end.

Definition digit : regex := Chr is_digit.
Definition space : regex := Chr is_space.
Definition dot : regex := Chr (fun c => negb (is_line_terminator c)).

End Regex.

Import JS Regex.

(* ================================================================== *)
(** ** src/csvUtils.ts *)
(* ================================================================== *)

Module CsvUtils.

Local Open Scope N_scope.

(** Private use area, U+E000..U+F8FF. *)
Definition private_use (c : cu) : bool := in_range 0xE000 0xF8FF c.

(** The class of the leading-glyph pattern: middle dot, bullet, hyphen,
    [\s] and the listed bullet code points. *)
Definition leading_glyph (c : cu) : bool :=
  (c =? 0xB7) || (c =? 0x2022) || (c =? 0x2D) || is_space c
  || (c =? 0x2022) || (c =? 0x2023) || (c =? 0x25E6) || (c =? 0x2043)
  || (c =? 0x204C) || (c =? 0x204D) || (c =? 0x2219) || (c =? 0x25AA)
  || (c =? 0x25AB) || (c =? 0x25CF) || (c =? 0x25CB).

(** Zero-width code points, U+200B..U+200D and U+FEFF. *)
Definition zero_width (c : cu) : bool :=
  in_range 0x200B 0x200D c || (c =? 0xFEFF).

(** Space code points U+00A0, U+2000..U+200A, U+202F, U+205F, U+3000. *)
Definition exotic_space (c : cu) : bool :=
  (c =? 0xA0) || in_range 0x2000 0x200A c || (c =? 0x202F)
  || (c =? 0x205F) || (c =? 0x3000).

Local Close Scope N_scope.

(** The chain of replacements shared by [CsvUtils.cleanText] and
    [AddressExtractor.cleanAddressText], in source order. *)
Definition cleanChain (text : jsstring) : jsstring :=
  let t1 := replace_all (Chr private_use) [] text in
  let t2 := replace_first (Seq Bol (plus (Chr leading_glyph))) [] t1 in
  let t3 := replace_all (Chr zero_width) [] t2 in
  let t4 := replace_all (Chr exotic_space) (js " ") t3 in
  let t5 := replace_all (plus space) (js " ") t4 in
  trim t5.

Definition cleanText (text : jsstring) : jsstring :=
  match text with
  | [] => text
  | _ :: _ => cleanChain text
  end.

Record AddressResult := {
  zipcode : jsstring;
  state : jsstring;
  addressline : jsstring;
  city : jsstring;
  valid : bool;
  error : option jsstring
}.

(** A row handed to the CSV writer of the clean output. *)
Record CleanRow := {
  c_zipcode : jsstring;
  c_state : jsstring;
  c_addressline : jsstring;
  c_city : jsstring
}.

(** [writeResults]: the records passed to [csvWriter.writeRecords]. *)
Definition writeResults (results : list AddressResult) : list CleanRow :=
  List.map (fun result =>
    {| c_zipcode := zipcode result;
       c_state := state result;
       c_addressline :=
         cleanText (if eqb (addressline result) (js "Error")
                    then js "Not Found" else addressline result);
       c_city :=
         cleanText (if eqb (city result) (js "Error")
                    then js "Not Found" else city result) |}) results.

(** [writeDetailedResults]: the records passed to the detailed writer. *)
Definition writeDetailedResults (results : list AddressResult)
    : list AddressResult :=
  List.map (fun result =>
    {| zipcode := zipcode result;
       state := state result;
       addressline := cleanText (addressline result);
       city := cleanText (city result);
       valid := valid result;
       error := match error result with
                | Some ((_ :: _) as e) => Some (cleanText e)
                | other => other
                end |}) results.

End CsvUtils.

(* ================================================================== *)
(** ** src/addressExtractor.ts *)
(* ================================================================== *)

Module AddressExtractor.

Definition cleanAddressText (text : jsstring) : jsstring :=
  CsvUtils.cleanChain text.

Record Parsed := { addressline : jsstring; city : jsstring }.

(** [/\s+[A-Z]{2}\s+\d{5}.*$/] *)
Definition stateZipSuffix : regex :=
  seqs (plus space)
       [rep 2 (Chr is_upper); plus space; rep 5 digit; Star true dot; Eol].

(** [/^(\d+.*?(?:St|Ave|Rd|Dr|Blvd|Way|Lane|Ln|Ct|Pl))/i] *)
Definition streetPrefix : regex :=
  seqs Bol
       [plus digit; Star false dot;
        words true "St" ["Ave"; "Rd"; "Dr"; "Blvd"; "Way"; "Lane"; "Ln";
                         "Ct"; "Pl"]].

Definition comma : cu := 44%N.

Definition parseAddress (fullAddress : jsstring) : Parsed :=
  let fullAddress := cleanAddressText fullAddress in
  let parts := List.map trim (split comma fullAddress) in
  if Nat.leb 2 (List.length parts) then
    let addressline := nth 0 parts [] in
    let city := nth 1 parts [] in
    let city := trim (replace_first stateZipSuffix [] city) in
    {| addressline := addressline; city := city |}
  else
    match match_text streetPrefix fullAddress with
    | Some addressline =>
        let remaining := trim (skipn (List.length addressline) fullAddress) in
        let city := trim (nth 0 (split comma remaining) []) in
        {| addressline := addressline;
           city := match city with [] => js "Unknown" | _ :: _ => city end |}
    | None => {| addressline := fullAddress; city := js "Unknown" |}
    end.

End AddressExtractor.

(* ================================================================== *)
(** ** src/parallelProcessor.ts *)
(* ================================================================== *)

Module ParallelProcessor.
Import CsvUtils.

(** What a [catch] clause receives: an [Error] instance with its message,
    or any other thrown value. *)
Inductive thrown : Type :=
| ErrorObj (message : jsstring)
| OtherValue.

(** One call of [extractor.extractAddress]: it resolves to a result or
    rejects. *)
Inductive attempt_result : Type :=
| Resolves (r : AddressResult)
| Rejects (t : thrown).

(** The extractor, seen from the retry wrapper: the outcome of its n-th
    call for the unit at hand (n = 1, 2, ...). *)
Definition extractor := nat -> attempt_result.

Record run := {
  result : AddressResult;
  calls : nat;            (* calls of extractAddress made *)
  delays : list nat       (* the delays awaited, in milliseconds *)
}.

(** [error instanceof Error ? error : new Error('Unknown error')] *)
Definition as_error (t : thrown) : jsstring :=
  match t with
  | ErrorObj message => message
  | OtherValue => js "Unknown error"
  end.

(** [lastError?.message || 'Max retries exceeded'] *)
Definition final_message (lastError : option jsstring) : jsstring :=
  match lastError with
  | Some ((_ :: _) as message) => message
  | _ => js "Max retries exceeded"
  end.

(** The loop [for (attempt = 1; attempt <= retries; attempt++)], by
    recursion on the attempts left; [attempt = retries - left + 1]. *)
Fixpoint retryLoop (extract : extractor) (retries : nat) (zip st : jsstring)
    (left : nat) (lastError : option jsstring) (made : nat)
    (waited : list nat) : run :=
  match left with
  | O =>
      {| result := {| zipcode := zip; state := st;
                      addressline := js "Error"; city := js "Error";
                      valid := false;
                      error := Some (final_message lastError) |};
         calls := made; delays := waited |}
  | S left' =>
      let attempt := retries - left' in
      match extract (S made) with
      | Resolves r =>
          if valid r || eqb (addressline r) (js "Not Found") then
            {| result := r; calls := S made; delays := waited |}
          else if Nat.ltb attempt retries && truthy (error r) then
            retryLoop extract retries zip st left' lastError (S made)
                      (waited ++ [2000 * attempt])
          else {| result := r; calls := S made; delays := waited |}
      | Rejects t =>
          retryLoop extract retries zip st left' (Some (as_error t)) (S made)
                    (if Nat.ltb attempt retries
                     then waited ++ [2000 * attempt] else waited)
      end
  end.

Definition processWithRetry (extract : extractor) (retries : nat)
    (zip st : jsstring) : run :=
  retryLoop extract retries zip st retries None 0 [].

End ParallelProcessor.

(* ================================================================== *)
(** ** The sharded Playwright script (validators, record store,
       search loop) *)
(* ================================================================== *)

Module Script.

Definition comma : cu := 44%N.
Definition newline : cu := 10%N.
Definition blank : cu := 32%N.
Definition dquote : cu := 34%N.

Definition target := sum jsstring (list jsstring).

Record config := {
  TARGET_STATE : target;          (* a string, or an array of strings *)
  SHARD_INDEX : Z;
  TOTAL_SHARDS : Z;
  MAX_RECORDS_PER_SHARD : Z
}.

Definition SEARCH_TYPES : list jsstring :=
  [js "post office"; js "schools"; js "colleges"; js "petrol stations";
   js "government office"; js "apartments"; js "hospitals";
   js "pharmacies"; js "police station"].

(** *** Validators *)

(** [/\b(St|Street|Ave|...|Hwy|Highway)\b/i] *)
Definition streetSuffixes : regex :=
  seqs WordB
    [words true "St"
       ["Street"; "Ave"; "Avenue"; "Rd"; "Road"; "Dr"; "Drive"; "Blvd";
        "Boulevard"; "Way"; "Lane"; "Ln"; "Ct"; "Court"; "Pl"; "Place";
        "Cir"; "Circle"; "Pkwy"; "Parkway"; "Hwy"; "Highway"];
     WordB].

(** [/\d+\.\d+\(\d+\)/] *)
Definition ratingPattern : regex :=
  seqs (plus digit)
    [lit false "."; plus digit; lit false "("; plus digit; lit false ")"].

(** [/\d+\.\d+\(\d+\)/], [/\d+-star/i],
    [/hotel|inn|suites|motel|resort|lodge/i],
    [/restaurant|cafe|mall|center|plaza/i],
    [/gas station|convenience store/i], [/open \d+|closed|hours/i] *)
Definition improperPatterns : list regex :=
  [ ratingPattern;
    Seq (plus digit) (lit true "-star");
    words true "hotel" ["inn"; "suites"; "motel"; "resort"; "lodge"];
    words true "restaurant" ["cafe"; "mall"; "center"; "plaza"];
    words true "gas station" ["convenience store"];
    alts (Seq (lit true "open ") (plus digit))
         [lit true "closed"; lit true "hours"] ].

Definition is_blank_string (s : jsstring) : bool :=
  match trim s with [] => true | _ :: _ => false end.

Definition isValidAddressLine (addressLine : option jsstring) : bool :=
  match addressLine with
  | None | Some [] => false
  | Some a =>
      if Nat.eqb (List.length (trim a)) 0 then false
      else
        let hasNumber := test digit a in
        let hasStreetSuffix := test streetSuffixes a in
        let hasImproperPattern :=
          existsb (fun pattern => test pattern a) improperPatterns in
        hasNumber && hasStreetSuffix && negb hasImproperPattern
  end.

(** The class [[a-zA-Z\s'\-\.]] *)
Definition city_char (c : cu) : bool :=
  is_letter c || is_space c || (c =? 39)%N || (c =? 45)%N || (c =? 46)%N.

Definition cityPattern : regex := seqs Bol [plus (Chr city_char); Eol].

(** [/^unknown$/i], [/^n\/a$/i], [/^null$/i], [/^undefined$/i], [/^\d+$/],
    [/^[^a-zA-Z]*$/], [/\d{5}/],
    [/\b(gas|station|store|shop|mart|center|plaza)\b/i],
    [/\b(open|closed|hours|24\/7)\b/i], [/\d+\.\d+\(\d+\)/] *)
Definition invalidPatterns : list regex :=
  [ seqs Bol [lit true "unknown"; Eol];
    seqs Bol [lit true "n/a"; Eol];
    seqs Bol [lit true "null"; Eol];
    seqs Bol [lit true "undefined"; Eol];
    seqs Bol [plus digit; Eol];
    seqs Bol [Star true (Chr (fun c => negb (is_letter c))); Eol];
    rep 5 digit;
    seqs WordB
      [words true "gas" ["station"; "store"; "shop"; "mart"; "center";
                         "plaza"];
       WordB];
    seqs WordB [words true "open" ["closed"; "hours"; "24/7"]; WordB];
    ratingPattern ].

Definition isValidCity (city : option jsstring) : bool :=
  match city with
  | None | Some [] => false
  | Some c =>
      if Nat.eqb (List.length (trim c)) 0 then false
      else
        let cleanCity := trim c in
        if Nat.ltb (List.length cleanCity) 2 then false
        else if negb (test cityPattern cleanCity) then false
        else if existsb (fun pattern => test pattern cleanCity)
                        invalidPatterns then false
        else if Nat.ltb 50 (List.length cleanCity) then false
        else if negb (test (Seq Bol (Chr is_letter)) cleanCity) then false
        else true
  end.

(** *** Record store *)

Inductive path : Type :=
| MainTable                 (* FinalZipcodeState.csv *)
| ShardTable (i : Z).       (* FinalZipcodeState_shard_<i>.csv *)

Definition path_eqb (p q : path) : bool :=
  match p, q with
  | MainTable, MainTable => true
  | ShardTable i, ShardTable j => (i =? j)%Z
  | _, _ => false
  end.

(** The files: [None] where [existsSync] is false.  Reading and writing an
    existing file always succeed. *)
Definition files := path -> option jsstring.

Definition writeFileSync (fs : files) (p : path) (content : jsstring)
    : files :=
  fun q => if path_eqb q p then Some content else fs q.

Definition csvFilePath (cfg : config) : path :=
  if (TOTAL_SHARDS cfg >? 1)%Z then ShardTable (SHARD_INDEX cfg)
  else MainTable.

(** [arr[i] = x] for an index inside the array. *)
Fixpoint set_at {A} (i : nat) (x : A) (l : list A) : list A :=
  match l, i with
  | [], _ => []
  | _ :: t, O => x :: t
  | h :: t, S i' => h :: set_at i' x t
  end.

(** [col.replace(/^"|"$/g, '')] *)
Definition unquote (col : jsstring) : jsstring :=
  replace_all (Alt (Seq Bol (chr dquote false)) (Seq (chr dquote false) Eol))
              [] col.

Definition canonicalHeader : jsstring := js "zipcode,state,address,city".

(** The scan [for (let i = 1; i < lines.length; i++)] for the row of a
    key; [i] is the index of the head of [rows] in [lines]. *)
Fixpoint findRow (zipcode state : jsstring) (i : nat) (rows : list jsstring)
    : option nat :=
  match rows with
  | [] => None
  | line :: rest =>
      if is_blank_string line then findRow zipcode state (S i) rest
      else
        let columns := split comma line in
        if Nat.leb 2 (List.length columns)
           && eqb (nth 0 columns []) zipcode
           && eqb (nth 1 columns []) state
        then Some i
        else findRow zipcode state (S i) rest
  end.

(** [while (rowColumns.length < 4) rowColumns.push('""')] *)
Definition padRow (rowColumns : list jsstring) : list jsstring :=
  rowColumns ++ repeat [dquote; dquote] (4 - List.length rowColumns).

(** The rebuilt row
    [`${columns[0]},${columns[1]},"${columns[2]}","${columns[3]}"`]. *)
Definition rebuildRow (line addressLine city : jsstring) : jsstring :=
  let rowColumns := padRow (split comma line) in
  let columns := List.map unquote rowColumns in
  let columns := set_at 3 city (set_at 2 addressLine columns) in
  nth 0 columns [] ++ [comma] ++ nth 1 columns [] ++ [comma]
  ++ [dquote] ++ nth 2 columns [] ++ [dquote] ++ [comma]
  ++ [dquote] ++ nth 3 columns [] ++ [dquote].

Definition updateFinalCSV (cfg : config) (fs : files)
    (zipcode state addressLine city : jsstring) : files :=
  let csvFilePath := csvFilePath cfg in
  match fs csvFilePath with
  | None => fs
  | Some csvContent =>
      let lines := split newline csvContent in
      let header := nth 0 lines [] in
      let headerColumns := split comma header in
      let hasAddressColumn := includes (js "address") headerColumns in
      let hasCityColumn := includes (js "city") headerColumns in
      let lines :=
        if negb hasAddressColumn || negb hasCityColumn
        then set_at 0 canonicalHeader lines else lines in
      match findRow zipcode state 1 (tl lines) with
      | None => fs
      | Some rowIndex =>
          let lines :=
            set_at rowIndex
                   (rebuildRow (nth rowIndex lines []) addressLine city)
                   lines in
          writeFileSync fs csvFilePath (join [newline] lines)
      end
  end.

(** A parsed row of the master table; a missing column is [None]. *)
Record record := {
  zipcode : option jsstring;
  state : option jsstring;
  address : option jsstring;
  city : option jsstring
}.

Record WorkUnit := { unit_zipcode : jsstring; unit_state : jsstring }.

(** What a call either returns or throws. *)
Inductive outcome (A : Type) : Type :=
| Returned (a : A)
| Threw (message : jsstring).
Arguments Returned {A} a.
Arguments Threw {A} message.

(** [Math.ceil(n / k)] on integers. *)
Definition ceil_div (n k : Z) : Z := (- ((- n) / k))%Z.

(** [startIndex], [endIndex] and [actualEndIndex] of a shard over [n]
    pending rows. *)
Definition shardBounds (cfg : config) (n : Z) : Z * Z * Z :=
  let recordsPerShard := ceil_div n (TOTAL_SHARDS cfg) in
  let startIndex := (SHARD_INDEX cfg * recordsPerShard)%Z in
  let endIndex := Z.min (startIndex + recordsPerShard) n in
  let actualEndIndex :=
    Z.min endIndex (startIndex + MAX_RECORDS_PER_SHARD cfg) in
  (startIndex, endIndex, actualEndIndex).

(** The sharding step of [readZipCodesFromCSV]. *)
Definition applySharding {A} (cfg : config) (noAddressRecords : list A)
    : list A :=
  if (TOTAL_SHARDS cfg >? 1)%Z then
    let '(startIndex, _, actualEndIndex) :=
      shardBounds cfg (Z.of_nat (List.length noAddressRecords)) in
    slice noAddressRecords startIndex actualEndIndex
  else noAddressRecords.

(** The range of a shard before the cap on its size: the slice from
    [startIndex] to [endIndex]. *)
Definition shardRange {A} (cfg : config) (noAddressRecords : list A)
    : list A :=
  if (TOTAL_SHARDS cfg >? 1)%Z then
    let '(startIndex, endIndex, _) :=
      shardBounds cfg (Z.of_nat (List.length noAddressRecords)) in
    slice noAddressRecords startIndex endIndex
  else noAddressRecords.

Definition parseRow (addressIndex cityIndex : nat) (line : jsstring)
    : record :=
  let columns := List.map (fun item => unquote (trim item))
                          (split comma line) in
  {| zipcode := nth_error columns 0;
     state := nth_error columns 1;
     address := nth_error columns addressIndex;
     city := nth_error columns cityIndex |}.

Definition stateFilter (t : target) (zipCodes : list record) : list record :=
  match t with
  | inl s =>
      if eqb s (js "ALL") then zipCodes
      else filter (fun item => seq_opt (state item) s) zipCodes
  | inr states =>
      filter (fun item =>
                match state item with
                | Some s => includes s states
                | None => false
                end) zipCodes
  end.

Definition isPending (item : record) : bool :=
  negb (truthy (address item)) || seq_opt (address item) []
  || negb (truthy (city item)) || seq_opt (city item) [].

(** The rows of the master table still without an address or a city, in
    table order ([noAddressRecords]); reading the header of a table with no
    non-blank line throws. *)
Definition pendingRecords (cfg : config) (csvContent : jsstring)
    : outcome (option (list record)) :=
  let lines := filter (fun line => negb (is_blank_string line))
                      (split newline csvContent) in
  match lines with
  | [] => Threw (js "Cannot read properties of undefined")
  | headerLine :: dataLines =>
      let header := split comma headerLine in
      match index_of (js "address") header, index_of (js "city") header with
      | Some addressIndex, Some cityIndex =>
          let zipCodes :=
            filter (fun item => truthy (zipcode item) && truthy (state item))
                   (List.map (parseRow addressIndex cityIndex) dataLines) in
          let stateFiltered := stateFilter (TARGET_STATE cfg) zipCodes in
          Returned (Some (filter isPending stateFiltered))
      | _, _ => Returned None
      end
  end.

Definition or_empty (o : option jsstring) : jsstring :=
  match o with Some s => s | None => [] end.

Definition toWorkUnit (item : record) : WorkUnit :=
  {| unit_zipcode := or_empty (zipcode item);
     unit_state := or_empty (state item) |}.

Definition readZipCodesFromCSV (cfg : config) (fs : files)
    : outcome (list WorkUnit) :=
  match fs MainTable with
  | None => Returned []
  | Some csvContent =>
      match pendingRecords cfg csvContent with
      | Threw e => Threw e
      | Returned None => Returned []
      | Returned (Some noAddressRecords) =>
          Returned (List.map toWorkUnit (applySharding cfg noAddressRecords))
      end
  end.

(** *** Search loop *)

(** One search result of the page: what clicking it and reading the
    [aria-label] of its address button gives ([None] for [null]). *)
Definition entry := outcome (option jsstring).

(** The page, seen from the script: what navigating to a search URL and
    listing its result links gives. *)
Definition page := jsstring -> outcome (list entry).

Record found := { addressLine : jsstring; foundCity : jsstring }.

Definition bind {A B} (x : outcome A) (f : A -> outcome B) : outcome B :=
  match x with
  | Returned a => f a
  | Threw e => Threw e
  end.

(** [try { body } catch (error) { handler }] *)
Definition try_catch {A} (body : outcome A) (handler : jsstring -> outcome A)
    : outcome A :=
  match body with
  | Returned a => Returned a
  | Threw e => handler e
  end.

Definition opt_bind {A B} (x : option A) (f : A -> option B) : option B :=
  match x with Some a => f a | None => None end.

(** The body of the loop over search results, after the label is read:
    [None] is [continue]. *)
Definition checkAddress (zipcode state completeAddress : jsstring)
    : option found :=
  let addressLine :=
    trim (nth 0 (split comma
                   (replace_str (js "Address: ") [] completeAddress)) []) in
  let city := option_map trim (nth_error (split comma completeAddress) 1) in
  let third := option_map trim (nth_error (split comma completeAddress) 2) in
  let stateInCompleteAddress :=
    opt_bind third (fun t => option_map trim (nth_error (split blank t) 0)) in
  let zipcodeInCompleteAddress :=
    opt_bind third (fun t => option_map trim (nth_error (split blank t) 1)) in
  if negb (seq_opt stateInCompleteAddress state)
     || negb (seq_opt zipcodeInCompleteAddress zipcode)
  then None
  else if isValidAddressLine (Some addressLine) && isValidCity city
  then Some {| addressLine := addressLine; foundCity := or_empty city |}
  else None.

(** [for (let searchResult of searchResults)], each turn inside its own
    [try]/[catch]. *)
Fixpoint scanResults (zipcode state : jsstring) (searchResults : list entry)
    : outcome (option found) :=
  match searchResults with
  | [] => Returned None
  | searchResult :: rest =>
      bind
        (try_catch
           (bind searchResult (fun completeAddress =>
              match completeAddress with
              | None | Some [] => Returned None
              | Some a => Returned (checkAddress zipcode state a)
              end))
           (fun innerError => Returned None))
        (fun hit =>
           match hit with
           | Some r => Returned (Some r)
           | None => scanResults zipcode state rest
           end)
  end.

Definition searchUrl (zipcode state searchType : jsstring) : jsstring :=
  js "https://www.google.com/maps/search/"
  ++ searchType ++ js "+in+" ++ zipcode ++ js "+" ++ state ++ js "+USA".

Definition searchForLocationType (pg : page)
    (zipcode state searchType : jsstring) : outcome (option found) :=
  try_catch
    (bind (pg (searchUrl zipcode state searchType))
          (fun searchResults => scanResults zipcode state searchResults))
    (fun error => Returned None).

(** [for (const searchType of SEARCH_TYPES)] with its [break]. *)
Fixpoint trySearchTypes (pg : page) (zipcode state : jsstring)
    (searchTypes : list jsstring) : outcome (option found) :=
  match searchTypes with
  | [] => Returned None
  | searchType :: rest =>
      bind (searchForLocationType pg zipcode state searchType)
           (fun result =>
              match result with
              | Some r => Returned (Some r)
              | None => trySearchTypes pg zipcode state rest
              end)
  end.

(** The terminal status of a unit. *)
Inductive status : Type :=
| Valid (r : found)
| NotFound
| Error (message : jsstring).

(** The branch of [processZipCode] that is taken. *)
Definition resolveUnit (pg : page) (zipcode state : jsstring) : status :=
  match trySearchTypes pg zipcode state SEARCH_TYPES with
  | Returned (Some r) => Valid r
  | Returned None => NotFound
  | Threw e => Error e
  end.

Definition processZipCode (pg : page) (cfg : config) (fs : files)
    (zipcode state : jsstring) : files :=
  match resolveUnit pg zipcode state with
  | Valid r =>
      updateFinalCSV cfg fs zipcode state (addressLine r) (foundCity r)
  | NotFound =>
      updateFinalCSV cfg fs zipcode state (js "Not Found") (js "Not Found")
  | Error _ =>
      updateFinalCSV cfg fs zipcode state (js "Error") (js "Error")
  end.

End Script.

(* ================================================================== *)
(** ** Definitions used to state the properties *)
(* ================================================================== *)

Module Ref.

(** Every maximal run of the class becomes one copy of [rep], written where
    the run ends. *)
Fixpoint collapse (p : cu -> bool) (rep s : jsstring) : jsstring :=
  match s with
  | [] => []
  | c :: t =>
      if p c then
        match t with
        | c' :: _ => if p c' then collapse p rep t else rep ++ collapse p rep t
        | [] => rep
        end
      else c :: collapse p rep t
  end.

(** The input without its trailing run of the class. *)
Fixpoint strip_end (p : cu -> bool) (s : jsstring) : jsstring :=
  match s with
  | [] => []
  | c :: t =>
      match strip_end p t with
      | [] => if p c then [] else [c]
      | t' => c :: t'
      end
  end.

Definition sp : cu := 32%N.

(** U+200B..U+200D: the zero-width code points that are not in [\s]. *)
Definition zero_width_mark (c : cu) : bool := in_range 0x200B%N 0x200D%N c.

(** The replacement chain of the normalizer as list operations. *)
Definition normalize (s : jsstring) : jsstring :=
  let t1 := filter (fun c => negb (CsvUtils.private_use c)) s in
  let t2 := drop_while CsvUtils.leading_glyph t1 in
  let t3 := filter (fun c => negb (CsvUtils.zero_width c)) t2 in
  let t4 := List.map (fun c => if CsvUtils.exotic_space c then sp else c) t3 in
  let t5 := collapse is_space [sp] t4 in
  strip_end is_space (drop_while is_space t5).

(** Continuations: any rest is accepted; only the end of input is. *)
Definition accept : kont := fun _ rest => Some rest.


(** No two neighbours are both in the class. *)
Fixpoint spaced (p : cu -> bool) (s : jsstring) : bool :=
  match s with
  | [] => true
  | c :: t =>
      match t with
      | c' :: _ => negb (p c && p c')
      | [] => true
      end && spaced p t
  end.

(** What the normalizer's results look like. *)
Record tidy (y : jsstring) : Prop := {
  tidy_private : Forall (fun c => negb (CsvUtils.private_use c) = true) y;
  tidy_zero : Forall (fun c => negb (CsvUtils.zero_width c) = true) y;
  tidy_exotic : Forall (fun c => CsvUtils.exotic_space c = false) y;
  tidy_blank : Forall (fun c => is_space c = true -> c = sp) y;
  tidy_spaced : spaced is_space y = true;
  tidy_end : strip_end is_space y = y
}.

(** An attempt after which the retry loop goes on when attempts are left:
    it rejects, or it resolves to a result that is neither valid nor
    "Not Found" and has an error text. *)
Definition retryable (a : ParallelProcessor.attempt_result) : bool :=
  match a with
  | ParallelProcessor.Rejects _ => true
  | ParallelProcessor.Resolves r =>
      negb (CsvUtils.valid r || eqb (CsvUtils.addressline r) (js "Not Found"))
      && truthy (CsvUtils.error r)
  end.

(** A result the retry loop returns at once. *)
Definition accepted (r : CsvUtils.AddressResult) : bool :=
  CsvUtils.valid r || eqb (CsvUtils.addressline r) (js "Not Found").

(** The outcome built after the retry loop. *)
Definition errorOutcome (zip st message : jsstring)
    : CsvUtils.AddressResult :=
  {| CsvUtils.zipcode := zip; CsvUtils.state := st;
     CsvUtils.addressline := js "Error"; CsvUtils.city := js "Error";
     CsvUtils.valid := false; CsvUtils.error := Some message |}.

(** The configuration of shard [i] of [k]. *)
Definition shardConfig (t : Script.target) (k maxPerShard : Z) (i : nat)
    : Script.config :=
  {| Script.TARGET_STATE := t; Script.SHARD_INDEX := Z.of_nat i;
     Script.TOTAL_SHARDS := k;
     Script.MAX_RECORDS_PER_SHARD := maxPerShard |}.

(** The test of the row scan of [updateFinalCSV] on one line. *)
Definition rowMatches (zipcode state line : jsstring) : bool :=
  negb (Script.is_blank_string line)
  && (Nat.leb 2 (List.length (split Script.comma line))
      && eqb (nth 0 (split Script.comma line) []) zipcode
      && eqb (nth 1 (split Script.comma line) []) state).

End Ref.

Import Ref.

(* ================================================================== *)
(** ** The sharded script: initialization of the table *)
(* ================================================================== *)

Module Repair.
Import Script.

Definition emptyQuoted : jsstring := [dquote; dquote].

(** One turn of the loop over the data lines of [initializeCSVHeaders]:
    [None] when the line is skipped, otherwise whether columns were added
    and the line that is kept. *)
Definition cleanRow (line : jsstring) : option (bool * jsstring) :=
  if is_blank_string line then None
  else
    let columns := split comma line in
    if eqb (nth 0 columns []) [] || eqb (nth 0 columns []) emptyQuoted
    then None
    else if Nat.eqb (List.length columns) 2
    then Some (true, join [comma] (columns ++ [emptyQuoted; emptyQuoted]))
    else if Nat.eqb (List.length columns) 3
    then Some (true, join [comma] (columns ++ [emptyQuoted]))
    else Some (false, join [comma] columns).

(** The loop [for (let i = 1; i < lines.length; i++)]: the number of rows
    that were padded and the lines that are kept, in order. *)
Fixpoint cleanRows (rows : list jsstring) : nat * list jsstring :=
  match rows with
  | [] => (0, [])
  | line :: rest =>
      let '(updatedRows, cleanedLines) := cleanRows rest in
      match cleanRow line with
      | None => (updatedRows, cleanedLines)
      | Some (updated, kept) =>
          (if updated then S updatedRows else updatedRows,
           kept :: cleanedLines)
      end
  end.

Definition initializeCSVHeaders (cfg : config) (fs : files) : files :=
  let csvFilePath := csvFilePath cfg in
  match fs csvFilePath with
  | None =>
      if (TOTAL_SHARDS cfg >? 1)%Z
      then writeFileSync fs csvFilePath (canonicalHeader ++ [newline])
      else fs
  | Some csvContent =>
      let lines := split newline csvContent in
      let header := nth 0 lines [] in
      let headerColumns := split comma header in
      let hasAddressColumn := includes (js "address") headerColumns in
      let hasCityColumn := includes (js "city") headerColumns in
      let lines :=
        if negb hasAddressColumn || negb hasCityColumn
        then set_at 0 canonicalHeader lines else lines in
      let '(updatedRows, cleanedRows) := cleanRows (tl lines) in
      let cleanedLines := nth 0 lines [] :: cleanedRows in
      if Nat.ltb 0 updatedRows
         || negb (Nat.eqb (List.length cleanedLines) (List.length lines))
      then writeFileSync fs csvFilePath (join [newline] cleanedLines)
      else fs
  end.

End Repair.

(* ================================================================== *)
(** ** src/parallelProcessor.ts: batches *)
(* ================================================================== *)

Module Batch.
Import CsvUtils.

(** [ZipCodeData] of src/types.ts *)
Record ZipCodeData := { zipcode : jsstring; state : jsstring }.

(** The loop [for (let i = 0; i < array.length; i += chunkSize)] of
    [chunkArray], with a bound on its turns: [None] when the bound is
    reached before the loop ends. *)
Fixpoint chunkLoop {A} (fuel : nat) (array : list A) (chunkSize i : Z)
    : option (list (list A)) :=
  if (i <? Z.of_nat (List.length array))%Z then
    match fuel with
    | O => None
    | S fuel' =>
        match chunkLoop fuel' array chunkSize (i + chunkSize) with
        | Some chunks => Some (slice array i (i + chunkSize) :: chunks)
        | None => None
        end
    end
  else Some [].

Definition chunkArray {A} (fuel : nat) (array : list A) (chunkSize : Z)
    : option (list (list A)) :=
  chunkLoop fuel array chunkSize 0.

(** The extractors, seen from the processor: the outcomes of the calls of
    [extractAddress] on extractor number [k] for a unit. *)
Definition extractors := nat -> ZipCodeData -> ParallelProcessor.extractor.

(** [chunk.map((item, index) => processWithRetry(extractors[index %
    extractors.length], ...))] joined by [Promise.all]: one result per item,
    in the order of the items. *)
Fixpoint batchFrom (es : extractors) (count retries : nat) (index : nat)
    (chunk : list ZipCodeData) : list AddressResult :=
  match chunk with
  | [] => []
  | item :: rest =>
      ParallelProcessor.result
        (ParallelProcessor.processWithRetry
           (es (Nat.modulo index count) item) retries
           (zipcode item) (state item))
      :: batchFrom es count retries (S index) rest
  end.

Record progress := {
  results : list AddressResult;
  saved : list (list AddressResult)    (* what each call of saveCallback got *)
}.

(** The loop over the batches; [i] is the index of the head of [chunks]
    and [total] is [chunks.length]. *)
Fixpoint runBatches (es : extractors) (count retries total : nat) (i : nat)
    (chunks : list (list ZipCodeData)) (acc : progress) : progress :=
  match chunks with
  | [] => acc
  | chunk :: rest =>
      let results := results acc ++ batchFrom es count retries 0 chunk in
      let saved :=
        if Nat.eqb (Nat.modulo i 50) 0 || Nat.eqb i (total - 1)
        then saved acc ++ [results] else saved acc in
      runBatches es count retries total (S i) rest
                 {| results := results; saved := saved |}
  end.

(** [processInParallel] with a save callback; [maxConcurrency] is both the
    size of a batch and the number of extractors. *)
Definition processInParallel (fuel : nat) (es : extractors)
    (maxConcurrency : Z) (retries : nat) (data : list ZipCodeData)
    : option progress :=
  match chunkArray fuel data maxConcurrency with
  | None => None
  | Some chunks =>
      Some (runBatches es (Z.to_nat maxConcurrency) retries
              (List.length chunks) 0 chunks {| results := []; saved := [] |})
  end.

End Batch.

(* ================================================================== *)
(** ** src/addressExtractor.ts: one extraction *)
(* ================================================================== *)

Module Session.
Import CsvUtils ParallelProcessor.

(** [s.toLowerCase()], exact on the code units whose lower case holds an
    ASCII letter: A-Z, U+0130 (lowered to i and U+0307) and U+212A (lowered
    to k).  The lower case of any other code unit of 128 or more holds no
    ASCII code unit; such a code unit is kept as it is, which no search
    for an ASCII text can tell apart. *)
Definition lower_cu (c : cu) : jsstring :=
  if is_upper c then [(c + 32)%N]
  else if (c =? 304)%N then [105%N; 775%N]
  else if (c =? 8490)%N then [107%N]
  else [c].

Definition toLowerCase (s : jsstring) : jsstring := flat_map lower_cu s.

(** [s.includes(pattern)] on strings. *)
Fixpoint str_includes (pattern s : jsstring) : bool :=
  starts_with pattern s
  || match s with
     | [] => false
     | _ :: t => str_includes pattern t
     end.

(** [/\b(St|Ave|Rd|Dr|Blvd|Way|Lane|Ln|Ct|Pl|Street|Avenue|Road|Drive|Boulevard)\b/i] *)
Definition streetType : regex :=
  seqs WordB
       [words true "St" ["Ave"; "Rd"; "Dr"; "Blvd"; "Way"; "Lane"; "Ln";
                         "Ct"; "Pl"; "Street"; "Avenue"; "Road"; "Drive";
                         "Boulevard"];
        WordB].

Definition invalidPatterns : list jsstring :=
  [js "not found"; js "error"; js "n/a"; js "null"; js "undefined"].

Definition validateAddress (addressline city : jsstring) : bool :=
  match addressline, city with
  | [], _ | _, [] => false
  | _, _ =>
      let hasNumber := test (plus digit) addressline in
      let hasStreetType := test streetType addressline in
      let cityValid :=
        Nat.ltb 2 (List.length city)
        && negb (test (Seq (rep 3 digit) (Star true digit)) city)
        && negb (eqb city (js "Unknown")) in
      let containsInvalid :=
        existsb (fun pattern =>
                   str_includes pattern (toLowerCase addressline)
                   || str_includes pattern (toLowerCase city))
                invalidPatterns in
      hasNumber && hasStreetType && cityValid && negb containsInvalid
  end.

(** What the [try] block of [extractAddress] comes to: the address
    information [tryMultipleResults] returns, or a value thrown while
    navigating, waiting or looking at the results. *)
Inductive searched : Type :=
| Info (addressline city : jsstring)
| Fault (t : thrown).

(** One call of [extractAddress], seen from the extractor: what opening the
    context and the page throws, if anything ([createContext], [newPage],
    before the [try]); what the [try] block comes to; and what closing the
    context in the [finally] block throws, if anything. *)
Record session := {
  opening : option thrown;
  search : searched;
  closing : option thrown
}.

Definition extractAddress (zipcode state : jsstring) (s : session)
    : attempt_result :=
  match opening s with
  | Some t => Rejects t
  | None =>
      let returned :=
        match search s with
        | Info a c =>
            match a, c with
            | _ :: _, _ :: _ =>
                {| zipcode := zipcode; state := state; addressline := a;
                   city := c; valid := validateAddress a c; error := None |}
            | _, _ =>
                {| zipcode := zipcode; state := state;
                   addressline := js "Not Found"; city := js "Not Found";
                   valid := false;
                   error := Some (js "Address extraction failed") |}
            end
        | Fault t =>
            {| zipcode := zipcode; state := state;
               addressline := js "Error"; city := js "Error";
               valid := false; error := Some (as_error t) |}
        end in
      match closing s with
      | Some t => Rejects t
      | None => Resolves returned
      end
  end.

(** The extractors of a processor, each call of [extractAddress] with its
    own session: extractor number [k], asked for the n-th time about a
    unit. *)
Definition sessions := nat -> Batch.ZipCodeData -> nat -> session.

Definition extractorsOf (ss : sessions) : Batch.extractors :=
  fun k item n =>
    extractAddress (Batch.zipcode item) (Batch.state item) (ss k item n).

End Session.

(* ================================================================== *)
(** ** src/addressExtractor.ts: the search on the page *)
(* ================================================================== *)

Module Pages.
Import CsvUtils ParallelProcessor.

(** [/\d+.*?(St|Ave|Rd|Dr|Blvd|Way|Lane|Ln|Ct|Pl)/i] *)
Definition looksLikeAddress (text : jsstring) : bool :=
  test (seqs (plus digit)
          [Star false dot;
           words true "St" ["Ave"; "Rd"; "Dr"; "Blvd"; "Way"; "Lane"; "Ln";
                            "Ct"; "Pl"]])
       text.

Definition improperPatterns : list regex :=
  [ lit true "hotel"; lit true "inn"; lit true "suites"; lit true "motel";
    lit true "resort"; lit true "lodge";
    seqs (plus digit)
      [lit false "."; plus digit; lit false "("; plus digit; lit false ")"];
    Seq (plus digit) (lit true "-star");
    lit true "restaurant"; lit true "cafe"; lit true "mall";
    lit true "center"; lit true "plaza" ].

Definition isProperAddress (addressline : jsstring) : bool :=
  negb (existsb (fun pattern => test pattern addressline) improperPatterns).

Definition quoted (s : string) : jsstring := [34%N] ++ js s ++ [34%N].

Definition resultSelectors : list jsstring :=
  [ js "div[data-result-index=" ++ quoted "0" ++ js "]";
    js "div[data-result-index=" ++ quoted "1" ++ js "]";
    js "div[data-result-index=" ++ quoted "2" ++ js "]";
    js "div[role=" ++ quoted "article" ++ js "]";
    js ".Nv2PK";
    js "a[data-result-index=" ++ quoted "0" ++ js "]";
    js "a[data-result-index=" ++ quoted "1" ++ js "]";
    js ".hfpxzc" ].

Definition addressSelectors : list jsstring :=
  [ js "button[data-item-id=" ++ quoted "address" ++ js "]";
    js "div[data-item-id=" ++ quoted "address" ++ js "]";
    js ".rogA2c .fontBodyMedium";
    js ".Io6YTe.fontBodyMedium";
    js ".rogA2c";
    js "[data-value=" ++ quoted "Address" ++ js "]";
    js "div.fontBodyMedium span";
    js ".AeaXub .fontBodyMedium";
    js ".Io6YTe";
    js ".fontBodyMedium" ].

Definition noAddress : AddressExtractor.Parsed :=
  {| AddressExtractor.addressline := []; AddressExtractor.city := [] |}.

Section OnPage.

(** The browser is a world [W] that every call may change, whether the
    call returns or throws; [El] are the element handles. *)
Variables W El : Type.

Definition M (A : Type) : Type := W -> (A + thrown) * W.

Definition ret {A} (a : A) : M A := fun w => (inl a, w).

Definition bind {A B} (x : M A) (f : A -> M B) : M B :=
  fun w =>
    match x w with
    | (inl a, w') => f a w'
    | (inr t, w') => (inr t, w')
    end.

(** [try { body } catch (error) { handler }] *)
Definition catch {A} (body : M A) (handler : thrown -> M A) : M A :=
  fun w =>
    match body w with
    | (inl a, w') => (inl a, w')
    | (inr t, w') => handler t w'
    end.

(** The calls the extractor makes on the context and on the page. *)
Record Page := {
  createContext : M unit;                  (* createContext and newPage *)
  goto : jsstring -> jsstring -> M unit;   (* url, waitUntil *)
  waitForTimeout : nat -> M unit;
  query : jsstring -> M (list El);         (* page.$$(selector) *)
  click : El -> M unit;
  textContent : El -> M (option jsstring);
  goBack : M unit;
  close : M unit                           (* context.close() *)
}.

Variable page : Page.

(** The loops [for (const element of elements)] of
    [extractAddressFromPage]: the cleaned text of the first element whose
    text is accepted. *)
Fixpoint scan (accepts : jsstring -> bool) (elements : list El)
    : M (option jsstring) :=
  match elements with
  | [] => ret None
  | element :: rest =>
      bind (textContent page element) (fun text =>
        match text with
        | Some t =>
            if accepts t then ret (Some (AddressExtractor.cleanAddressText t))
            else scan accepts rest
        | None => scan accepts rest
        end)
  end.

(** [text && text.length > 10 && this.looksLikeAddress(text)] *)
Definition accepted (text : jsstring) : bool :=
  Nat.ltb 10 (List.length text) && looksLikeAddress text.

(** [text && text.length > 15 && text.length < 200 &&
    this.looksLikeAddress(text)] *)
Definition acceptedAnywhere (text : jsstring) : bool :=
  Nat.ltb 15 (List.length text) && Nat.ltb (List.length text) 200
  && looksLikeAddress text.

(** The loop [for (const selector of addressSelectors)]: [addressText]
    when the loop ends. *)
Fixpoint addressFrom (selectors : list jsstring) : M jsstring :=
  match selectors with
  | [] => ret []
  | selector :: rest =>
      bind (catch (bind (query page selector) (scan accepted))
                  (fun _ => ret None))
           (fun found =>
              match found with
              | Some ((_ :: _) as addressText) => ret addressText
              | _ => addressFrom rest
              end)
  end.

Definition extractAddressFromPage : M AddressExtractor.Parsed :=
  bind (addressFrom addressSelectors) (fun addressText =>
  bind (match addressText with
        | [] =>
            bind (query page (js "span, div")) (fun allElements =>
            bind (scan acceptedAnywhere allElements) (fun found =>
            ret (match found with Some t => t | None => [] end)))
        | _ :: _ => ret addressText
        end) (fun addressText =>
  match addressText with
  | [] => ret noAddress
  | _ :: _ => ret (AddressExtractor.parseAddress addressText)
  end)).

(** The loop [for (const selector of resultSelectors)] of one attempt:
    [resultClicked] when the loop ends. *)
Fixpoint clickResult (attempt : nat) (selectors : list jsstring) : M bool :=
  match selectors with
  | [] => ret false
  | selector :: rest =>
      bind (catch (bind (query page selector) (fun elements =>
                     match nth_error elements attempt with
                     | Some element =>
                         bind (click page element) (fun _ =>
                         bind (waitForTimeout page 2000) (fun _ =>
                         ret true))
                     | None => ret false
                     end))
                  (fun _ => ret false))
           (fun clicked =>
              if clicked then ret true else clickResult attempt rest)
  end.

(** The loop [for (let attempt = 0; attempt < 3; attempt++)], over the
    attempts still to make. *)
Fixpoint attempts (todo : list nat) : M AddressExtractor.Parsed :=
  match todo with
  | [] => ret noAddress
  | attempt :: rest =>
      bind (clickResult attempt resultSelectors) (fun resultClicked =>
        if negb resultClicked then ret noAddress
        else
          bind extractAddressFromPage (fun addressInfo =>
            match AddressExtractor.addressline addressInfo,
                  AddressExtractor.city addressInfo with
            | _ :: _, _ :: _ =>
                if isProperAddress (AddressExtractor.addressline addressInfo)
                then ret addressInfo
                else bind (goBack page) (fun _ =>
                     bind (waitForTimeout page 1000) (fun _ =>
                     attempts rest))
            | _, _ => attempts rest
            end))
  end.

Definition tryMultipleResults : M AddressExtractor.Parsed := attempts [0; 1; 2].

Definition searchUrl (zipcode state : jsstring) : jsstring :=
  js "https://www.google.com/maps/search/gas+station+in+"
  ++ zipcode ++ js "+" ++ state.

(** The [try] block of [extractAddress]. *)
Definition searchAddress (zipcode state : jsstring) : M AddressResult :=
  bind (catch (goto page (searchUrl zipcode state) (js "domcontentloaded"))
              (fun _ => goto page (searchUrl zipcode state) (js "load")))
       (fun _ =>
  bind (waitForTimeout page 3000) (fun _ =>
  bind tryMultipleResults (fun addressInfo =>
  match AddressExtractor.addressline addressInfo,
        AddressExtractor.city addressInfo with
  | _ :: _, _ :: _ =>
      ret {| zipcode := zipcode; state := state;
             addressline := AddressExtractor.addressline addressInfo;
             city := AddressExtractor.city addressInfo;
             valid := Session.validateAddress
                        (AddressExtractor.addressline addressInfo)
                        (AddressExtractor.city addressInfo);
             error := None |}
  | _, _ =>
      ret {| zipcode := zipcode; state := state;
             addressline := js "Not Found"; city := js "Not Found";
             valid := false;
             error := Some (js "Address extraction failed") |}
  end))).

(** [extractAddress]: what the promise settles to, and the world after. *)
Definition extractAddress (zipcode state : jsstring)
    : W -> attempt_result * W :=
  fun w =>
    match createContext page w with
    | (inr t, w1) => (Rejects t, w1)
    | (inl _, w1) =>
        let '(returned, w2) :=
          match searchAddress zipcode state w1 with
          | (inl r, w2) => (r, w2)
          | (inr t, w2) =>
              ({| zipcode := zipcode; state := state;
                  addressline := js "Error"; city := js "Error";
                  valid := false; error := Some (as_error t) |}, w2)
          end in
        match close page w2 with
        | (inr t, w3) => (Rejects t, w3)
        | (inl _, w3) => (Resolves returned, w3)
        end
    end.

End OnPage.

End Pages.

(* ================================================================== *)
(** ** Reference descriptions of the selection and of the batches *)
(* ================================================================== *)

(** The states a configuration asks for: any state for ['ALL'], the state
    itself for a single state, a member of the array otherwise. *)
Definition wantsState (t : Script.target) (state : jsstring) : Prop :=
  match t with
  | inl s => s = js "ALL" \/ state = s
  | inr states => In state states
  end.

(** A data row that [initializeCSVHeaders] keeps as it is: not blank, with
    a first field that is neither empty nor [""], and with a number of
    fields that is neither 2 nor 3. *)
Definition wellFormedRow (line : jsstring) : Prop :=
  Script.is_blank_string line = false
  /\ nth 0 (split Script.comma line) [] <> []
  /\ nth 0 (split Script.comma line) [] <> Repair.emptyQuoted
  /\ List.length (split Script.comma line) <> 2
  /\ List.length (split Script.comma line) <> 3.

(** The row that [updateFinalCSV] writes for a key. *)
Definition storedRow (zipcode state addressLine city : jsstring)
    : jsstring :=
  zipcode ++ [Script.comma] ++ state ++ [Script.comma]
  ++ [Script.dquote] ++ addressLine ++ [Script.dquote] ++ [Script.comma]
  ++ [Script.dquote] ++ city ++ [Script.dquote].

(** A call of [extractAddress] that ends in a fault with a message: it
    rejects, or something is thrown inside its [try] block with a message
    that is not empty. *)
Definition faulted (s : Session.session) : bool :=
  match Session.opening s, Session.closing s, Session.search s with
  | Some _, _, _ | None, Some _, _ => true
  | None, None, Session.Fault t =>
      match ParallelProcessor.as_error t with [] => false | _ :: _ => true end
  | None, None, Session.Info _ _ => false
  end.

(** An address that comes from the page: the parse of the cleaned text of
    an element whose text looks like an address and has more than 10 code
    units. *)
Definition parsedFromPage (info : AddressExtractor.Parsed) : Prop :=
  exists text,
    Pages.looksLikeAddress text = true
    /\ 10 < List.length text
    /\ info = AddressExtractor.parseAddress
                (AddressExtractor.cleanAddressText text).

(** An address that [tryMultipleResults] lets through. *)
Definition checkedAddress (a c : jsstring) : Prop :=
  a <> [] /\ c <> []
  /\ Pages.isProperAddress a = true
  /\ parsedFromPage {| AddressExtractor.addressline := a;
                       AddressExtractor.city := c |}.

(** The result of [extractAddress] for a unit whose address was not
    found. *)
Definition notFoundOutcome (zip st : jsstring) : CsvUtils.AddressResult :=
  {| CsvUtils.zipcode := zip; CsvUtils.state := st;
     CsvUtils.addressline := js "Not Found";
     CsvUtils.city := js "Not Found";
     CsvUtils.valid := false;
     CsvUtils.error := Some (js "Address extraction failed") |}.

(** A call that returns in every world, and a call that throws in every
    world. *)
Definition returns {W A : Type} (x : Pages.M W A) : Prop :=
  forall w, exists a w', x w = (inl a, w').

Definition throws {W A : Type} (x : Pages.M W A) : Prop :=
  forall w, exists t w', x w = (inr t, w').

(** What unit number [j] of the data gets: the outcome of the retries on
    extractor number [j mod count]. *)
Definition handled (es : Batch.extractors) (count retries : nat)
    (p : nat * Batch.ZipCodeData) : CsvUtils.AddressResult :=
  ParallelProcessor.result
    (ParallelProcessor.processWithRetry
       (es (Nat.modulo (fst p) count) (snd p)) retries
       (Batch.zipcode (snd p)) (Batch.state (snd p))).

(* ================================================================== *)
(** ** Reference descriptions of the patterns, on lists *)
(* ================================================================== *)

(** Two code units that are equal up to ASCII case. *)
Definition same_ci (a b : cu) : bool := (canon a =? canon b)%N.

(** The text [w] stands at the start of [s], up to case. *)
Fixpoint starts_ci (w s : jsstring) : bool :=
  match w, s with
  | [], _ => true
  | x :: w', y :: s' => same_ci y x && starts_ci w' s'
  | _ :: _, [] => false
  end.


(** Something holds here or further on in [s]; [prev] is the code unit
    before the place that is looked at. *)
Fixpoint somewhere (here : option cu -> jsstring -> bool)
    (prev : option cu) (s : jsstring) : bool :=
  here prev s
  || match s with
     | [] => false
     | c :: t => somewhere here (Some c) t
     end.

(** [s] holds the text [w], up to case. *)
Definition contains_ci (w : string) (s : jsstring) : bool :=
  somewhere (fun _ t => starts_ci (js w) t) None s.

(** The text [w] stands here as a token: up to case, with no word
    character just before it and none just after it. *)
Definition token_here (w : jsstring) (prev : option cu) (s : jsstring)
    : bool :=
  negb (word_opt prev) && starts_ci w s
  && negb (word_opt (hd_error (skipn (List.length w) s))).

(** [s] holds the token [w]. *)
Definition contains_token (w : string) (s : jsstring) : bool :=
  somewhere (token_here (js w)) None s.

(** One digit or more, then [next] on what follows the digits. *)
Definition digits_then (next : jsstring -> bool) (s : jsstring) : bool :=
  match s with
  | d :: t => is_digit d && next (drop_while is_digit t)
  | [] => false
  end.

(** The code unit [c], then [next]. *)
Definition cu_then (c : cu) (next : jsstring -> bool) (s : jsstring)
    : bool :=
  match s with
  | x :: t => (x =? c)%N && next t
  | [] => false
  end.

(** A rating stands here: digits, a period, digits, an opening bracket,
    digits, a closing bracket, as in 4.2(123). *)
Definition rating_here (s : jsstring) : bool :=
  digits_then (cu_then 46%N (digits_then (cu_then 40%N
    (digits_then (cu_then 41%N (fun _ => true)))))) s.

Definition hasRating (s : jsstring) : bool :=
  somewhere (fun _ t => rating_here t) None s.

(** A star rating: digits followed by -star, as in 3-star. *)
Definition hasStarRating (s : jsstring) : bool :=
  somewhere (fun _ t => digits_then (starts_ci (js "-star")) t) None s.

(** The street-suffix tokens. *)
Definition suffixTokens : list string :=
  ["St"; "Street"; "Ave"; "Avenue"; "Rd"; "Road"; "Dr"; "Drive"; "Blvd";
   "Boulevard"; "Way"; "Lane"; "Ln"; "Ct"; "Court"; "Pl"; "Place"; "Cir";
   "Circle"; "Pkwy"; "Parkway"; "Hwy"; "Highway"].

Definition hasSuffixToken (s : jsstring) : bool :=
  existsb (fun w => contains_token w s) suffixTokens.

(** The accommodation and business nouns, looked for anywhere in the
    text, inside a word too. *)
Definition accommodationNouns : list string :=
  ["hotel"; "inn"; "suites"; "motel"; "resort"; "lodge"].

Definition businessNouns : list string :=
  ["restaurant"; "cafe"; "mall"; "center"; "plaza"].

Definition businessPhrases : list string :=
  ["gas station"; "convenience store"].

(** An operating-hours phrase: "open " and a digit, "closed" or "hours",
    anywhere in the text. *)
Definition hasHoursPhrase (s : jsstring) : bool :=
  somewhere (fun _ t =>
               starts_ci (js "open ") t
               && match skipn 5 t with
                  | d :: _ => is_digit d
                  | [] => false
                  end) None s
  || contains_ci "closed" s || contains_ci "hours" s.

(** What the improper patterns of the address line look for, one entry
    per pattern. *)
Definition improperChecks (s : jsstring) : list bool :=
  [ hasRating s;
    hasStarRating s;
    existsb (fun w => contains_ci w s) accommodationNouns;
    existsb (fun w => contains_ci w s) businessNouns;
    existsb (fun w => contains_ci w s) businessPhrases;
    hasHoursPhrase s ].

Definition improperLine (s : jsstring) : bool :=
  existsb (fun b => b) (improperChecks s).









(** Helpers of the proofs about the matcher. *)
Definition is_some {A} (o : option A) : bool :=
  match o with Some _ => true | None => false end.

(** What is left of [s] after the text [w] at its start, up to case, with
    the code unit before what is left. *)
Fixpoint after_ci (w s : jsstring) (prev : option cu)
    : option (option cu * jsstring) :=
  match w, s with
  | [], _ => Some (prev, s)
  | x :: w', y :: s' => if same_ci y x then after_ci w' s' (Some y) else None
  | _ :: _, [] => None
  end.

(** The code unit before what a run of the class leaves of [s]. *)
Fixpoint run_prev (p : cu -> bool) (prev : option cu) (s : jsstring)
    : option cu :=
  match s with
  | c :: t => if p c then run_prev p (Some c) t else prev
  | [] => prev
  end.

(** A token of a word-bounded pattern: not empty, with a word character
    at both ends. *)
Definition good_token (w : string) : bool :=
  match js w with
  | [] => false
  | c :: t => is_word c && is_word (last (c :: t) c)
  end.

(* ================================================================== *)
(** ** Reference description of the address a unit resolves to *)
(* ================================================================== *)













(* ================================================================== *)
(** * Properties *)
(* ================================================================== *)

(** ** The matcher on one-class patterns *)

Section MatcherFacts.

Variable p : cu -> bool.

Lemma drop_while_length (s : jsstring) :
  List.length (drop_while p s) <= List.length s.
Proof.
  induction s as [|c t IH]; simpl; [lia|].
  destruct (p c); simpl; lia.
Qed.

Lemma ltb_cons (c : cu) (t : jsstring) :
  Nat.ltb (List.length t) (List.length (c :: t)) = true.
Proof. apply Nat.ltb_lt. simpl. lia. Qed.

(** One turn of a greedy run of one class. *)
Lemma star_chr_step (k : kont) (n : nat) (prev : option cu) (s : jsstring) :
  star_loop (m (Chr p)) true k (S n) prev s
  = match s with
    | c :: t =>
        if p c
        then orelse (star_loop (m (Chr p)) true k n (Some c) t) (k prev s)
        else k prev s
    | [] => k prev []
    end.
Proof.
  destruct s as [|c t]; [reflexivity|].
  cbn [star_loop]. cbn [m]. destruct (p c); [|reflexivity].
  rewrite ltb_cons. reflexivity.
Qed.

(** A greedy run of one class, followed by nothing, stops where the class
    stops. *)
Lemma star_chr_accept (n : nat) :
  forall prev s, List.length s < n ->
    star_loop (m (Chr p)) true accept n prev s = Some (drop_while p s).
Proof.
  induction n as [|n IH]; intros prev s Hn; [lia|].
  rewrite star_chr_step.
  destruct s as [|c t]; [reflexivity|].
  cbn [drop_while]. destruct (p c) eqn:Hc; [|reflexivity].
  rewrite IH by (simpl in Hn; lia). reflexivity.
Qed.


Lemma m_plus_chr (k : kont) (prev : option cu) (s : jsstring) :
  m (plus (Chr p)) prev s k
  = match s with
    | c :: t =>
        if p c
        then star_loop (m (Chr p)) true k (S (List.length t)) (Some c) t
        else None
    | [] => None
    end.
Proof. destruct s as [|c t]; reflexivity. Qed.

Lemma match_at_plus_chr (prev : option cu) (s : jsstring) :
  match_at (plus (Chr p)) prev s
  = match s with
    | c :: t => if p c then Some (drop_while p t) else None
    | [] => None
    end.
Proof.
  unfold match_at. rewrite m_plus_chr.
  destruct s as [|c t]; [reflexivity|].
  destruct (p c); [|reflexivity].
  apply star_chr_accept. lia.
Qed.

(** Nothing anchored at the start matches further on. *)
Lemma find_bol_inside (r : regex) (s : jsstring) :
  forall c, find (Seq Bol r) (Some c) s = None.
Proof.
  induction s as [|d t IH]; intro c; simpl; [reflexivity|].
  rewrite IH. reflexivity.
Qed.

Lemma find_bol (r : regex) (s : jsstring) :
  find (Seq Bol r) None s
  = match match_at r None s with
    | Some rest =>
        Some ([], firstn (List.length s - List.length rest) s, rest)
    | None => None
    end.
Proof.
  destruct s as [|c t]; unfold find; fold find; unfold match_at; simpl m.
  - destruct (m r None [] _); reflexivity.
  - destruct (m r None (c :: t) _); [reflexivity|].
    rewrite find_bol_inside. reflexivity.
Qed.

(** [/\d/.test(s)]-like patterns: some code unit is in the class. *)
Lemma find_chr_none (s : jsstring) :
  forall prev, existsb p s = false -> find (Chr p) prev s = None.
Proof.
  induction s as [|c t IH]; intros prev H; simpl in *; [reflexivity|].
  apply orb_false_iff in H. destruct H as [Hc Ht].
  unfold match_at. simpl. rewrite Hc. rewrite IH by assumption. reflexivity.
Qed.

Lemma test_chr (s : jsstring) : test (Chr p) s = existsb p s.
Proof.
  unfold test.
  destruct (existsb p s) eqn:E.
  - assert (G : forall prev, find (Chr p) prev s <> None).
    { clear - E. induction s as [|c t IH]; intro prev; simpl in *;
        [discriminate|].
      unfold match_at. simpl. destruct (p c) eqn:Hc; [discriminate|].
      simpl in E. specialize (IH E (Some c)).
      destruct (find (Chr p) (Some c) t) as [[[? ?] ?]|];
        [discriminate|congruence]. }
    specialize (G None). destruct (find (Chr p) None s); congruence.
  - rewrite find_chr_none by assumption. reflexivity.
Qed.



End MatcherFacts.

(** ** Global replacements of one-class patterns *)

Section ReplaceFacts.

Variable p : cu -> bool.
Variable rep : jsstring.

Lemma replace_all_chr_from (fuel : nat) :
  forall prev s, List.length s < fuel ->
    replace_all_from fuel (Chr p) rep prev s
    = flat_map (fun c => if p c then rep else [c]) s.
Proof.
  induction fuel as [|fuel IH]; intros prev s Hf; [lia|].
  destruct s as [|c t]; [reflexivity|].
  cbn [replace_all_from flat_map]. unfold match_at. cbn [m].
  destruct (p c) eqn:Hc.
  - rewrite ltb_cons. rewrite IH by (simpl in Hf; lia). reflexivity.
  - rewrite IH by (simpl in Hf; lia). reflexivity.
Qed.

Lemma replace_all_chr (s : jsstring) :
  replace_all (Chr p) rep s = flat_map (fun c => if p c then rep else [c]) s.
Proof. apply replace_all_chr_from. lia. Qed.

Lemma collapse_run (c : cu) (t : jsstring) :
  p c = true ->
  Ref.collapse p rep (c :: t) = rep ++ Ref.collapse p rep (drop_while p t).
Proof.
  revert c. induction t as [|d t IH]; intros c Hc.
  - simpl. rewrite Hc. rewrite app_nil_r. reflexivity.
  - cbn [Ref.collapse drop_while]. rewrite Hc.
    destruct (p d) eqn:Hd.
    + rewrite <- (IH d Hd). cbn [Ref.collapse]. rewrite Hd. reflexivity.
    + cbn [Ref.collapse]. rewrite Hd. reflexivity.
Qed.

Lemma replace_all_plus_from (fuel : nat) :
  forall prev s, List.length s < fuel ->
    replace_all_from fuel (plus (Chr p)) rep prev s = Ref.collapse p rep s.
Proof.
  induction fuel as [|fuel IH]; intros prev s Hf; [lia|].
  destruct s as [|c t]; [reflexivity|].
  cbn [replace_all_from]. rewrite match_at_plus_chr.
  destruct (p c) eqn:Hc.
  - pose proof (drop_while_length p t) as Hl.
    replace (Nat.ltb (List.length (drop_while p t)) (List.length (c :: t)))
      with true by (symmetry; apply Nat.ltb_lt; simpl; lia).
    rewrite IH by (simpl in Hf; lia).
    symmetry. apply collapse_run. assumption.
  - rewrite IH by (simpl in Hf; lia).
    cbn [Ref.collapse]. rewrite Hc. reflexivity.
Qed.

Lemma replace_all_plus (s : jsstring) :
  replace_all (plus (Chr p)) rep s = Ref.collapse p rep s.
Proof. apply replace_all_plus_from. lia. Qed.

Lemma replace_first_leading (s : jsstring) :
  replace_first (Seq Bol (plus (Chr p))) [] s = drop_while p s.
Proof.
  unfold replace_first. rewrite find_bol. rewrite match_at_plus_chr.
  destruct s as [|c t]; [reflexivity|].
  cbn [drop_while]. destruct (p c); reflexivity.
Qed.

End ReplaceFacts.

Lemma flat_map_remove (p : cu -> bool) (s : jsstring) :
  flat_map (fun c => if p c then [] else [c]) s
  = filter (fun c => negb (p c)) s.
Proof.
  induction s as [|c t IH]; simpl; [reflexivity|].
  rewrite IH. destruct (p c); reflexivity.
Qed.

Lemma flat_map_subst (p : cu -> bool) (d : cu) (s : jsstring) :
  flat_map (fun c => if p c then [d] else [c]) s
  = List.map (fun c => if p c then d else c) s.
Proof.
  induction s as [|c t IH]; simpl; [reflexivity|].
  rewrite IH. destruct (p c); reflexivity.
Qed.

Lemma strip_end_rev (p : cu -> bool) (s : jsstring) :
  rev (drop_while p (rev s)) = Ref.strip_end p s.
Proof.
  induction s as [|c t IH]; [reflexivity|].
  cbn [rev Ref.strip_end]. rewrite <- IH.
  generalize (rev t) as u. intro u.
  induction u as [|d u IHu]; simpl.
  - destruct (p c); reflexivity.
  - destruct (p d) eqn:Hd; simpl.
    + exact IHu.
    + rewrite rev_app_distr. simpl.
      destruct (rev u ++ [d]) eqn:E; [|reflexivity].
      destruct (rev u); discriminate.
Qed.

(** ** The normalizer as list operations *)

Lemma trim_strip (s : jsstring) :
  trim s = Ref.strip_end is_space (drop_while is_space s).
Proof. unfold trim. apply strip_end_rev. Qed.

Lemma cleanChain_normalize (s : jsstring) :
  CsvUtils.cleanChain s = Ref.normalize s.
Proof.
  unfold CsvUtils.cleanChain, Ref.normalize.
  rewrite trim_strip.
  fold space. unfold space.
  rewrite replace_all_plus.
  rewrite !replace_all_chr.
  rewrite replace_first_leading.
  rewrite !flat_map_remove.
  change (js " ") with [Ref.sp].
  rewrite flat_map_subst.
  reflexivity.
Qed.

(** ** Code unit classes *)

Ltac classes :=
  unfold CsvUtils.private_use, CsvUtils.leading_glyph, CsvUtils.zero_width,
         CsvUtils.exotic_space, Ref.zero_width_mark, is_space, in_range,
         Ref.sp in *;
  repeat match goal with
         | H : _ = false |- _ => apply not_true_iff_false in H
         | |- _ = false => apply not_true_iff_false; intro
         end;
  rewrite ?orb_true_iff, ?andb_true_iff, ?N.eqb_eq, ?N.leb_le in *;
  lia.

Lemma exotic_is_space (c : cu) :
  CsvUtils.exotic_space c = true -> is_space c = true.
Proof. intro H. classes. Qed.

Lemma space_is_leading (c : cu) :
  is_space c = true -> CsvUtils.leading_glyph c = true.
Proof. intro H. classes. Qed.

Lemma zero_width_cases (c : cu) :
  CsvUtils.zero_width c = true ->
  Ref.zero_width_mark c = true \/ is_space c = true.
Proof. intro H. classes. Qed.

(** ** Shapes kept by the list operations *)

Section Shapes.

Variable p : cu -> bool.

Lemma Forall_drop_while (P : cu -> Prop) (q : cu -> bool) (s : jsstring) :
  Forall P s -> Forall P (drop_while q s).
Proof.
  induction 1 as [|c t Hc Ht IH]; simpl; [constructor|].
  destruct (q c); [assumption | constructor; assumption].
Qed.

Lemma Forall_strip_end (P : cu -> Prop) (s : jsstring) :
  Forall P s -> Forall P (Ref.strip_end p s).
Proof.
  induction 1 as [|c t Hc Ht IH]; simpl; [constructor|].
  destruct (Ref.strip_end p t).
  - destruct (p c); repeat constructor; assumption.
  - constructor; assumption.
Qed.

Lemma Forall_filter (P : cu -> Prop) (q : cu -> bool) (s : jsstring) :
  Forall P s -> Forall P (filter q s).
Proof.
  induction 1 as [|c t Hc Ht IH]; simpl; [constructor|].
  destruct (q c); [constructor|]; assumption.
Qed.

Lemma Forall_collapse (P : cu -> Prop) (d : cu) (s : jsstring) :
  P d -> Forall P s -> Forall P (Ref.collapse p [d] s).
Proof.
  intros Hd. induction 1 as [|c t Hc Ht IH]; simpl; [constructor|].
  destruct (p c).
  - destruct t as [|c' t']; [repeat constructor; assumption|].
    destruct (p c'); [assumption | constructor; assumption].
  - constructor; assumption.
Qed.

(** What a collapse writes is outside the class or the replacement. *)
Lemma collapse_chars (d : cu) (s : jsstring) :
  Forall (fun c => p c = true -> c = d) (Ref.collapse p [d] s).
Proof.
  induction s as [|c t IH]; simpl; [constructor|].
  destruct (p c) eqn:Hc.
  - destruct t as [|c' t']; [repeat constructor|].
    destruct (p c'); [assumption | constructor; auto].
  - constructor; [congruence | assumption].
Qed.

Lemma collapse_head_out (d c : cu) (t : jsstring) :
  p c = false ->
  Ref.collapse p [d] (c :: t) = c :: Ref.collapse p [d] t.
Proof. intro Hc. simpl. rewrite Hc. reflexivity. Qed.

Lemma collapse_spaced (d : cu) (s : jsstring) :
  spaced p (Ref.collapse p [d] s) = true.
Proof.
  induction s as [|c t IH]; [reflexivity|].
  cbn [Ref.collapse]. destruct (p c) eqn:Hc.
  - destruct t as [|c' t']; [reflexivity|].
    destruct (p c') eqn:Hc'; [assumption|].
    rewrite collapse_head_out in * by assumption.
    change (negb (p d && p c') && spaced p (c' :: Ref.collapse p [d] t') = true).
    rewrite Hc', andb_false_r. exact IH.
  - cbn [spaced]. rewrite IH, Hc. simpl.
    destruct (Ref.collapse p [d] t); reflexivity.
Qed.

Lemma spaced_tail (c : cu) (t : jsstring) :
  spaced p (c :: t) = true -> spaced p t = true.
Proof. cbn [spaced]. intro H. apply andb_true_iff in H. tauto. Qed.

Lemma spaced_drop_while (q : cu -> bool) (s : jsstring) :
  spaced p s = true -> spaced p (drop_while q s) = true.
Proof.
  induction s as [|c t IH]; intro H; [reflexivity|].
  cbn [drop_while]. destruct (q c); [|assumption].
  apply IH. eapply spaced_tail; eassumption.
Qed.

Lemma strip_end_head (c : cu) (t : jsstring) :
  Ref.strip_end p (c :: t) = []
  \/ exists t', Ref.strip_end p (c :: t) = c :: t'
                /\ (t' = [] \/ exists d u u', t = d :: u /\ t' = d :: u').
Proof.
  cbn [Ref.strip_end].
  destruct t as [|d u].
  - simpl. destruct (p c); [left; reflexivity|].
    right. exists []. auto.
  - destruct (Ref.strip_end p (d :: u)) as [|e v] eqn:E.
    + destruct (p c); [left; reflexivity|]. right; exists []; auto.
    + right. exists (e :: v). split; [reflexivity|]. right.
      cbn [Ref.strip_end] in E.
      destruct (Ref.strip_end p u) as [|j l].
      * destruct (p d); [discriminate|]. injection E as <- <-.
        exists d, u, []. auto.
      * injection E as <- <-. exists d, u, (j :: l). auto.
Qed.

Lemma spaced_strip_end (s : jsstring) :
  spaced p s = true -> spaced p (Ref.strip_end p s) = true.
Proof.
  induction s as [|c t IH]; intro H; [reflexivity|].
  pose proof (spaced_tail _ _ H) as Ht. specialize (IH Ht).
  destruct (strip_end_head c t) as [E | (t' & E & Ht')].
  - rewrite E. reflexivity.
  - rewrite E.
    assert (Et : t' = Ref.strip_end p t \/ t' = []).
    { cbn [Ref.strip_end] in E. destruct (Ref.strip_end p t).
      - destruct (p c); [discriminate|]. injection E as <-. auto.
      - injection E as <-. auto. }
    destruct Ht' as [-> | (d & u & u' & -> & ->)]; [reflexivity|].
    destruct Et as [Et | Et]; [|discriminate].
    change (negb (p c && p d) && spaced p (d :: u') = true).
    rewrite Et, IH, andb_true_r.
    cbn [spaced] in H. apply andb_true_iff in H. tauto.
Qed.

Lemma strip_end_idem (s : jsstring) :
  Ref.strip_end p (Ref.strip_end p s) = Ref.strip_end p s.
Proof.
  induction s as [|c t IH]; [reflexivity|].
  cbn [Ref.strip_end].
  destruct (Ref.strip_end p t) as [|e v] eqn:E.
  - destruct (p c) eqn:Hc; [reflexivity|]. simpl. rewrite Hc. reflexivity.
  - change (match Ref.strip_end p (e :: v) with
            | [] => if p c then [] else [c]
            | t' => c :: t'
            end = c :: e :: v).
    rewrite IH. reflexivity.
Qed.

Lemma strip_end_keeps_head (c : cu) (t : jsstring) :
  p c = false -> exists t', Ref.strip_end p (c :: t) = c :: t'.
Proof.
  intro Hc. cbn [Ref.strip_end].
  destruct (Ref.strip_end p t); [rewrite Hc|]; eauto.
Qed.

(** A collapse changes nothing where every member of the class is the
    replacement itself and stands alone. *)
Lemma collapse_fixed (d : cu) (s : jsstring) :
  Forall (fun c => p c = true -> c = d) s -> spaced p s = true ->
  Ref.collapse p [d] s = s.
Proof.
  induction 1 as [|c t Hc Ht IH]; intro Hs; [reflexivity|].
  pose proof (spaced_tail _ _ Hs) as Hs'.
  cbn [Ref.collapse]. destruct (p c) eqn:Ec.
  - rewrite (Hc eq_refl) in *.
    destruct t as [|c' t']; [reflexivity|].
    cbn [spaced] in Hs. rewrite Ec in Hs.
    destruct (p c') eqn:Ec'; [discriminate|].
    rewrite IH by assumption. reflexivity.
  - rewrite IH by assumption. reflexivity.
Qed.

Lemma filter_fixed (q : cu -> bool) (s : jsstring) :
  Forall (fun c => q c = true) s -> filter q s = s.
Proof.
  induction 1 as [|c t Hc Ht IH]; simpl; [reflexivity|].
  rewrite Hc, IH. reflexivity.
Qed.

Lemma map_fixed (f : cu -> cu) (s : jsstring) :
  Forall (fun c => f c = c) s -> List.map f s = s.
Proof.
  induction 1 as [|c t Hc Ht IH]; simpl; [reflexivity|].
  rewrite Hc, IH. reflexivity.
Qed.

End Shapes.

(** ** Fixed points of the normalizer *)

Lemma filter_all (q : cu -> bool) (s : jsstring) :
  Forall (fun c => q c = true) (filter q s).
Proof.
  induction s as [|c t IH]; simpl; [constructor|].
  destruct (q c) eqn:Hc; [constructor|]; assumption.
Qed.

Lemma Forall_subst (P : cu -> Prop) (q : cu -> bool) (d : cu) (s : jsstring) :
  P d -> Forall P s -> Forall P (List.map (fun c => if q c then d else c) s).
Proof.
  intros Hd. induction 1 as [|c t Hc Ht IH]; simpl; constructor;
    [destruct (q c)|]; assumption.
Qed.

Lemma subst_all (q : cu -> bool) (d : cu) (s : jsstring) :
  q d = false ->
  Forall (fun c => q c = false) (List.map (fun c => if q c then d else c) s).
Proof.
  intro Hd. induction s as [|c t IH]; simpl; constructor; [|assumption].
  destruct (q c) eqn:Hc; assumption.
Qed.

Lemma normalize_tidy (x : jsstring) : tidy (Ref.normalize x).
Proof.
  unfold Ref.normalize. split.
  - apply Forall_strip_end, Forall_drop_while, Forall_collapse;
      [reflexivity|].
    apply Forall_subst; [reflexivity|].
    apply Forall_filter, Forall_drop_while, filter_all.
  - apply Forall_strip_end, Forall_drop_while, Forall_collapse;
      [reflexivity|].
    apply Forall_subst; [reflexivity|]. apply filter_all.
  - apply Forall_strip_end, Forall_drop_while, Forall_collapse;
      [reflexivity|].
    apply subst_all. reflexivity.
  - apply Forall_strip_end, Forall_drop_while, collapse_chars.
  - apply spaced_strip_end, spaced_drop_while, collapse_spaced.
  - apply strip_end_idem.
Qed.

(** The first code unit kept by the leading-glyph step stays first, unless
    it is one of U+200B..U+200D. *)
Lemma normalize_head (x : jsstring) :
  Forall (fun c => Ref.zero_width_mark c = false) x ->
  Ref.normalize x = []
  \/ exists h t, Ref.normalize x = h :: t
                 /\ CsvUtils.leading_glyph h = false.
Proof.
  intro Hx. unfold Ref.normalize.
  assert (H2 : Forall (fun c => Ref.zero_width_mark c = false)
                 (drop_while CsvUtils.leading_glyph
                    (filter (fun c => negb (CsvUtils.private_use c)) x)))
    by (apply Forall_drop_while, Forall_filter; assumption).
  assert (Hh : forall s, drop_while CsvUtils.leading_glyph s = []
               \/ exists h r, drop_while CsvUtils.leading_glyph s = h :: r
                              /\ CsvUtils.leading_glyph h = false).
  { induction s as [|c t IH]; simpl; [left; reflexivity|].
    destruct (CsvUtils.leading_glyph c) eqn:Hc; [exact IH|].
    right. eauto. }
  destruct (Hh (filter (fun c => negb (CsvUtils.private_use c)) x))
    as [E | (h & r & E & Hl)]; rewrite E in *.
  - left. reflexivity.
  - right. inversion H2 as [|? ? Hm _]; subst.
    assert (Hs : is_space h = false).
    { destruct (is_space h) eqn:Es; [|reflexivity].
      apply space_is_leading in Es. congruence. }
    assert (Hz : CsvUtils.zero_width h = false).
    { destruct (CsvUtils.zero_width h) eqn:Ez; [|reflexivity].
      destruct (zero_width_cases _ Ez); congruence. }
    assert (He : CsvUtils.exotic_space h = false).
    { destruct (CsvUtils.exotic_space h) eqn:Ee; [|reflexivity].
      apply exotic_is_space in Ee. congruence. }
    cbn [filter]. rewrite Hz. cbn [negb List.map]. rewrite He.
    rewrite collapse_head_out by assumption.
    cbn [drop_while]. rewrite Hs.
    match goal with
    | |- context [Ref.strip_end is_space (h :: ?u)] =>
        destruct (@strip_end_keeps_head is_space h u Hs) as [t' ->]
    end.
    eauto.
Qed.

Lemma tidy_fixed (y : jsstring) :
  tidy y ->
  (y = [] \/ exists h t, y = h :: t /\ CsvUtils.leading_glyph h = false) ->
  Ref.normalize y = y.
Proof.
  intros [Hp Hz He Hb Hs Hend] Hhead. unfold Ref.normalize.
  rewrite (filter_fixed _ Hp).
  assert (Hd : drop_while CsvUtils.leading_glyph y = y).
  { destruct Hhead as [-> | (h & t & -> & Hl)]; [reflexivity|].
    simpl. rewrite Hl. reflexivity. }
  rewrite Hd. rewrite (filter_fixed _ Hz).
  rewrite map_fixed.
  2:{ eapply Forall_impl; [|exact He]. intros c Hc. cbv beta.
      rewrite Hc. reflexivity. }
  rewrite collapse_fixed by assumption.
  assert (Hw : drop_while is_space y = y).
  { destruct Hhead as [-> | (h & t & -> & Hl)]; [reflexivity|].
    simpl. destruct (is_space h) eqn:Es; [|reflexivity].
    apply space_is_leading in Es. congruence. }
  rewrite Hw. exact Hend.
Qed.

Lemma normalize_idempotent (x : jsstring) :
  Forall (fun c => Ref.zero_width_mark c = false) x ->
  Ref.normalize (Ref.normalize x) = Ref.normalize x.
Proof.
  intro Hx. apply tidy_fixed; [apply normalize_tidy | apply normalize_head].
  assumption.
Qed.

Unset Implicit Arguments.

Lemma cleanText_chain (x : jsstring) :
  CsvUtils.cleanText x = CsvUtils.cleanChain x.
Proof. destruct x; reflexivity. Qed.

(** ** C5: the text normalizer *)

(** C5, as stated, fails: a zero-width code point of U+200B..U+200D in front
    of a leading hyphen survives the leading-glyph step, is removed by the
    next step, and leaves the hyphen to be stripped by a second pass. *)
Lemma cleanText_not_idempotent :
  let x := 0x200B%N :: js "-abc" in
  CsvUtils.cleanText x = js "-abc"
  /\ CsvUtils.cleanText (CsvUtils.cleanText x) = js "abc"
  /\ CsvUtils.cleanText (CsvUtils.cleanText x) <> CsvUtils.cleanText x
  /\ AddressExtractor.cleanAddressText (AddressExtractor.cleanAddressText x)
     <> AddressExtractor.cleanAddressText x.
Proof.
  vm_compute. repeat split; discriminate.
Qed.

(** C5 (amended): on every string that holds no code unit of
    U+200B..U+200D, [CsvUtils.cleanText] and
    [AddressExtractor.cleanAddressText] are idempotent. *)
Theorem cleanText_idempotent : forall x : jsstring,
  Forall (fun c => Ref.zero_width_mark c = false) x ->
  CsvUtils.cleanText (CsvUtils.cleanText x) = CsvUtils.cleanText x
  /\ AddressExtractor.cleanAddressText (AddressExtractor.cleanAddressText x)
     = AddressExtractor.cleanAddressText x.
Proof.
  intros x Hx. unfold AddressExtractor.cleanAddressText.
  rewrite !cleanText_chain, !cleanChain_normalize.
  split; apply normalize_idempotent; assumption.
Qed.

Lemma cleanText_idempotent_witness :
  let x := js " - 12  Main St " ++ [0xE0C8%N; 0x3000%N; 0xFEFF%N] in
  CsvUtils.cleanText (CsvUtils.cleanText x) = CsvUtils.cleanText x
  /\ AddressExtractor.cleanAddressText (AddressExtractor.cleanAddressText x)
     = AddressExtractor.cleanAddressText x.
Proof.
  apply (cleanText_idempotent
           (js " - 12  Main St " ++ [0xE0C8%N; 0x3000%N; 0xFEFF%N])).
  vm_compute. repeat constructor.
Defined.

(** ** The validators: blank input and the class of city names *)

Lemma forallb_drop_while (p : cu -> bool) (s : jsstring) :
  forallb p (drop_while p s) = true -> forallb p s = true.
Proof.
  induction s as [|c t IH]; simpl; [reflexivity|].
  destruct (p c) eqn:Hc; simpl; [exact IH|].
  rewrite Hc. discriminate.
Qed.

Lemma strip_end_nil (p : cu -> bool) (s : jsstring) :
  Ref.strip_end p s = [] -> forallb p s = true.
Proof.
  induction s as [|c t IH]; simpl; [reflexivity|].
  destruct (Ref.strip_end p t); [|discriminate].
  destruct (p c); [intros _; simpl; apply IH; reflexivity | discriminate].
Qed.

Lemma trim_nil (s : jsstring) : trim s = [] -> forallb is_space s = true.
Proof.
  rewrite trim_strip. intro H.
  apply forallb_drop_while, strip_end_nil. assumption.
Qed.

Lemma digit_not_space (c : cu) : is_digit c = true -> is_space c = false.
Proof.
  unfold is_digit, is_space, in_range. intro H.
  apply not_true_iff_false. intro H'.
  rewrite ?orb_true_iff, ?andb_true_iff, ?N.eqb_eq, ?N.leb_le in *. lia.
Qed.

Lemma blank_has_no_digit (s : jsstring) :
  forallb is_space s = true -> existsb is_digit s = false.
Proof.
  induction s as [|c t IH]; simpl; [reflexivity|].
  intro H. apply andb_true_iff in H. destruct H as [Hc Ht].
  rewrite (IH Ht), orb_false_r.
  destruct (is_digit c) eqn:Hd; [|reflexivity].
  apply digit_not_space in Hd. congruence.
Qed.

Lemma existsb_none {A} (f : A -> bool) (l : list A) :
  existsb f l = false <-> (forall x, In x l -> f x = false).
Proof.
  induction l as [|a l IH]; simpl.
  - split; [intros _ x [] | reflexivity].
  - rewrite orb_false_iff, IH. split.
    + intros [Ha Hl] x [<- | Hx]; auto.
    + intro H. split; [apply H; auto | intros x Hx; apply H; auto].
Qed.


(** ** The address parser: a state and a zip code after a name *)



Lemma find_skip (r : regex) (prev : option cu) (c : cu) (s : jsstring) :
  match_at r prev (c :: s) = None ->
  find r prev (c :: s)
  = match find r (Some c) s with
    | Some (pre, mid, post) => Some (c :: pre, mid, post)
    | None => None
    end.
Proof. intro H. cbn [find]. rewrite H. reflexivity. Qed.


(** ** C10: the clean and the detailed output *)

Lemma eqb_eq (a b : jsstring) : eqb a b = true <-> a = b.
Proof.
  revert b. induction a as [|x a IH]; intros [|y b]; simpl;
    try (split; [discriminate | intro H; discriminate H]);
    [split; reflexivity|].
  rewrite andb_true_iff, N.eqb_eq, IH.
  split; [intros [-> ->]; reflexivity | intro H; injection H; auto].
Qed.

(** C10, as stated, fails: a field that is not the sentinel but is
    normalized to it is written as "Error" to the clean output.  Such a
    field comes out of [parseAddress] for a page text that starts with
    U+200B and a hyphen. *)
Lemma writeResults_may_write_Error :
  let raw := 0x200B%N :: js "-Error, 12 Main St" in
  let parsed := AddressExtractor.parseAddress raw in
  let results :=
    [ {| CsvUtils.zipcode := js "10001"; CsvUtils.state := js "NY";
         CsvUtils.addressline := AddressExtractor.addressline parsed;
         CsvUtils.city := AddressExtractor.city parsed;
         CsvUtils.valid := false; CsvUtils.error := None |} ] in
  AddressExtractor.addressline parsed = js "-Error"
  /\ List.map CsvUtils.c_addressline (CsvUtils.writeResults results)
     = [js "Error"].
Proof. vm_compute. split; reflexivity. Qed.

Lemma In_map_inv {A B} (f : A -> B) (l : list A) (y : B) :
  In y (List.map f l) -> exists x, In x l /\ y = f x.
Proof.
  intro H. apply in_map_iff in H. destruct H as (x & <- & Hx). eauto.
Qed.

(** C10 (amended): every row of the clean output comes from a result, in
    order; a field equal to "Error" is written as "Not Found", any other
    field as its [cleanText]; so no field that [cleanText] leaves unchanged
    is written as "Error".  Every row of the detailed output holds the
    [cleanText] of both fields, and a field equal to "Error" stays
    "Error". *)
Theorem writeResults_sentinel :
  forall results : list CsvUtils.AddressResult,
    List.map CsvUtils.c_zipcode (CsvUtils.writeResults results)
    = List.map CsvUtils.zipcode results
    /\ List.map CsvUtils.c_state (CsvUtils.writeResults results)
       = List.map CsvUtils.state results
    /\ List.map CsvUtils.c_addressline (CsvUtils.writeResults results)
       = List.map (fun r =>
                     if eqb (CsvUtils.addressline r) (js "Error")
                     then js "Not Found"
                     else CsvUtils.cleanText (CsvUtils.addressline r))
                  results
    /\ List.map CsvUtils.c_city (CsvUtils.writeResults results)
       = List.map (fun r =>
                     if eqb (CsvUtils.city r) (js "Error")
                     then js "Not Found"
                     else CsvUtils.cleanText (CsvUtils.city r))
                  results
    /\ (forall row, In row (CsvUtils.writeResults results) ->
        exists r, In r results
          /\ (CsvUtils.cleanText (CsvUtils.addressline r)
              = CsvUtils.addressline r ->
              CsvUtils.c_addressline row <> js "Error")
          /\ (CsvUtils.cleanText (CsvUtils.city r) = CsvUtils.city r ->
              CsvUtils.c_city row <> js "Error"))
    /\ List.map CsvUtils.addressline (CsvUtils.writeDetailedResults results)
       = List.map (fun r => CsvUtils.cleanText (CsvUtils.addressline r))
                  results
    /\ List.map CsvUtils.city (CsvUtils.writeDetailedResults results)
       = List.map (fun r => CsvUtils.cleanText (CsvUtils.city r)) results
    /\ (forall d, In d (CsvUtils.writeDetailedResults results) ->
        exists r, In r results
          /\ (CsvUtils.addressline r = js "Error" ->
              CsvUtils.addressline d = js "Error")
          /\ (CsvUtils.city r = js "Error" ->
              CsvUtils.city d = js "Error")).
Proof.
  intro results.
  assert (F : forall x,
             CsvUtils.cleanText (if eqb x (js "Error")
                                 then js "Not Found" else x)
             = if eqb x (js "Error") then js "Not Found"
               else CsvUtils.cleanText x).
  { intro x. destruct (eqb x (js "Error")); [vm_compute|]; reflexivity. }
  assert (G : forall x,
             CsvUtils.cleanText x = x ->
             CsvUtils.cleanText (if eqb x (js "Error")
                                 then js "Not Found" else x)
             <> js "Error").
  { intros x Hx. rewrite F. destruct (eqb x (js "Error")) eqn:E.
    - discriminate.
    - rewrite Hx. intro H. apply eqb_eq in H. congruence. }
  unfold CsvUtils.writeResults, CsvUtils.writeDetailedResults.
  rewrite !map_map. cbn [CsvUtils.c_zipcode CsvUtils.c_state
    CsvUtils.c_addressline CsvUtils.c_city CsvUtils.addressline
    CsvUtils.city].
  repeat split; try reflexivity.
  - apply map_ext. intro r. apply F.
  - apply map_ext. intro r. apply F.
  - intros row H. apply In_map_inv in H. destruct H as (r & Hr & ->).
    exists r. cbn. split; [assumption|]. split; apply G.
  - intros d H. apply In_map_inv in H. destruct H as (r & Hr & ->).
    exists r. cbn. split; [assumption|].
    split; intros ->; vm_compute; reflexivity.
Qed.

Lemma writeResults_sentinel_witness :
  let failed :=
    {| CsvUtils.zipcode := js "10001"; CsvUtils.state := js "NY";
       CsvUtils.addressline := js "Error"; CsvUtils.city := js "Error";
       CsvUtils.valid := false; CsvUtils.error := Some (js "Timeout") |} in
  List.map CsvUtils.c_addressline (CsvUtils.writeResults [failed])
  = [js "Not Found"]
  /\ List.map CsvUtils.addressline (CsvUtils.writeDetailedResults [failed])
     = [js "Error"].
Proof.
  intro failed.
  destruct (writeResults_sentinel [failed])
    as (_ & _ & Ha & _ & _ & Hd & _).
  rewrite Ha, Hd. vm_compute. split; reflexivity.
Defined.

(** ** C6: the retry wrapper *)

Section Retry.

Import ParallelProcessor.

Variable extract : extractor.
Variable retries : nat.
Variables zip st : jsstring.

Lemma retryLoop_all_reject (left : nat) :
  forall lastError made waited,
    (forall n, made < n <= made + left -> exists t, extract n = Rejects t) ->
    let r := retryLoop extract retries zip st left lastError made waited in
    calls r = made + left
    /\ result r
       = {| CsvUtils.zipcode := zip; CsvUtils.state := st;
            CsvUtils.addressline := js "Error"; CsvUtils.city := js "Error";
            CsvUtils.valid := false;
            CsvUtils.error :=
              Some (final_message
                      match left with
                      | O => lastError
                      | S _ =>
                          match extract (made + left) with
                          | Rejects t => Some (as_error t)
                          | Resolves _ => lastError
                          end
                      end) |}.
Proof.
  induction left as [|left IH]; intros lastError made waited H.
  - simpl. split; [lia | reflexivity].
  - cbn [retryLoop].
    destruct (H (S made)) as [t Ht]; [lia|]. rewrite Ht.
    match goal with
    | |- context [retryLoop _ _ _ _ left ?e (S made) ?w] =>
        destruct (IH e (S made) w) as [Hc Hr]
    end.
    { intros n Hn. apply H. lia. }
    split; [rewrite Hc; lia|]. rewrite Hr.
    destruct left as [|left'].
    + replace (made + 1) with (S made) by lia. rewrite Ht. reflexivity.
    + replace (made + S (S left')) with (S made + S left') by lia.
      destruct (H (S made + S left')) as [t' Ht']; [lia|].
      rewrite Ht'. reflexivity.
Qed.

Lemma retryLoop_accepts (left : nat) :
  forall lastError made waited n r,
    made + left = retries ->
    made < n <= retries ->
    (forall j, made < j < n -> retryable (extract j) = true) ->
    extract n = Resolves r -> accepted r = true ->
    let out := retryLoop extract retries zip st left lastError made waited in
    result out = r /\ calls out = n.
Proof.
  induction left as [|left IH]; intros lastError made waited n r
    Hsum Hn Hpre Hex Hacc; [lia|].
  cbn [retryLoop].
  assert (Hatt : retries - left = S made) by lia.
  destruct (Nat.eq_dec n (S made)) as [-> | Hne].
  - rewrite Hex. unfold accepted in Hacc. rewrite Hacc. split; reflexivity.
  - assert (Hr : retryable (extract (S made)) = true) by (apply Hpre; lia).
    destruct (extract (S made)) as [r' | t] eqn:E.
    + unfold retryable in Hr. apply andb_true_iff in Hr.
      destruct Hr as [Hna Herr]. apply negb_true_iff in Hna.
      rewrite Hna, Herr, Hatt.
      replace (Nat.ltb (S made) retries) with true
        by (symmetry; apply Nat.ltb_lt; lia).
      cbn [andb]. apply IH; try assumption; try lia.
      intros j Hj. apply Hpre. lia.
    + apply IH; try assumption; try lia.
      intros j Hj. apply Hpre. lia.
Qed.

Lemma retryLoop_all_retryable (left : nat) :
  forall lastError made waited,
    made + left = retries ->
    (forall n, made < n <= retries -> retryable (extract n) = true) ->
    let out := retryLoop extract retries zip st left lastError made waited in
    calls out = retries
    /\ result out
       = match left with
         | O => errorOutcome zip st (final_message lastError)
         | S _ =>
             match extract retries with
             | Resolves r => r
             | Rejects t => errorOutcome zip st (final_message (Some (as_error t)))
             end
         end.
Proof.
  induction left as [|left IH]; intros lastError made waited Hsum H.
  - simpl. split; [lia | reflexivity].
  - cbn [retryLoop].
    assert (Hatt : retries - left = S made) by lia.
    pose proof (H (S made) ltac:(lia)) as Hr.
    destruct (extract (S made)) as [r | t] eqn:E.
    + unfold retryable in Hr. apply andb_true_iff in Hr.
      destruct Hr as [Hna Herr]. apply negb_true_iff in Hna.
      rewrite Hna, Herr, Hatt, andb_true_r.
      destruct left as [|left'].
      * replace (Nat.ltb (S made) retries) with false
          by (symmetry; apply Nat.ltb_ge; lia).
        replace retries with (S made) by lia. rewrite E.
        split; reflexivity.
      * replace (Nat.ltb (S made) retries) with true
          by (symmetry; apply Nat.ltb_lt; lia).
        apply (IH lastError (S made)); [lia|].
        intros n Hn. apply H. lia.
    + destruct (IH (Some (as_error t)) (S made)
                  (if Nat.ltb (retries - left) retries
                   then waited ++ [2000 * (retries - left)] else waited))
        as [Hc Hres]; [lia | intros n Hn; apply H; lia |].
      split; [exact Hc|]. rewrite Hres.
      destruct left as [|left']; [|reflexivity].
      replace retries with (S made) by lia. rewrite E. reflexivity.
Qed.

End Retry.

(** C6, as stated, fails where the last fault has no message to carry: an
    [Error] with an empty message, or a thrown value that is not an [Error],
    is replaced by a default text, as is the missing fault when [retries]
    is 0. *)
Lemma processWithRetry_default_message :
  let empty := fun _ : nat =>
    ParallelProcessor.Rejects (ParallelProcessor.ErrorObj []) in
  let other := fun _ : nat =>
    ParallelProcessor.Rejects ParallelProcessor.OtherValue in
  CsvUtils.error
    (ParallelProcessor.result
       (ParallelProcessor.processWithRetry empty 2 (js "10001") (js "NY")))
  = Some (js "Max retries exceeded")
  /\ CsvUtils.error
       (ParallelProcessor.result
          (ParallelProcessor.processWithRetry empty 2 (js "10001") (js "NY")))
     <> Some []
  /\ CsvUtils.error
       (ParallelProcessor.result
          (ParallelProcessor.processWithRetry other 2 (js "10001") (js "NY")))
     = Some (js "Unknown error")
  /\ CsvUtils.error
       (ParallelProcessor.result
          (ParallelProcessor.processWithRetry other 0 (js "10001") (js "NY")))
     = Some (js "Max retries exceeded").
Proof. vm_compute. repeat split; first [reflexivity | discriminate]. Qed.

(** C6 (amended): when every one of the [retries] attempts rejects,
    [processWithRetry] makes exactly [retries] calls and returns the "Error"
    outcome of the unit, whose error text is the message of the last thrown
    [Error] when that message is not empty, "Unknown error" when the last
    thrown value is not an [Error], and "Max retries exceeded" when the
    message is empty or no attempt was made.  More generally, when every
    attempt is retryable (it rejects, or resolves to a result that is
    neither valid nor "Not Found" and has an error text), exactly [retries]
    calls are made and the last attempt decides: its result if it resolved,
    the "Error" outcome with its message if it rejected.  A result that is
    valid or has "Not Found" as its address line, reached after retryable
    attempts only, is returned by the call that produced it. *)
Theorem processWithRetry_outcome :
  forall (extract : ParallelProcessor.extractor) (retries : nat)
         (zip st : jsstring),
    ((forall n, 0 < n <= retries ->
                exists t, extract n = ParallelProcessor.Rejects t) ->
     ParallelProcessor.calls
       (ParallelProcessor.processWithRetry extract retries zip st) = retries
     /\ ParallelProcessor.result
          (ParallelProcessor.processWithRetry extract retries zip st)
        = {| CsvUtils.zipcode := zip; CsvUtils.state := st;
             CsvUtils.addressline := js "Error";
             CsvUtils.city := js "Error";
             CsvUtils.valid := false;
             CsvUtils.error :=
               Some match retries with
                    | O => js "Max retries exceeded"
                    | S _ =>
                        match extract retries with
                        | ParallelProcessor.Rejects
                            (ParallelProcessor.ErrorObj (c :: message)) =>
                            c :: message
                        | ParallelProcessor.Rejects
                            ParallelProcessor.OtherValue =>
                            js "Unknown error"
                        | _ => js "Max retries exceeded"
                        end
                    end |})
    /\ ((forall n, 0 < n <= retries -> retryable (extract n) = true) ->
        0 < retries ->
        ParallelProcessor.calls
          (ParallelProcessor.processWithRetry extract retries zip st)
        = retries
        /\ ParallelProcessor.result
             (ParallelProcessor.processWithRetry extract retries zip st)
           = match extract retries with
             | ParallelProcessor.Resolves r => r
             | ParallelProcessor.Rejects t =>
                 errorOutcome zip st
                   (ParallelProcessor.final_message
                      (Some (ParallelProcessor.as_error t)))
             end)
    /\ (forall n r,
           0 < n <= retries ->
           (forall j, 0 < j < n -> retryable (extract j) = true) ->
           extract n = ParallelProcessor.Resolves r ->
           CsvUtils.valid r = true
           \/ CsvUtils.addressline r = js "Not Found" ->
           ParallelProcessor.result
             (ParallelProcessor.processWithRetry extract retries zip st) = r
           /\ ParallelProcessor.calls
                (ParallelProcessor.processWithRetry extract retries zip st)
              = n).
Proof.
  intros extract retries zip st. split; [|split].
  - intro H. unfold ParallelProcessor.processWithRetry.
    destruct (retryLoop_all_reject extract retries zip st retries None 0 [])
      as [Hc Hr].
    { intros n Hn. apply H. lia. }
    split; [exact Hc|]. rewrite Hr. cbn [Nat.add].
    destruct retries as [|k]; [reflexivity|].
    destruct (H (S k)) as [t Ht]; [lia|]. rewrite Ht.
    destruct t as [[|c message]|]; reflexivity.
  - intros H Hpos. unfold ParallelProcessor.processWithRetry.
    destruct (retryLoop_all_retryable extract retries zip st retries None 0
                [] ltac:(lia)) as [Hc Hr].
    { intros n Hn. apply H. lia. }
    split; [exact Hc|]. rewrite Hr.
    destruct retries; [lia | reflexivity].
  - intros n r Hn Hpre Hex Hacc.
    apply (retryLoop_accepts extract retries zip st retries None 0 [] n r);
      try assumption; try lia.
    unfold accepted. destruct Hacc as [-> | ->]; [reflexivity|].
    apply orb_true_r.
Qed.

Lemma processWithRetry_outcome_witness :
  let timeout := js "Timeout 45000ms exceeded" in
  let extract := fun _ : nat =>
    ParallelProcessor.Rejects (ParallelProcessor.ErrorObj timeout) in
  ParallelProcessor.calls
    (ParallelProcessor.processWithRetry extract 2 (js "10001") (js "NY")) = 2
  /\ CsvUtils.error
       (ParallelProcessor.result
          (ParallelProcessor.processWithRetry extract 2 (js "10001")
             (js "NY")))
     = Some timeout.
Proof.
  intros timeout extract.
  destruct (proj1 (processWithRetry_outcome extract 2 (js "10001") (js "NY")))
    as [Hc Hr].
  - intros n _. exists (ParallelProcessor.ErrorObj timeout). reflexivity.
  - split; [exact Hc|]. rewrite Hr. reflexivity.
Defined.

(** ** C1: faults while searching *)

Lemma scanResults_returns (zipcode state : jsstring)
    (searchResults : list Script.entry) :
  exists hit, Script.scanResults zipcode state searchResults
              = Script.Returned hit.
Proof.
  induction searchResults as [|e rest IH]; [eexists; reflexivity|].
  cbn [Script.scanResults].
  destruct e as [[[|c a]|]|msg]; cbn; try exact IH.
  destruct (Script.checkAddress zipcode state (c :: a)); [eauto | exact IH].
Qed.















(** ** C2 and C4: shard selection *)

Lemma ceil_div_bounds (n k : Z) :
  (0 <= n)%Z -> (1 <= k)%Z ->
  (0 <= Script.ceil_div n k
   /\ n <= k * Script.ceil_div n k < n + k)%Z.
Proof.
  intros Hn Hk. unfold Script.ceil_div.
  pose proof (Z.div_mod (- n) k ltac:(lia)) as E.
  pose proof (Z.mod_pos_bound (- n) k ltac:(lia)) as B.
  nia.
Qed.

Lemma slice_nonneg {A} (l : list A) (s e : Z) :
  (0 <= s)%Z -> (0 <= e)%Z ->
  slice l s e = firstn (Z.to_nat e - Z.to_nat s) (skipn (Z.to_nat s) l).
Proof.
  intros Hs He. unfold slice.
  replace (s <? 0)%Z with false by (symmetry; apply Z.ltb_ge; lia).
  replace (e <? 0)%Z with false by (symmetry; apply Z.ltb_ge; lia).
  set (n := List.length l).
  destruct (Z_le_gt_dec s (Z.of_nat n)) as [Hsn | Hsn].
  - rewrite (Z.min_l s) by lia.
    destruct (Z_le_gt_dec e (Z.of_nat n)) as [Hen | Hen].
    + rewrite (Z.min_l e) by lia. f_equal. lia.
    + rewrite (Z.min_r e) by lia.
      rewrite !firstn_all2; [reflexivity | |]; rewrite length_skipn;
        fold n; lia.
  - rewrite (Z.min_r s) by lia.
    rewrite !(skipn_all2 l) by (fold n; lia).
    rewrite !firstn_nil. reflexivity.
Qed.

Lemma slice_length {A} (l : list A) (s e : Z) :
  ((0 <= s)%Z -> (0 <= e)%Z) ->
  List.length (slice l s e) <= Z.to_nat (e - s).
Proof.
  intro H. unfold slice. rewrite length_firstn, length_skipn.
  destruct (s <? 0)%Z eqn:Es; destruct (e <? 0)%Z eqn:Ee;
    try apply Z.ltb_lt in Es; try apply Z.ltb_ge in Es;
    try apply Z.ltb_lt in Ee; try apply Z.ltb_ge in Ee; lia.
Qed.

Lemma firstn_chunk {A} (a b : nat) (l : list A) :
  firstn a l ++ firstn b (skipn a l) = firstn (a + b) l.
Proof.
  revert l. induction a as [|a IH]; intro l; [reflexivity|].
  destruct l as [|x l]; simpl.
  - rewrite firstn_nil. reflexivity.
  - rewrite IH. reflexivity.
Qed.

Lemma concat_chunks {A} (r : nat) (l : list A) (k : nat) :
  concat (List.map (fun i => firstn r (skipn (i * r) l)) (seq 0 k))
  = firstn (k * r) l.
Proof.
  induction k as [|k IH]; [reflexivity|].
  rewrite seq_S, map_app, concat_app, IH. cbn [List.map concat Nat.add].
  rewrite app_nil_r, firstn_chunk. f_equal. lia.
Qed.

Lemma shardRange_chunk {A} (l : list A) (t : Script.target)
    (k maxPerShard : Z) (i : nat) :
  (1 <= k)%Z -> i < Z.to_nat k ->
  Script.shardRange (shardConfig t k maxPerShard i) l
  = firstn (Z.to_nat (Script.ceil_div (Z.of_nat (List.length l)) k))
      (skipn (i * Z.to_nat (Script.ceil_div (Z.of_nat (List.length l)) k))
         l).
Proof.
  intros Hk Hi. unfold Script.shardRange, Script.shardBounds. cbn.
  destruct (ceil_div_bounds (Z.of_nat (List.length l)) k) as [Hp Hb];
    [lia | assumption |].
  set (n := List.length l) in *.
  set (per := Script.ceil_div (Z.of_nat n) k) in *.
  destruct (k >? 1)%Z eqn:Ek.
  - rewrite slice_nonneg by nia.
    replace (Z.to_nat (Z.of_nat i * per)) with (i * Z.to_nat per) by nia.
    destruct (Z_le_gt_dec (Z.of_nat i * per + per) (Z.of_nat n)) as [H | H].
    + rewrite Z.min_l by lia. f_equal. nia.
    + rewrite Z.min_r by lia.
      rewrite !firstn_all2; [reflexivity | |]; rewrite length_skipn;
        fold n; nia.
  - assert (k = 1%Z) by lia. subst k.
    assert (i = 0) by lia. subst i.
    assert (per = Z.of_nat n) by lia.
    cbn [Nat.mul skipn]. rewrite firstn_all2; [reflexivity|].
    fold n. lia.
Qed.

Lemma applySharding_length {A} (cfg : Script.config) (l : list A) :
  (1 < Script.TOTAL_SHARDS cfg)%Z ->
  (0 <= Script.MAX_RECORDS_PER_SHARD cfg)%Z ->
  (Z.of_nat (List.length (Script.applySharding cfg l))
   <= Script.MAX_RECORDS_PER_SHARD cfg)%Z.
Proof.
  intros Hk Hm. unfold Script.applySharding, Script.shardBounds.
  replace (Script.TOTAL_SHARDS cfg >? 1)%Z with true
    by (symmetry; apply Z.gtb_lt; lia).
  destruct (ceil_div_bounds (Z.of_nat (List.length l))
              (Script.TOTAL_SHARDS cfg)) as [Hp _]; [lia | lia |].
  match goal with
  | |- context [slice l ?s ?e] => pose proof (slice_length l s e) as H
  end.
  lia.
Qed.

Lemma applySharding_prefix {A} (cfg : Script.config) (l : list A) :
  (1 < Script.TOTAL_SHARDS cfg)%Z ->
  (0 <= Script.MAX_RECORDS_PER_SHARD cfg)%Z ->
  (0 <= Script.SHARD_INDEX cfg)%Z ->
  Script.applySharding cfg l
  = firstn (Z.to_nat (Script.MAX_RECORDS_PER_SHARD cfg))
      (Script.shardRange cfg l).
Proof.
  intros Hk Hm Hi.
  unfold Script.applySharding, Script.shardRange, Script.shardBounds.
  replace (Script.TOTAL_SHARDS cfg >? 1)%Z with true
    by (symmetry; apply Z.gtb_lt; lia).
  destruct (ceil_div_bounds (Z.of_nat (List.length l))
              (Script.TOTAL_SHARDS cfg)) as [Hp _]; [lia | lia |].
  set (per := Script.ceil_div _ _) in *.
  set (s := (Script.SHARD_INDEX cfg * per)%Z).
  assert (Hs : (0 <= s)%Z) by (unfold s; nia).
  rewrite !slice_nonneg by lia.
  rewrite firstn_firstn. f_equal. lia.
Qed.

(** C2, as stated, fails in its size clause: of the four ranges over five
    pending rows, the third holds one row and the fourth none, while
    ceil(5/4) is 2. *)
Lemma shard_sizes_not_uniform :
  let rows := [1; 2; 3; 4; 5] in
  let cfg := shardConfig (inl (js "ALL")) 4 1000 in
  List.map (fun i => Script.shardRange (cfg i) rows) [0; 1; 2; 3]
  = [[1; 2]; [3; 4]; [5]; []]
  /\ Script.ceil_div 5 4 = 2%Z
  /\ List.length (Script.shardRange (cfg 2) rows) <> 2.
Proof. vm_compute. repeat split; first [reflexivity | discriminate]. Qed.

(** C2 (amended): for [k >= 1] shards over [n] pending rows, the ranges of
    the shards 0..k-1 before the cap, put one after the other in shard
    order, are the list of pending rows; shard [i] holds the rows from
    position [i * ceil(n/k)] on, at most [ceil(n/k)] of them, and exactly
    that many when [(i+1) * ceil(n/k) <= n] (the ranges after that one hold
    what is left, possibly nothing).  Where the cap is at least [ceil(n/k)]
    the selection of [readZipCodesFromCSV] is that range. *)
Theorem shard_ranges_partition :
  forall (A : Type) (l : list A) (t : Script.target) (k maxPerShard : Z),
    (1 <= k)%Z ->
    concat (List.map
              (fun i => Script.shardRange (shardConfig t k maxPerShard i) l)
              (seq 0 (Z.to_nat k))) = l
    /\ (forall i, i < Z.to_nat k ->
          Script.shardRange (shardConfig t k maxPerShard i) l
          = firstn (Z.to_nat (Script.ceil_div (Z.of_nat (List.length l)) k))
              (skipn
                 (i * Z.to_nat
                        (Script.ceil_div (Z.of_nat (List.length l)) k))
                 l))
    /\ (forall i, i < Z.to_nat k ->
          (Z.of_nat (List.length
                       (Script.shardRange (shardConfig t k maxPerShard i) l))
           <= Script.ceil_div (Z.of_nat (List.length l)) k)%Z)
    /\ (forall i, i < Z.to_nat k ->
          ((Z.of_nat i + 1) * Script.ceil_div (Z.of_nat (List.length l)) k
           <= Z.of_nat (List.length l))%Z ->
          Z.of_nat (List.length
                      (Script.shardRange (shardConfig t k maxPerShard i) l))
          = Script.ceil_div (Z.of_nat (List.length l)) k)
    /\ (Z.of_nat (List.length l)
        <= k * Script.ceil_div (Z.of_nat (List.length l)) k
        < Z.of_nat (List.length l) + k)%Z
    /\ (forall i, i < Z.to_nat k ->
          (Script.ceil_div (Z.of_nat (List.length l)) k <= maxPerShard)%Z ->
          Script.applySharding (shardConfig t k maxPerShard i) l
          = Script.shardRange (shardConfig t k maxPerShard i) l).
Proof.
  intros A l t k maxPerShard Hk.
  destruct (ceil_div_bounds (Z.of_nat (List.length l)) k) as [Hp Hb];
    [lia | assumption |].
  split; [|split; [|split; [|split; [|split]]]].
  - rewrite (map_ext_in _
      (fun i => firstn (Z.to_nat (Script.ceil_div
                                     (Z.of_nat (List.length l)) k))
                  (skipn (i * Z.to_nat
                                (Script.ceil_div
                                   (Z.of_nat (List.length l)) k)) l))).
    + rewrite concat_chunks. apply firstn_all2. nia.
    + intros i Hi. apply in_seq in Hi.
      apply shardRange_chunk; [assumption | lia].
  - intros i Hi. apply shardRange_chunk; assumption.
  - intros i Hi. rewrite shardRange_chunk by assumption.
    rewrite length_firstn. lia.
  - intros i Hi Hfull. rewrite shardRange_chunk by assumption.
    rewrite length_firstn, length_skipn. nia.
  - exact Hb.
  - intros i Hi Hmax.
    destruct (Z_le_gt_dec k 1) as [H1 | H1].
    + unfold Script.applySharding, Script.shardRange. cbn.
      rewrite Z.gtb_ltb.
      replace (1 <? k)%Z with false by (symmetry; apply Z.ltb_ge; lia).
      reflexivity.
    + rewrite applySharding_prefix by (cbn; lia).
      apply firstn_all2. rewrite shardRange_chunk by assumption.
      rewrite length_firstn. cbn. lia.
Qed.

Lemma shard_ranges_partition_witness :
  concat (List.map
            (fun i => Script.shardRange
                        (shardConfig (inl (js "ALL")) 4 1000 i)
                        [1; 2; 3; 4; 5])
            (seq 0 (Z.to_nat 4))) = [1; 2; 3; 4; 5].
Proof.
  apply (proj1 (shard_ranges_partition nat [1; 2; 3; 4; 5]
                  (inl (js "ALL")) 4 1000 ltac:(lia))).
Defined.

(** C4, as stated, fails for a single shard: the cap is applied only when
    [TOTAL_SHARDS > 1], so with one shard and a cap of 1 both pending rows
    are selected. *)
Lemma single_shard_is_not_capped :
  let table := js "zipcode,state,address,city" ++ [Script.newline]
               ++ js "10001,NY,," ++ [Script.newline] ++ js "10002,NY,," in
  let fs : Script.files := fun _ => Some table in
  let cfg := {| Script.TARGET_STATE := inl (js "ALL");
                Script.SHARD_INDEX := 0; Script.TOTAL_SHARDS := 1;
                Script.MAX_RECORDS_PER_SHARD := 1 |} in
  Script.readZipCodesFromCSV cfg fs
  = Script.Returned
      [ {| Script.unit_zipcode := js "10001"; Script.unit_state := js "NY" |};
        {| Script.unit_zipcode := js "10002"; Script.unit_state := js "NY" |} ].
Proof. vm_compute. reflexivity. Qed.

(** C4 (amended): with [TOTAL_SHARDS >= 2] and a cap [MAX_RECORDS_PER_SHARD
    >= 0], [readZipCodesFromCSV] returns at most that many work units for
    every master table and every shard index (it throws only on a table
    without a non-blank line), and for a shard index [>= 0] they are the
    first entries of the shard's range; with [TOTAL_SHARDS <= 1] no cap is
    applied and every pending row is selected.  The work units are the
    keys of the selected pending rows, in order. *)
Theorem selectWorkUnits_cap :
  forall cfg : Script.config,
    ((1 < Script.TOTAL_SHARDS cfg)%Z ->
     (0 <= Script.MAX_RECORDS_PER_SHARD cfg)%Z ->
     (forall fs : Script.files,
         match Script.readZipCodesFromCSV cfg fs with
         | Script.Returned units =>
             (Z.of_nat (List.length units)
              <= Script.MAX_RECORDS_PER_SHARD cfg)%Z
         | Script.Threw _ =>
             exists content,
               fs Script.MainTable = Some content
               /\ filter (fun line => negb (Script.is_blank_string line))
                         (split Script.newline content) = []
         end)
     /\ (forall (A : Type) (l : list A),
            (0 <= Script.SHARD_INDEX cfg)%Z ->
            Script.applySharding cfg l
            = firstn (Z.to_nat (Script.MAX_RECORDS_PER_SHARD cfg))
                (Script.shardRange cfg l)))
    /\ ((Script.TOTAL_SHARDS cfg <= 1)%Z ->
        forall (A : Type) (l : list A), Script.applySharding cfg l = l)
    /\ (forall (fs : Script.files) content pending,
           fs Script.MainTable = Some content ->
           Script.pendingRecords cfg content
           = Script.Returned (Some pending) ->
           Script.readZipCodesFromCSV cfg fs
           = Script.Returned
               (List.map Script.toWorkUnit
                  (Script.applySharding cfg pending))).
Proof.
  intro cfg. split; [|split].
  - intros Hk Hm. split.
    + intro fs. unfold Script.readZipCodesFromCSV.
      destruct (fs Script.MainTable) as [content|] eqn:Efs; [|simpl; lia].
      unfold Script.pendingRecords.
      destruct (filter _ (split Script.newline content)) as [|hd tl] eqn:El.
      * exists content. auto.
      * destruct (index_of (js "address") _); [|simpl; lia].
        destruct (index_of (js "city") _); [|simpl; lia].
        rewrite length_map. apply applySharding_length; assumption.
    + intros A l Hi. apply applySharding_prefix; assumption.
  - intros Hk A l. unfold Script.applySharding.
    rewrite Z.gtb_ltb.
    replace (1 <? Script.TOTAL_SHARDS cfg)%Z with false; [reflexivity|].
    symmetry. apply Z.ltb_ge. lia.
  - intros fs content pending Hfs Hp. unfold Script.readZipCodesFromCSV.
    rewrite Hfs, Hp. reflexivity.
Qed.

Lemma selectWorkUnits_cap_witness :
  let table := js "zipcode,state,address,city" ++ [Script.newline]
               ++ js "10001,NY,," ++ [Script.newline] ++ js "10002,NY,," in
  let fs : Script.files := fun _ => Some table in
  let cfg := {| Script.TARGET_STATE := inl (js "ALL");
                Script.SHARD_INDEX := 0; Script.TOTAL_SHARDS := 2;
                Script.MAX_RECORDS_PER_SHARD := 1 |} in
  match Script.readZipCodesFromCSV cfg fs with
  | Script.Returned units => (Z.of_nat (List.length units) <= 1)%Z
  | Script.Threw _ =>
      exists content,
        fs Script.MainTable = Some content
        /\ filter (fun line => negb (Script.is_blank_string line))
                  (split Script.newline content) = []
  end.
Proof.
  intros table fs cfg.
  apply (proj1 (proj1 (selectWorkUnits_cap cfg) ltac:(cbn; lia)
                  ltac:(cbn; lia)) fs).
Defined.

(** ** C3: the update of one row *)

Lemma findRow_step (zipcode state line : jsstring) (i : nat)
    (rest : list jsstring) :
  Script.findRow zipcode state i (line :: rest)
  = if rowMatches zipcode state line then Some i
    else Script.findRow zipcode state (S i) rest.
Proof.
  cbn [Script.findRow]. unfold rowMatches.
  destruct (Script.is_blank_string line); [reflexivity|].
  cbn [negb andb].
  destruct (Nat.leb 2 _ && eqb _ zipcode && eqb _ state); reflexivity.
Qed.

Lemma findRow_none (zipcode state : jsstring) (rows : list jsstring) :
  forall i,
    (forall j, j < List.length rows ->
               rowMatches zipcode state (nth j rows []) = false) ->
    Script.findRow zipcode state i rows = None.
Proof.
  induction rows as [|line rest IH]; intros i H; [reflexivity|].
  rewrite findRow_step.
  pose proof (H 0 ltac:(simpl; lia)) as H0. simpl in H0. rewrite H0.
  apply IH. intros j Hj. apply (H (S j)). simpl. lia.
Qed.

Lemma findRow_first (zipcode state : jsstring) (rows : list jsstring) :
  forall i r,
    r < List.length rows ->
    rowMatches zipcode state (nth r rows []) = true ->
    (forall j, j < r -> rowMatches zipcode state (nth j rows []) = false) ->
    Script.findRow zipcode state i rows = Some (i + r).
Proof.
  induction rows as [|line rest IH]; intros i r Hr Hm Hbefore;
    [simpl in Hr; lia|].
  rewrite findRow_step. destruct r as [|r].
  - simpl in Hm. rewrite Hm. f_equal. lia.
  - pose proof (Hbefore 0 ltac:(lia)) as H0. simpl in H0. rewrite H0.
    rewrite (IH (S i) r); [f_equal; lia | simpl in Hr; lia | exact Hm |].
    intros j Hj. apply (Hbefore (S j)). lia.
Qed.

Lemma set_at_length {A} (i : nat) (x : A) (l : list A) :
  List.length (Script.set_at i x l) = List.length l.
Proof.
  revert i. induction l as [|h t IH]; intros [|i]; simpl; auto.
Qed.

Lemma set_at_other {A} (i j : nat) (x : A) (l : list A) :
  j <> i -> nth_error (Script.set_at i x l) j = nth_error l j.
Proof.
  revert i j. induction l as [|h t IH]; intros [|i] [|j] H; simpl;
    try reflexivity; try lia.
  apply IH. lia.
Qed.

Lemma set_at_same {A} (i : nat) (x : A) (l : list A) :
  i < List.length l -> nth_error (Script.set_at i x l) i = Some x.
Proof.
  revert i. induction l as [|h t IH]; intros [|i] H; simpl in *;
    try lia; [reflexivity|].
  apply IH. lia.
Qed.

Lemma nth_set_at_other {A} (i j : nat) (x d : A) (l : list A) :
  j <> i -> nth j (Script.set_at i x l) d = nth j l d.
Proof.
  revert i j. induction l as [|h t IH]; intros [|i] [|j] H; simpl;
    try reflexivity; try lia.
  apply IH. lia.
Qed.

Lemma tl_set_at_0 {A} (x : A) (l : list A) :
  tl (Script.set_at 0 x l) = tl l.
Proof. destruct l; reflexivity. Qed.

Lemma nth_tl {A} (j : nat) (d : A) (l : list A) :
  nth j (tl l) d = nth (S j) l d.
Proof. destruct l; [destruct j|]; reflexivity. Qed.

Lemma path_eqb_refl (p : Script.path) : Script.path_eqb p p = true.
Proof. destruct p; simpl; [reflexivity | apply Z.eqb_refl]. Qed.

Lemma path_eqb_neq (p q : Script.path) :
  q <> p -> Script.path_eqb q p = false.
Proof.
  intro H. destruct p, q; simpl; try reflexivity; [congruence|].
  apply Z.eqb_neq. congruence.
Qed.

(** The rebuilt row of a line that has at least two columns. *)
Lemma rebuildRow_columns (line c0 c1 : jsstring) (rest : list jsstring)
    (addressLine city : jsstring) :
  split Script.comma line = c0 :: c1 :: rest ->
  Script.rebuildRow line addressLine city
  = Script.unquote c0 ++ [Script.comma] ++ Script.unquote c1
    ++ [Script.comma] ++ [Script.dquote] ++ addressLine ++ [Script.dquote]
    ++ [Script.comma] ++ [Script.dquote] ++ city ++ [Script.dquote].
Proof.
  intro H. unfold Script.rebuildRow, Script.padRow. rewrite H.
  destruct rest as [|c2 [|c3 rest]]; reflexivity.
Qed.

Lemma rowMatches_columns (zipcode state line : jsstring) :
  rowMatches zipcode state line = true ->
  exists rest, split Script.comma line = zipcode :: state :: rest.
Proof.
  unfold rowMatches. rewrite !andb_true_iff, !eqb_eq.
  intros (_ & (Hlen & H0) & H1).
  destruct (split Script.comma line) as [|c0 [|c1 rest]];
    simpl in Hlen; try discriminate.
  simpl in H0, H1. subst. eauto.
Qed.

Lemma unquote_inside (fuel : nat) :
  forall (c : cu) (s : jsstring),
    List.length s < fuel ->
    last s 0%N <> Script.dquote ->
    replace_all_from fuel
      (Alt (Seq Bol (chr Script.dquote false))
           (Seq (chr Script.dquote false) Eol)) [] (Some c) s = s.
Proof.
  induction fuel as [|fuel IH]; intros c s Hf Hl; [lia|].
  destruct s as [|d t]; [reflexivity|].
  cbn [replace_all_from]. unfold match_at, chr. cbn [m orelse].
  assert (T : last t 0%N <> Script.dquote)
    by (destruct t as [|e t']; [simpl; discriminate | exact Hl]).
  destruct (d =? Script.dquote)%N eqn:E.
  - destruct t as [|e t'].
    + apply N.eqb_eq in E. simpl in Hl. congruence.
    + f_equal. apply IH; [simpl in Hf |- *; lia | exact T].
  - f_equal. apply IH; [simpl in Hf |- *; lia | exact T].
Qed.

(** A column that neither starts nor ends with a double quote is left as it
    is. *)
Lemma unquote_plain (s : jsstring) :
  hd 0%N s <> Script.dquote -> last s 0%N <> Script.dquote ->
  Script.unquote s = s.
Proof.
  intros Hh Hl. unfold Script.unquote, replace_all.
  destruct s as [|c t]; [reflexivity|].
  cbn [replace_all_from]. unfold match_at, chr. cbn [m orelse].
  simpl in Hh. apply N.eqb_neq in Hh. rewrite Hh. cbn [orelse].
  f_equal. apply unquote_inside; [simpl; lia|].
  destruct t as [|e t']; [simpl; discriminate | exact Hl].
Qed.

(** C3, as stated, fails on a row with more than four fields: the rebuilt
    row keeps the two key fields and the new address and city, and drops
    the rest. *)
Lemma updateFinalCSV_drops_extra_fields :
  let q := [Script.dquote] in
  let table := js "zipcode,state,address,city" ++ [Script.newline]
               ++ js "10001,NY,,,kept" ++ [Script.newline]
               ++ js "10002,NY,,,kept" in
  let fs : Script.files := fun _ => Some table in
  let cfg := {| Script.TARGET_STATE := inl (js "ALL");
                Script.SHARD_INDEX := 0; Script.TOTAL_SHARDS := 1;
                Script.MAX_RECORDS_PER_SHARD := 1000 |} in
  Script.updateFinalCSV cfg fs (js "10001") (js "NY") (js "1 Main St")
    (js "Albany") Script.MainTable
  = Some (js "zipcode,state,address,city" ++ [Script.newline]
          ++ js "10001,NY," ++ q ++ js "1 Main St" ++ q ++ js "," ++ q
          ++ js "Albany" ++ q ++ [Script.newline]
          ++ js "10002,NY,,,kept").
Proof. vm_compute. reflexivity. Qed.

(** C3 (amended): [updateFinalCSV] touches no file but the table of the
    configuration; it returns without a change when that file is missing or
    when no line after the header matches the key; otherwise it rewrites
    the first matching line as the two key fields (each without one
    enclosing double quote at either end), the quoted address and the
    quoted city, dropping any further field of that line, leaves every
    other line after the header as it was, and keeps the header or replaces
    it by the canonical one.  A key field that neither starts nor ends with
    a double quote is written back unchanged. *)
Theorem updateFinalCSV_frame :
  forall (cfg : Script.config) (fs : Script.files)
         (zipcode state addressLine city : jsstring),
    (forall q, q <> Script.csvFilePath cfg ->
               Script.updateFinalCSV cfg fs zipcode state addressLine city q
               = fs q)
    /\ (fs (Script.csvFilePath cfg) = None ->
        Script.updateFinalCSV cfg fs zipcode state addressLine city = fs)
    /\ (forall content,
           fs (Script.csvFilePath cfg) = Some content ->
           (forall j, 0 < j < List.length (split Script.newline content) ->
                      rowMatches zipcode state
                        (nth j (split Script.newline content) []) = false) ->
           Script.updateFinalCSV cfg fs zipcode state addressLine city = fs)
    /\ (forall content r,
           fs (Script.csvFilePath cfg) = Some content ->
           0 < r < List.length (split Script.newline content) ->
           rowMatches zipcode state
             (nth r (split Script.newline content) []) = true ->
           (forall j, 0 < j < r ->
                      rowMatches zipcode state
                        (nth j (split Script.newline content) []) = false) ->
           exists lines',
             Script.updateFinalCSV cfg fs zipcode state addressLine city
               (Script.csvFilePath cfg)
             = Some (join [Script.newline] lines')
             /\ List.length lines'
                = List.length (split Script.newline content)
             /\ (forall j, j <> 0 -> j <> r ->
                   nth_error lines' j
                   = nth_error (split Script.newline content) j)
             /\ nth_error lines' r
                = Some (Script.unquote zipcode ++ [Script.comma]
                        ++ Script.unquote state ++ [Script.comma]
                        ++ [Script.dquote] ++ addressLine ++ [Script.dquote]
                        ++ [Script.comma]
                        ++ [Script.dquote] ++ city ++ [Script.dquote])
             /\ (nth_error lines' 0
                 = nth_error (split Script.newline content) 0
                 \/ nth_error lines' 0 = Some Script.canonicalHeader))
    /\ (hd 0%N zipcode <> Script.dquote ->
        last zipcode 0%N <> Script.dquote ->
        Script.unquote zipcode = zipcode)
    /\ (hd 0%N state <> Script.dquote ->
        last state 0%N <> Script.dquote ->
        Script.unquote state = state).
Proof.
  intros cfg fs zipcode state addressLine city.
  split; [|split; [|split; [|split; [|split; apply unquote_plain]]]].
  - intros q Hq. unfold Script.updateFinalCSV.
    destruct (fs (Script.csvFilePath cfg)); [|reflexivity].
    destruct (Script.findRow _ _ _ _); [|reflexivity].
    unfold Script.writeFileSync. rewrite path_eqb_neq by assumption.
    reflexivity.
  - intro H. unfold Script.updateFinalCSV. rewrite H. reflexivity.
  - intros content H Hnone. unfold Script.updateFinalCSV. rewrite H.
    match goal with
    | |- context [Script.findRow _ _ _ (tl ?l)] =>
        assert (T : tl l = tl (split Script.newline content))
          by (destruct (_ || _); [apply tl_set_at_0 | reflexivity]);
        rewrite T
    end.
    rewrite findRow_none; [reflexivity|].
    intros j Hj. rewrite nth_tl. apply Hnone.
    destruct (split Script.newline content); simpl in *; lia.
  - intros content r H Hr Hm Hbefore. unfold Script.updateFinalCSV.
    rewrite H.
    set (lines := split Script.newline content) in *.
    set (lines1 :=
           if negb (includes (js "address")
                      (split Script.comma (nth 0 lines [])))
              || negb (includes (js "city")
                         (split Script.comma (nth 0 lines [])))
           then Script.set_at 0 Script.canonicalHeader lines else lines).
    assert (T : tl lines1 = tl lines)
      by (unfold lines1; destruct (_ || _);
          [apply tl_set_at_0 | reflexivity]).
    assert (L1 : List.length lines1 = List.length lines)
      by (unfold lines1; destruct (_ || _);
          [apply set_at_length | reflexivity]).
    assert (N1 : forall j, j <> 0 -> nth j lines1 [] = nth j lines [])
      by (intros j Hj; unfold lines1; destruct (_ || _);
          [apply nth_set_at_other; assumption | reflexivity]).
    assert (E1 : forall j, j <> 0 -> nth_error lines1 j = nth_error lines j)
      by (intros j Hj; unfold lines1; destruct (_ || _);
          [apply set_at_other; assumption | reflexivity]).
    rewrite T.
    rewrite (findRow_first zipcode state (tl lines) 1 (r - 1)).
    + replace (1 + (r - 1)) with r by lia.
      unfold Script.writeFileSync. rewrite path_eqb_refl.
      eexists. split; [reflexivity|].
      split; [rewrite set_at_length; exact L1|].
      split; [|split].
      * intros j Hj0 Hjr. rewrite set_at_other by assumption.
        apply E1. assumption.
      * rewrite set_at_same by lia.
        rewrite N1 by lia.
        destruct (rowMatches_columns _ _ _ Hm) as [rest Hcols].
        rewrite (rebuildRow_columns _ _ _ _ _ _ Hcols). reflexivity.
      * rewrite set_at_other by lia.
        unfold lines1. destruct (_ || _); [right | left; reflexivity].
        apply set_at_same. lia.
    + destruct lines; simpl in *; lia.
    + rewrite nth_tl. replace (S (r - 1)) with r by lia. exact Hm.
    + intros j Hj. rewrite nth_tl. apply Hbefore. lia.
Qed.

Lemma updateFinalCSV_frame_witness :
  let table := js "zipcode,state,address,city" ++ [Script.newline]
               ++ js "10001,NY,," ++ [Script.newline] ++ js "10002,NY" in
  let fs : Script.files := fun _ => Some table in
  let cfg := {| Script.TARGET_STATE := inl (js "ALL");
                Script.SHARD_INDEX := 0; Script.TOTAL_SHARDS := 1;
                Script.MAX_RECORDS_PER_SHARD := 1000 |} in
  exists lines',
    Script.updateFinalCSV cfg fs (js "10002") (js "NY") (js "Not Found")
      (js "Not Found") (Script.csvFilePath cfg)
    = Some (join [Script.newline] lines')
    /\ List.length lines' = List.length (split Script.newline table)
    /\ (forall j, j <> 0 -> j <> 2 ->
          nth_error lines' j = nth_error (split Script.newline table) j)
    /\ nth_error lines' 2
       = Some (Script.unquote (js "10002") ++ [Script.comma]
               ++ Script.unquote (js "NY") ++ [Script.comma]
               ++ [Script.dquote] ++ js "Not Found" ++ [Script.dquote]
               ++ [Script.comma]
               ++ [Script.dquote] ++ js "Not Found" ++ [Script.dquote])
    /\ (nth_error lines' 0 = nth_error (split Script.newline table) 0
        \/ nth_error lines' 0 = Some Script.canonicalHeader).
Proof.
  intros table fs cfg.
  apply (proj1 (proj2 (proj2 (proj2
           (updateFinalCSV_frame cfg fs (js "10002") (js "NY")
              (js "Not Found") (js "Not Found"))))) table 2).
  - reflexivity.
  - vm_compute. lia.
  - vm_compute. reflexivity.
  - intros j Hj. assert (j = 1) by lia. subst j. vm_compute. reflexivity.
Defined.

(** ** Worked examples *)

(** Two pending rows, two shards, a cap of one: shard 0 selects the first
    row only. *)
Example select_first_of_two :
  let table := js "zipcode,state,address,city" ++ [Script.newline]
               ++ js "10001,NY,," ++ [Script.newline] ++ js "10002,NY,," in
  Script.readZipCodesFromCSV
    {| Script.TARGET_STATE := inl (js "ALL"); Script.SHARD_INDEX := 0;
       Script.TOTAL_SHARDS := 2; Script.MAX_RECORDS_PER_SHARD := 1 |}
    (fun _ => Some table)
  = Script.Returned
      [ {| Script.unit_zipcode := js "10001"; Script.unit_state := js "NY" |} ].
Proof. vm_compute. reflexivity. Qed.

(** Rows that already hold an address and a city, or belong to another
    state, are not selected. *)
Example select_pending_of_state :
  let q := [Script.dquote] in
  let table := js "zipcode,state,address,city" ++ [Script.newline]
               ++ js "10001,NY," ++ q ++ js "1 Main St" ++ q ++ js ","
               ++ q ++ js "Albany" ++ q ++ [Script.newline]
               ++ js "07001,NJ,," ++ [Script.newline]
               ++ js "10002,NY," ++ q ++ q ++ js "," ++ q ++ q in
  Script.readZipCodesFromCSV
    {| Script.TARGET_STATE := inl (js "NY"); Script.SHARD_INDEX := 0;
       Script.TOTAL_SHARDS := 1; Script.MAX_RECORDS_PER_SHARD := 1000 |}
    (fun _ => Some table)
  = Script.Returned
      [ {| Script.unit_zipcode := js "10002"; Script.unit_state := js "NY" |} ].
Proof. vm_compute. reflexivity. Qed.

(** Without a comma and without a leading street number the whole text is
    the street line. *)
Example parse_without_comma :
  AddressExtractor.parseAddress (js "no commas here 42 Oak Ave")
  = {| AddressExtractor.addressline := js "no commas here 42 Oak Ave";
       AddressExtractor.city := js "Unknown" |}
  /\ AddressExtractor.parseAddress (js "42 Oak Ave Salem")
     = {| AddressExtractor.addressline := js "42 Oak Ave";
          AddressExtractor.city := js "Salem" |}.
Proof. vm_compute. split; reflexivity. Qed.

(** The normalizer removes private-use code points, leading bullets and
    zero-width code points, and collapses white space. *)
Example normalize_glyphs :
  CsvUtils.cleanText
    ([0xE0C8%N; 0x2022%N] ++ js " 12" ++ [0xA0%N; 0x3000%N] ++ js "Main"
     ++ [0x200B%N; 9%N] ++ js "St " ++ [0xFEFF%N])
  = js "12 Main St".
Proof. vm_compute. reflexivity. Qed.

(** An accepted result ends the retries; an "Error" result with a message
    is retried. *)
Example retry_then_accept :
  let failed :=
    {| CsvUtils.zipcode := js "10001"; CsvUtils.state := js "NY";
       CsvUtils.addressline := js "Error"; CsvUtils.city := js "Error";
       CsvUtils.valid := false; CsvUtils.error := Some (js "Timeout") |} in
  let missing :=
    {| CsvUtils.zipcode := js "10001"; CsvUtils.state := js "NY";
       CsvUtils.addressline := js "Not Found";
       CsvUtils.city := js "Not Found";
       CsvUtils.valid := false;
       CsvUtils.error := Some (js "Address extraction failed") |} in
  let extract := fun n : nat =>
    match n with
    | 1 => ParallelProcessor.Resolves failed
    | _ => ParallelProcessor.Resolves missing
    end in
  ParallelProcessor.processWithRetry extract 3 (js "10001") (js "NY")
  = {| ParallelProcessor.result := missing; ParallelProcessor.calls := 2;
       ParallelProcessor.delays := [2000] |}.
Proof. vm_compute. reflexivity. Qed.

(* ================================================================== *)
(** * Further properties *)
(* ================================================================== *)

(** ** Splitting and joining *)

Section SplitJoin.

Variable d : cu.

Lemma split_cons_eq (c : cu) (t : jsstring) :
  split d (c :: t)
  = if (c =? d)%N then [] :: split d t
    else (c :: hd [] (split d t)) :: tl (split d t).
Proof.
  cbn [split]. destruct (c =? d)%N; [reflexivity|].
  destruct (split d t) as [|h r] eqn:E; [|reflexivity].
  destruct t as [|e t']; simpl in E; [discriminate|].
  destruct (e =? d)%N; [discriminate|].
  destruct (split d t'); discriminate.
Qed.

Lemma split_not_nil (s : jsstring) : split d s <> [].
Proof.
  destruct s as [|c t]; simpl; [discriminate|].
  destruct (c =? d)%N; [discriminate|].
  destruct (split d t); discriminate.
Qed.

Lemma split_parts_free (s : jsstring) :
  Forall (fun part => ~ In d part) (split d s).
Proof.
  induction s as [|c t IH]; [repeat constructor; intros []|].
  rewrite split_cons_eq. destruct (c =? d)%N eqn:E.
  - constructor; [intros [] | exact IH].
  - pose proof (split_not_nil t) as Hn.
    destruct (split d t) as [|h r]; [congruence|].
    inversion IH as [|? ? Hh Hr]; subst. cbn [hd tl].
    constructor; [|exact Hr].
    intros [-> | Hin]; [rewrite N.eqb_refl in E; discriminate | auto].
Qed.

Lemma join_split (s : jsstring) : join [d] (split d s) = s.
Proof.
  induction s as [|c t IH]; [reflexivity|].
  rewrite split_cons_eq. pose proof (split_not_nil t) as Hn.
  destruct (c =? d)%N eqn:E.
  - apply N.eqb_eq in E. subst c.
    destruct (split d t) as [|h r] eqn:Es; [congruence|].
    cbn [join]. cbn [join] in IH. rewrite IH. reflexivity.
  - destruct (split d t) as [|h r] eqn:Es; [congruence|].
    cbn [hd tl]. destruct r as [|h' r'].
    + cbn [join] in *. rewrite IH. reflexivity.
    + cbn [join] in *. rewrite <- IH. reflexivity.
Qed.

Lemma split_free (a : jsstring) : ~ In d a -> split d a = [a].
Proof.
  induction a as [|c t IH]; intro H; [reflexivity|].
  rewrite split_cons_eq.
  destruct (c =? d)%N eqn:E.
  - apply N.eqb_eq in E. subst c. exfalso. apply H. left. reflexivity.
  - rewrite IH by (intro Hin; apply H; right; assumption). reflexivity.
Qed.

Lemma split_app_sep (a b : jsstring) :
  ~ In d a -> split d (a ++ d :: b) = a :: split d b.
Proof.
  induction a as [|c t IH]; intro H.
  - cbn [app]. rewrite split_cons_eq, N.eqb_refl. reflexivity.
  - cbn [app]. rewrite split_cons_eq.
    destruct (c =? d)%N eqn:E.
    + apply N.eqb_eq in E. subst c. exfalso. apply H. left. reflexivity.
    + rewrite IH by (intro Hin; apply H; right; assumption). reflexivity.
Qed.

Lemma split_join (parts : list jsstring) :
  parts <> [] -> Forall (fun part => ~ In d part) parts ->
  split d (join [d] parts) = parts.
Proof.
  induction parts as [|a rest IH]; intros Hn H; [congruence|].
  inversion H as [|? ? Ha Hrest]; subst.
  destruct rest as [|b rest'].
  - cbn [join]. apply split_free. assumption.
  - change (join [d] (a :: b :: rest')) with (a ++ d :: join [d] (b :: rest')).
    rewrite split_app_sep by assumption.
    rewrite IH; [reflexivity | discriminate | assumption].
Qed.

End SplitJoin.

(** ** What a match leaves is a suffix of the input *)

Definition leaves_suffix (k : kont) : Prop :=
  forall prev s rest, k prev s = Some rest -> exists u, s = u ++ rest.

Lemma accept_suffix : leaves_suffix accept.
Proof. intros prev s rest H. injection H as <-. exists []. reflexivity. Qed.

Lemma star_loop_suffix
    (step : option cu -> jsstring -> kont -> option jsstring)
    (g : bool) (k : kont) :
  (forall k', leaves_suffix k' ->
              leaves_suffix (fun prev s => step prev s k')) ->
  leaves_suffix k ->
  forall n, leaves_suffix (star_loop step g k n).
Proof.
  intros Hstep Hk. induction n as [|n IH]; [exact Hk|].
  intros prev s rest H. cbn [star_loop] in H.
  assert (A : forall x,
    step prev s (fun p' s' =>
      if Nat.ltb (List.length s') (List.length s)
      then star_loop step g k n p' s' else None) = Some x ->
    exists u, s = u ++ x).
  { intros x Hx.
    refine (Hstep _ _ prev s x Hx).
    intros p' s' r' Hr'.
    destruct (Nat.ltb (List.length s') (List.length s)); [|discriminate].
    exact (IH p' s' r' Hr'). }
  destruct g; unfold orelse in H.
  - destruct (step prev s _) as [x|] eqn:E.
    + injection H as <-. apply A. reflexivity.
    + exact (Hk prev s rest H).
  - destruct (k prev s) as [x|] eqn:E.
    + injection H as <-. exact (Hk prev s x E).
    + apply A. exact H.
Qed.

Lemma m_suffix (r : regex) :
  forall k, leaves_suffix k -> leaves_suffix (fun prev s => m r prev s k).
Proof.
  induction r as [|p|r1 IH1 r2 IH2|r1 IH1 r2 IH2|g r IH| | |];
    intros k Hk prev s rest H; cbn [m] in H.
  - exact (Hk prev s rest H).
  - destruct s as [|c t]; [discriminate|].
    destruct (p c); [|discriminate].
    destruct (Hk _ _ _ H) as [u ->]. exists (c :: u). reflexivity.
  - exact (IH1 _ (IH2 k Hk) prev s rest H).
  - unfold orelse in H. destruct (m r1 prev s k) as [x|] eqn:E.
    + injection H as <-. exact (IH1 k Hk prev s x E).
    + exact (IH2 k Hk prev s rest H).
  - exact (star_loop_suffix (m r) g k IH Hk _ prev s rest H).
  - destruct prev; [discriminate|]. exact (Hk _ _ _ H).
  - destruct s; [|discriminate]. exact (Hk _ _ _ H).
  - destruct (xorb _ _); [|discriminate]. exact (Hk _ _ _ H).
Qed.

Lemma match_at_suffix (r : regex) (prev : option cu) (s rest : jsstring) :
  match_at r prev s = Some rest -> exists u, s = u ++ rest.
Proof. exact (m_suffix r accept accept_suffix prev s rest). Qed.

Lemma find_here (r : regex) (prev : option cu) (s rest : jsstring) :
  match_at r prev s = Some rest ->
  find r prev s
  = Some ([], firstn (List.length s - List.length rest) s, rest).
Proof. intro H. destruct s; unfold find; fold find; rewrite H; reflexivity. Qed.

Lemma firstn_before_suffix (u rest : jsstring) :
  firstn (List.length (u ++ rest) - List.length rest) (u ++ rest) = u.
Proof.
  rewrite length_app.
  replace (List.length u + List.length rest - List.length rest)
    with (List.length u) by lia.
  rewrite firstn_app, Nat.sub_diag, firstn_O, app_nil_r, firstn_all.
  reflexivity.
Qed.

(** The three parts of a match make up the input. *)
Lemma find_parts (r : regex) (s : jsstring) :
  forall prev pre mid post,
    find r prev s = Some (pre, mid, post) -> s = pre ++ mid ++ post.
Proof.
  induction s as [|c t IH]; intros prev pre mid post H.
  - destruct (match_at r prev []) as [rest|] eqn:E.
    + rewrite (find_here _ _ _ _ E) in H. injection H as <- <- <-.
      destruct (match_at_suffix _ _ _ _ E) as [u Hu].
      destruct u; destruct rest; try discriminate. reflexivity.
    + cbn [find] in H. rewrite E in H. discriminate.
  - destruct (match_at r prev (c :: t)) as [rest|] eqn:E.
    + rewrite (find_here _ _ _ _ E) in H.
      destruct (match_at_suffix _ _ _ _ E) as [u Hu].
      assert (Hpre : pre = []) by congruence.
      assert (Hpost : post = rest) by congruence.
      assert (Hmid : mid = firstn (List.length (c :: t) - List.length rest)
                             (c :: t)) by congruence.
      rewrite Hpre, Hpost, Hmid, Hu, firstn_before_suffix. reflexivity.
    + rewrite (find_skip _ _ _ _ E) in H.
      destruct (find r (Some c) t) as [[[pre' mid'] post']|] eqn:F;
        [|discriminate].
      injection H as <- <- <-.
      rewrite (IH _ _ _ _ F) at 1. reflexivity.
Qed.

Lemma replace_first_keeps (P : cu -> Prop) (r : regex) (s : jsstring) :
  Forall P s -> Forall P (replace_first r [] s).
Proof.
  intro H. unfold replace_first.
  destruct (find r None s) as [[[pre mid] post]|] eqn:F; [|exact H].
  rewrite (find_parts _ _ _ _ _ _ F) in H.
  apply Forall_app in H. destruct H as [Hpre H].
  apply Forall_app in H. destruct H as [_ Hpost].
  cbn [app]. apply Forall_app. split; assumption.
Qed.

Lemma match_text_keeps (P : cu -> Prop) (r : regex) (s mid : jsstring) :
  Forall P s -> match_text r s = Some mid -> Forall P mid.
Proof.
  intros H M. unfold match_text in M.
  destruct (find r None s) as [[[pre mid'] post]|] eqn:F; [|discriminate].
  injection M as <-.
  rewrite (find_parts _ _ _ _ _ _ F) in H.
  apply Forall_app in H. destruct H as [_ H].
  apply Forall_app in H. tauto.
Qed.

Lemma strip_end_keeps (P : cu -> Prop) (p : cu -> bool) (s : jsstring) :
  Forall P s -> Forall P (strip_end p s).
Proof. apply Forall_strip_end. Qed.

Lemma trim_keeps (P : cu -> Prop) (s : jsstring) :
  Forall P s -> Forall P (trim s).
Proof.
  intro H. rewrite trim_strip.
  apply Forall_strip_end, Forall_drop_while. exact H.
Qed.

(** ** The normalizer: shape, length and fixed points of its results *)

Lemma drop_while_strip_end (p : cu -> bool) (s : jsstring) :
  drop_while p (strip_end p (drop_while p s)) = strip_end p (drop_while p s).
Proof.
  assert (H : drop_while p s = []
              \/ exists h t, drop_while p s = h :: t /\ p h = false).
  { induction s as [|c t IH]; simpl; [left; reflexivity|].
    destruct (p c) eqn:Hc; [exact IH | right; eauto]. }
  destruct H as [-> | (h & t & -> & Hh)]; [reflexivity|].
  destruct (strip_end_keeps_head p h t Hh) as [t' ->].
  simpl. rewrite Hh. reflexivity.
Qed.


Lemma cleanText_normalize (x : jsstring) :
  CsvUtils.cleanText x = normalize x.
Proof. rewrite cleanText_chain. apply cleanChain_normalize. Qed.

(** X1: whatever the input, the result of [cleanText] holds no private-use
    code point, no zero-width code point and no exotic space; its only
    white space is the ASCII space, never twice in a row; and it neither
    starts nor ends with white space. *)
Theorem cleanText_result_shape :
  forall x : jsstring,
    Forall (fun c => CsvUtils.private_use c = false
                     /\ CsvUtils.zero_width c = false
                     /\ CsvUtils.exotic_space c = false
                     /\ (is_space c = true -> c = 32%N))
           (CsvUtils.cleanText x)
    /\ spaced is_space (CsvUtils.cleanText x) = true
    /\ trim (CsvUtils.cleanText x) = CsvUtils.cleanText x.
Proof.
  intro x. rewrite cleanText_normalize.
  destruct (normalize_tidy x) as [Hp Hz He Hb Hs Hend].
  split; [|split].
  - rewrite Forall_forall in *. intros c Hc.
    specialize (Hp c Hc). specialize (Hz c Hc). specialize (He c Hc).
    specialize (Hb c Hc). cbv beta in *.
    apply negb_true_iff in Hp. apply negb_true_iff in Hz. auto.
  - exact Hs.
  - unfold normalize. rewrite trim_strip, drop_while_strip_end.
    apply strip_end_idem.
Qed.

Lemma filter_shorter (q : cu -> bool) (s : jsstring) :
  List.length (filter q s) <= List.length s.
Proof.
  induction s as [|c t IH]; simpl; [lia|]. destruct (q c); simpl; lia.
Qed.

Lemma collapse_shorter (p : cu -> bool) (d : cu) (s : jsstring) :
  List.length (collapse p [d] s) <= List.length s.
Proof.
  induction s as [|c t IH]; [simpl; lia|].
  cbn [collapse]. destruct (p c).
  - destruct t as [|c' t']; [simpl; lia|].
    destruct (p c'); simpl in *; lia.
  - simpl. lia.
Qed.

Lemma strip_end_shorter (p : cu -> bool) (s : jsstring) :
  List.length (strip_end p s) <= List.length s.
Proof.
  induction s as [|c t IH]; [simpl; lia|].
  cbn [strip_end]. destruct (strip_end p t).
  - destruct (p c); simpl in *; lia.
  - simpl in *. lia.
Qed.

Lemma after_glyphs_shorter (s : jsstring) :
  List.length
    (strip_end is_space
       (drop_while is_space
          (collapse is_space [sp]
             (List.map (fun c => if CsvUtils.exotic_space c then sp else c)
                (filter (fun c => negb (CsvUtils.zero_width c)) s)))))
  <= List.length s.
Proof.
  eapply Nat.le_trans; [apply strip_end_shorter|].
  eapply Nat.le_trans; [apply drop_while_length|].
  eapply Nat.le_trans; [apply collapse_shorter|].
  rewrite length_map. apply filter_shorter.
Qed.

(** X2: [cleanText] never makes a text longer. *)
Theorem cleanText_not_longer :
  forall x : jsstring,
    List.length (CsvUtils.cleanText x) <= List.length x.
Proof.
  intro x. rewrite cleanText_normalize. unfold normalize.
  eapply Nat.le_trans; [apply after_glyphs_shorter|].
  eapply Nat.le_trans; [apply drop_while_length|].
  apply filter_shorter.
Qed.

Lemma glyph_not_private (c : cu) :
  CsvUtils.leading_glyph c = true -> CsvUtils.private_use c = false.
Proof. intro H. classes. Qed.

(** X3: the texts [cleanText] leaves unchanged are exactly the texts of the
    shape of its results that do not start with a leading glyph (bullet,
    middle dot, hyphen or white space). *)
Theorem cleanText_fixed_points :
  forall x : jsstring,
    CsvUtils.cleanText x = x <->
    tidy x
    /\ (x = [] \/ exists h t, x = h :: t /\ CsvUtils.leading_glyph h = false).
Proof.
  intro x. rewrite cleanText_normalize. split.
  - intro H. split; [rewrite <- H; apply normalize_tidy|].
    destruct x as [|h t]; [left; reflexivity|]. right.
    exists h, t. split; [reflexivity|].
    destruct (CsvUtils.leading_glyph h) eqn:G; [|reflexivity].
    exfalso.
    assert (L : List.length (normalize (h :: t)) < List.length (h :: t)).
    { unfold normalize. cbn [filter].
      rewrite (glyph_not_private h G). cbn [negb drop_while]. rewrite G.
      eapply Nat.le_lt_trans; [apply after_glyphs_shorter|].
      eapply Nat.le_lt_trans; [apply drop_while_length|].
      eapply Nat.le_lt_trans; [apply filter_shorter|]. simpl. lia. }
    rewrite H in L. lia.
  - intros [Ht Hh]. apply tidy_fixed; assumption.
Qed.

(** ** The parser: commas, double cleaning, texts without a comma *)

Lemma nth_free (d : cu) (parts : list jsstring) (i : nat) :
  Forall (fun part => ~ In d part) parts -> ~ In d (nth i parts []).
Proof.
  intro H. destruct (Nat.lt_ge_cases i (List.length parts)) as [Hi | Hi].
  - rewrite Forall_forall in H. apply H. apply nth_In. exact Hi.
  - rewrite nth_overflow by exact Hi. intros [].
Qed.

Lemma free_Forall (d : cu) (s : jsstring) :
  ~ In d s <-> Forall (fun c => c <> d) s.
Proof.
  rewrite Forall_forall. split.
  - intros H c Hc ->. exact (H Hc).
  - intros H Hin. exact (H d Hin eq_refl).
Qed.

Lemma trim_free (d : cu) (s : jsstring) : ~ In d s -> ~ In d (trim s).
Proof. rewrite !free_Forall. apply trim_keeps. Qed.

Lemma map_trim_free (d : cu) (parts : list jsstring) :
  Forall (fun part => ~ In d part) parts ->
  Forall (fun part => ~ In d part) (List.map trim parts).
Proof.
  intro H. apply Forall_map. eapply Forall_impl; [|exact H].
  intros part. apply trim_free.
Qed.

Lemma single_part_free (d : cu) (s : jsstring) :
  List.length (split d s) < 2 -> ~ In d s.
Proof.
  intro H. pose proof (split_parts_free d s) as F.
  pose proof (join_split d s) as J. pose proof (split_not_nil d s) as N.
  destruct (split d s) as [|a [|b rest]]; [congruence | | simpl in H; lia].
  cbn [join] in J. subst a. inversion F. assumption.
Qed.

(** X4: neither field returned by [parseAddress] ever holds a comma. *)
Theorem parseAddress_fields_without_comma :
  forall s : jsstring,
    ~ In AddressExtractor.comma
         (AddressExtractor.addressline (AddressExtractor.parseAddress s))
    /\ ~ In AddressExtractor.comma
            (AddressExtractor.city (AddressExtractor.parseAddress s)).
Proof.
  intro s. unfold AddressExtractor.parseAddress.
  set (full := AddressExtractor.cleanAddressText s).
  pose proof (map_trim_free _ _ (split_parts_free AddressExtractor.comma full))
    as Hparts.
  destruct (Nat.leb 2 _) eqn:E.
  - cbn [AddressExtractor.addressline AddressExtractor.city]. split.
    + apply nth_free. exact Hparts.
    + apply trim_free. apply free_Forall. apply replace_first_keeps.
      apply free_Forall. apply nth_free. exact Hparts.
  - apply Nat.leb_gt in E. rewrite length_map in E.
    pose proof (single_part_free _ _ E) as Hfull.
    destruct (match_text AddressExtractor.streetPrefix full) as [line|] eqn:M;
      cbn [AddressExtractor.addressline AddressExtractor.city].
    + split.
      * apply free_Forall. eapply match_text_keeps; [|exact M].
        apply free_Forall. exact Hfull.
      * match goal with
        | |- ~ In _ match ?c with [] => _ | _ :: _ => ?c end =>
            assert (Hc : ~ In AddressExtractor.comma c)
              by (apply trim_free, nth_free, split_parts_free);
            destruct c; [|exact Hc]
        end.
        vm_compute. intuition discriminate.
    + split; [exact Hfull|]. vm_compute. intuition discriminate.
Qed.

(** X5: cleaning a text before parsing it, as [extractAddressFromPage]
    does, changes nothing for a text without a code unit of
    U+200B..U+200D. *)
Theorem parseAddress_after_cleaning :
  forall x : jsstring,
    Forall (fun c => zero_width_mark c = false) x ->
    AddressExtractor.parseAddress (AddressExtractor.cleanAddressText x)
    = AddressExtractor.parseAddress x.
Proof.
  intros x Hx. unfold AddressExtractor.parseAddress.
  assert (E : AddressExtractor.cleanAddressText
                (AddressExtractor.cleanAddressText x)
              = AddressExtractor.cleanAddressText x).
  { unfold AddressExtractor.cleanAddressText.
    rewrite !cleanChain_normalize. apply normalize_idempotent. exact Hx. }
  rewrite E. reflexivity.
Qed.

Lemma parseAddress_after_cleaning_witness :
  AddressExtractor.parseAddress
    (AddressExtractor.cleanAddressText (js " - 12 Oak Ave,  Salem OR 97301"))
  = AddressExtractor.parseAddress (js " - 12 Oak Ave,  Salem OR 97301").
Proof.
  apply (parseAddress_after_cleaning (js " - 12 Oak Ave,  Salem OR 97301")).
  vm_compute. repeat constructor.
Defined.

Lemma streetPrefix_needs_digit (t : jsstring) :
  match t with c :: _ => is_digit c = false | [] => True end ->
  match_text AddressExtractor.streetPrefix t = None.
Proof.
  intro H. unfold match_text, AddressExtractor.streetPrefix.
  cbn [seqs]. rewrite find_bol. unfold match_at. cbn [m].
  unfold digit. fold (plus (Chr is_digit)). rewrite m_plus_chr.
  destruct t as [|c t']; [reflexivity|]. rewrite H. reflexivity.
Qed.

(** X6: when the normalized text holds no comma and does not start with a
    digit (the empty text included), [parseAddress] returns the whole
    normalized text as the street line and "Unknown" as the city. *)
Theorem parseAddress_without_street_number :
  forall s : jsstring,
    ~ In AddressExtractor.comma (AddressExtractor.cleanAddressText s) ->
    match AddressExtractor.cleanAddressText s with
    | c :: _ => is_digit c = false
    | [] => True
    end ->
    AddressExtractor.parseAddress s
    = {| AddressExtractor.addressline := AddressExtractor.cleanAddressText s;
         AddressExtractor.city := js "Unknown" |}.
Proof.
  intros s Hfree Hhead. unfold AddressExtractor.parseAddress.
  rewrite (split_free _ _ Hfree). cbn [List.map List.length Nat.leb].
  rewrite (streetPrefix_needs_digit _ Hhead). reflexivity.
Qed.

Lemma parseAddress_without_street_number_witness :
  AddressExtractor.parseAddress (js "  Main Street near 5th ")
  = {| AddressExtractor.addressline :=
         AddressExtractor.cleanAddressText (js "  Main Street near 5th ");
       AddressExtractor.city := js "Unknown" |}.
Proof.
  apply (parseAddress_without_street_number (js "  Main Street near 5th ")).
  - vm_compute. intuition discriminate.
  - vm_compute. reflexivity.
Defined.

Lemma find_bol_prefix (r : regex) (t mid : jsstring) :
  match_text (Seq Bol r) t = Some mid -> exists rest, t = mid ++ rest.
Proof.
  unfold match_text. intro H.
  destruct (find (Seq Bol r) None t) as [[[pre mid'] post]|] eqn:F;
    [|discriminate].
  assert (mid' = mid) by congruence. subst mid'.
  pose proof (find_parts _ _ _ _ _ _ F) as P.
  rewrite find_bol in F.
  destruct (match_at r None t); [|discriminate].
  assert (pre = []) by congruence. subst pre.
  exists post. exact P.
Qed.

(** X7: when the normalized text holds no comma, the street line returned
    by [parseAddress] is a prefix of the normalized text and the city is
    never empty. *)
Theorem parseAddress_without_comma :
  forall s : jsstring,
    ~ In AddressExtractor.comma (AddressExtractor.cleanAddressText s) ->
    (exists rest,
        AddressExtractor.cleanAddressText s
        = AddressExtractor.addressline (AddressExtractor.parseAddress s)
          ++ rest)
    /\ AddressExtractor.city (AddressExtractor.parseAddress s) <> [].
Proof.
  intros s Hfree. unfold AddressExtractor.parseAddress.
  rewrite (split_free _ _ Hfree). cbn [List.map List.length Nat.leb].
  destruct (match_text AddressExtractor.streetPrefix
              (AddressExtractor.cleanAddressText s)) as [line|] eqn:M;
    cbn [AddressExtractor.addressline AddressExtractor.city].
  - split.
    + unfold AddressExtractor.streetPrefix in M. cbn [seqs] in M.
      exact (find_bol_prefix _ _ _ M).
    + destruct (trim _); [vm_compute|]; discriminate.
  - split; [exists []; rewrite app_nil_r; reflexivity|].
    vm_compute. discriminate.
Qed.

Lemma parseAddress_without_comma_witness :
  (exists rest,
      AddressExtractor.cleanAddressText (js "42 Oak Ave Salem")
      = AddressExtractor.addressline
          (AddressExtractor.parseAddress (js "42 Oak Ave Salem")) ++ rest)
  /\ AddressExtractor.city
       (AddressExtractor.parseAddress (js "42 Oak Ave Salem")) <> [].
Proof.
  apply (parseAddress_without_comma (js "42 Oak Ave Salem")).
  vm_compute. intuition discriminate.
Defined.

(** ** The search loop: what a found address has passed *)

Lemma checkAddress_hit (zipcode state label : jsstring) (r : Script.found) :
  Script.checkAddress zipcode state label = Some r ->
  Script.isValidAddressLine (Some (Script.addressLine r)) = true
  /\ Script.isValidCity (Some (Script.foundCity r)) = true
  /\ ~ In Script.comma (Script.addressLine r)
  /\ ~ In Script.comma (Script.foundCity r).
Proof.
  unfold Script.checkAddress.
  pose proof (split_parts_free Script.comma label) as F.
  destruct (nth_error (split Script.comma label) 1) as [c|] eqn:E.
  - destruct (negb _ || negb _); [discriminate|].
    destruct (Script.isValidAddressLine _ && Script.isValidCity _) eqn:V;
      [|discriminate].
    intro H. injection H as <-.
    apply andb_true_iff in V. destruct V as [Va Vc].
    unfold Script.addressLine, Script.foundCity, option_map, Script.or_empty
      in *.
    repeat split; try assumption.
    + apply trim_free, nth_free, split_parts_free.
    + apply trim_free. rewrite Forall_forall in F. apply F.
      eapply nth_error_In. exact E.
  - destruct (negb _ || negb _); [discriminate|].
    destruct (Script.isValidAddressLine _ && Script.isValidCity _) eqn:V;
      [|discriminate].
    apply andb_true_iff in V. destruct V as [_ Vc]. discriminate Vc.
Qed.

Lemma scanResults_hit (zipcode state : jsstring)
    (searchResults : list Script.entry) (r : Script.found) :
  Script.scanResults zipcode state searchResults = Script.Returned (Some r) ->
  exists label, Script.checkAddress zipcode state label = Some r.
Proof.
  induction searchResults as [|e rest IH]; [discriminate|].
  cbn [Script.scanResults].
  destruct e as [[[|c a]|]|msg]; cbn; try exact IH.
  destruct (Script.checkAddress zipcode state (c :: a)) as [r'|] eqn:E;
    [|exact IH].
  intro H. injection H as <-. eauto.
Qed.

Lemma trySearchTypes_hit (pg : Script.page) (zipcode state : jsstring)
    (searchTypes : list jsstring) (r : Script.found) :
  Script.trySearchTypes pg zipcode state searchTypes
  = Script.Returned (Some r) ->
  exists label, Script.checkAddress zipcode state label = Some r.
Proof.
  induction searchTypes as [|ty rest IH]; [discriminate|].
  cbn [Script.trySearchTypes]. unfold Script.searchForLocationType.
  destruct (pg _) as [rs|msg]; cbn; [|exact IH].
  destruct (scanResults_returns zipcode state rs) as [[r'|] E];
    rewrite E; cbn; [|exact IH].
  intro H. injection H as <-. exact (scanResults_hit _ _ _ _ E).
Qed.

(** X8: whatever the page does, an address a unit resolves to has passed
    both validators, holds no comma in either field, and its street line is
    neither of the sentinels "Not Found" and "Error". *)
Theorem resolved_address_is_validated :
  forall (pg : Script.page) (zipcode state : jsstring) (r : Script.found),
    Script.resolveUnit pg zipcode state = Script.Valid r ->
    Script.isValidAddressLine (Some (Script.addressLine r)) = true
    /\ Script.isValidCity (Some (Script.foundCity r)) = true
    /\ ~ In Script.comma (Script.addressLine r)
    /\ ~ In Script.comma (Script.foundCity r)
    /\ Script.addressLine r <> js "Not Found"
    /\ Script.addressLine r <> js "Error".
Proof.
  intros pg zipcode state r H. unfold Script.resolveUnit in H.
  destruct (Script.trySearchTypes pg zipcode state Script.SEARCH_TYPES)
    as [[r'|]|msg] eqn:E; try discriminate.
  injection H as ->.
  destruct (trySearchTypes_hit _ _ _ _ _ E) as [label Hl].
  destruct (checkAddress_hit _ _ _ _ Hl) as (Va & Vc & Fa & Fc).
  repeat split; try assumption.
  - intro Heq. rewrite Heq in Va. vm_compute in Va. discriminate.
  - intro Heq. rewrite Heq in Va. vm_compute in Va. discriminate.
Qed.

Lemma resolved_address_is_validated_witness :
  let zipcode := js "62704" in
  let state := js "IL" in
  let label := js "Address: 12 Main St, Springfield, IL 62704, United States" in
  let pg : Script.page := fun _ => Script.Returned [Script.Returned (Some label)] in
  let r := {| Script.addressLine := js "12 Main St";
              Script.foundCity := js "Springfield" |} in
  Script.isValidAddressLine (Some (Script.addressLine r)) = true
  /\ Script.isValidCity (Some (Script.foundCity r)) = true
  /\ ~ In Script.comma (Script.addressLine r)
  /\ ~ In Script.comma (Script.foundCity r)
  /\ Script.addressLine r <> js "Not Found"
  /\ Script.addressLine r <> js "Error".
Proof.
  intros zipcode state label pg r.
  apply (resolved_address_is_validated pg zipcode state r).
  vm_compute. reflexivity.
Defined.

(** ** The selection: keys and state filter of the selected units *)


(** ** The selection: keys and state filter of the selected units *)

Lemma In_slice {A} (l : list A) (s e : Z) (x : A) :
  In x (slice l s e) -> In x l.
Proof.
  unfold slice. intro H.
  match type of H with
  | In x (firstn ?n (skipn ?k l)) =>
      rewrite <- (firstn_skipn k l); apply in_or_app; right;
      rewrite <- (firstn_skipn n (skipn k l)); apply in_or_app; left;
      exact H
  end.
Qed.

Lemma In_applySharding {A} (cfg : Script.config) (l : list A) (x : A) :
  In x (Script.applySharding cfg l) -> In x l.
Proof.
  unfold Script.applySharding.
  destruct (Script.TOTAL_SHARDS cfg >? 1)%Z; [|auto].
  destruct (Script.shardBounds cfg _) as [[a b] c]. apply In_slice.
Qed.

Lemma stateFilter_In (t : Script.target) (rows : list Script.record)
    (item : Script.record) :
  In item (Script.stateFilter t rows) ->
  In item rows /\ (truthy (Script.state item) = true ->
                   wantsState t (Script.or_empty (Script.state item))).
Proof.
  unfold Script.stateFilter, wantsState. destruct t as [s | states].
  - destruct (eqb s (js "ALL")) eqn:E.
    + intro H. split; [exact H|]. intros _. left. apply eqb_eq. exact E.
    + intro H. apply filter_In in H. destruct H as [Hin Hs].
      split; [exact Hin|]. intros _. right.
      destruct (Script.state item) as [x|]; [|discriminate].
      unfold seq_opt in Hs. apply eqb_eq in Hs. exact Hs.
  - intro H. apply filter_In in H. destruct H as [Hin Hs].
    split; [exact Hin|]. intros _.
    destruct (Script.state item) as [x|]; [|discriminate].
    unfold includes in Hs. apply existsb_exists in Hs.
    destruct Hs as (y & Hy & Heq). apply eqb_eq in Heq. subst y. exact Hy.
Qed.

(** X9: every work unit [readZipCodesFromCSV] returns has a non-empty
    zipcode and a non-empty state, and its state is the one the
    configuration asks for (any state for 'ALL', the state itself for a
    single state, a member of the array otherwise). *)
Theorem selected_units_have_keys :
  forall (cfg : Script.config) (fs : Script.files)
         (units : list Script.WorkUnit),
    Script.readZipCodesFromCSV cfg fs = Script.Returned units ->
    Forall (fun u => Script.unit_zipcode u <> []
                     /\ Script.unit_state u <> []
                     /\ wantsState (Script.TARGET_STATE cfg)
                          (Script.unit_state u))
           units.
Proof.
  intros cfg fs units H. unfold Script.readZipCodesFromCSV in H.
  destruct (fs Script.MainTable) as [content|];
    [|injection H as <-; constructor].
  unfold Script.pendingRecords in H.
  destruct (filter _ (split Script.newline content)) as [|header rows];
    [discriminate|].
  destruct (index_of (js "address") _) as [ai|];
    [|injection H as <-; constructor].
  destruct (index_of (js "city") _) as [ci|];
    [|injection H as <-; constructor].
  injection H as <-.
  apply Forall_forall. intros u Hu.
  apply in_map_iff in Hu. destruct Hu as (item & <- & Hitem).
  apply In_applySharding in Hitem.
  apply filter_In in Hitem. destruct Hitem as [Hitem _].
  apply stateFilter_In in Hitem. destruct Hitem as [Hitem Hstate].
  apply filter_In in Hitem. destruct Hitem as [_ Hkeys].
  apply andb_true_iff in Hkeys. destruct Hkeys as [Hz Hs].
  unfold Script.toWorkUnit. cbn [Script.unit_zipcode Script.unit_state].
  split; [|split].
  - destruct (Script.zipcode item) as [[|? ?]|]; discriminate.
  - destruct (Script.state item) as [[|? ?]|]; discriminate.
  - apply Hstate. exact Hs.
Qed.

Lemma selected_units_have_keys_witness :
  let table := js "zipcode,state,address,city" ++ [Script.newline]
               ++ js "10001,NY,," ++ [Script.newline] ++ js ",NY,,"
               ++ [Script.newline] ++ js "07001,NJ,," in
  let cfg := {| Script.TARGET_STATE := inl (js "NY");
                Script.SHARD_INDEX := 0; Script.TOTAL_SHARDS := 1;
                Script.MAX_RECORDS_PER_SHARD := 1000 |} in
  let units := [ {| Script.unit_zipcode := js "10001";
                    Script.unit_state := js "NY" |} ] in
  Forall (fun u => Script.unit_zipcode u <> []
                   /\ Script.unit_state u <> []
                   /\ wantsState (Script.TARGET_STATE cfg)
                        (Script.unit_state u))
         units.
Proof.
  intros table cfg units.
  apply (selected_units_have_keys cfg (fun _ => Some table) units).
  vm_compute. reflexivity.
Defined.

(** ** The retry wrapper: number of calls and waits *)

Lemma retryLoop_waits (extract : ParallelProcessor.extractor)
    (retries : nat) (zip st : jsstring) (left : nat) :
  forall lastError made waited,
    made + left = retries ->
    waited = List.map (fun a => 2000 * a)
               (seq 1 (Nat.min made (retries - 1))) ->
    let out := ParallelProcessor.retryLoop extract retries zip st left
                 lastError made waited in
    made <= ParallelProcessor.calls out <= retries
    /\ (0 < left -> made < ParallelProcessor.calls out)
    /\ ParallelProcessor.delays out
       = List.map (fun a => 2000 * a)
           (seq 1 (ParallelProcessor.calls out - 1)).
Proof.
  induction left as [|left IH]; intros lastError made waited Hsum Hw.
  - cbn [ParallelProcessor.retryLoop ParallelProcessor.calls
         ParallelProcessor.delays]. split; [lia|]. split; [lia|]. rewrite Hw.
    replace (Nat.min made (retries - 1)) with (made - 1) by lia.
    reflexivity.
  - cbn [ParallelProcessor.retryLoop].
    assert (Hatt : retries - left = S made) by lia. rewrite Hatt.
    assert (Hmin : Nat.min made (retries - 1) = made) by lia.
    assert (Hnext : forall w,
      w = (if Nat.ltb (S made) retries
           then waited ++ [2000 * S made] else waited) ->
      w = List.map (fun a => 2000 * a)
            (seq 1 (Nat.min (S made) (retries - 1)))).
    { intros w ->. rewrite Hw, Hmin.
      destruct (Nat.ltb (S made) retries) eqn:L.
      - apply Nat.ltb_lt in L.
        replace (Nat.min (S made) (retries - 1)) with (S made) by lia.
        rewrite seq_S, map_app. reflexivity.
      - apply Nat.ltb_ge in L.
        replace (Nat.min (S made) (retries - 1)) with made by lia.
        reflexivity. }
    assert (Hdone : S made - 1 = made) by lia.
    destruct (extract (S made)) as [r | t].
    + destruct (CsvUtils.valid r || eqb (CsvUtils.addressline r) _).
      { cbn [ParallelProcessor.calls ParallelProcessor.delays]. rewrite Hdone, Hw, Hmin. repeat split; lia. }
      destruct (Nat.ltb (S made) retries && truthy (CsvUtils.error r))
        eqn:C.
      * apply andb_true_iff in C. destruct C as [L _].
        destruct (IH lastError (S made) (waited ++ [2000 * S made]))
          as (Hc & _ & Hd); [lia | apply Hnext; rewrite L; reflexivity |].
        repeat split; try lia. exact Hd.
      * cbn [ParallelProcessor.calls ParallelProcessor.delays]. rewrite Hdone, Hw, Hmin. repeat split; lia.
    + destruct (IH (Some (ParallelProcessor.as_error t)) (S made)
                  (if Nat.ltb (S made) retries
                   then waited ++ [2000 * S made] else waited))
        as (Hc & _ & Hd); [lia | apply Hnext; reflexivity |].
      repeat split; try lia. exact Hd.
Qed.

(** X10: whatever the extractor does, [processWithRetry] calls it at most
    [retries] times (at least once when [retries] is positive), and before
    its k-th call, k >= 2, it has waited 2000 * (k - 1) milliseconds: the
    waits are 2000, 4000, ..., one per call but the last. *)
Theorem processWithRetry_calls_and_waits :
  forall (extract : ParallelProcessor.extractor) (retries : nat)
         (zip st : jsstring),
    ParallelProcessor.calls
      (ParallelProcessor.processWithRetry extract retries zip st) <= retries
    /\ (0 < retries ->
        0 < ParallelProcessor.calls
              (ParallelProcessor.processWithRetry extract retries zip st))
    /\ ParallelProcessor.delays
         (ParallelProcessor.processWithRetry extract retries zip st)
       = List.map (fun a => 2000 * a)
           (seq 1 (ParallelProcessor.calls
                     (ParallelProcessor.processWithRetry extract retries
                        zip st) - 1)).
Proof.
  intros extract retries zip st. unfold ParallelProcessor.processWithRetry.
  destruct (retryLoop_waits extract retries zip st retries None 0 [])
    as (Hc & Hp & Hd); [lia | reflexivity |].
  split; [lia|]. split; assumption.
Qed.

(** ** The batches of the parallel processor *)

Lemma chunkLoop_spec {A} (array : list A) (chunkSize : Z) :
  (1 <= chunkSize)%Z ->
  forall fuel n,
    List.length array - n <= fuel ->
    exists chunks,
      Batch.chunkLoop fuel array chunkSize (Z.of_nat n) = Some chunks
      /\ concat chunks = skipn n array
      /\ Forall (fun c => c <> [] /\ List.length c <= Z.to_nat chunkSize)
                chunks
      /\ (forall k, S k < List.length chunks ->
                    List.length (nth k chunks []) = Z.to_nat chunkSize)
      /\ (List.length array <= n -> chunks = []).
Proof.
  intro Hsize.
  assert (Hstop : forall fuel n,
            List.length array <= n ->
            Batch.chunkLoop fuel array chunkSize (Z.of_nat n) = Some []).
  { intros fuel n Hn.
    assert (E : (Z.of_nat n <? Z.of_nat (List.length array))%Z = false)
      by (apply Z.ltb_ge; lia).
    destruct fuel; cbn [Batch.chunkLoop]; rewrite E; reflexivity. }
  induction fuel as [|fuel IH]; intros n Hf.
  - exists []. rewrite Hstop by lia.
    split; [reflexivity|]. split; [|split; [constructor|split]].
    + rewrite skipn_all2 by lia. reflexivity.
    + simpl. intros k Hk. lia.
    + reflexivity.
  - destruct (le_lt_dec (List.length array) n) as [Hn | Hn].
    + exists []. rewrite Hstop by lia.
      split; [reflexivity|]. split; [|split; [constructor|split]].
      * rewrite skipn_all2 by lia. reflexivity.
      * simpl. intros k Hk. lia.
      * reflexivity.
    + cbn [Batch.chunkLoop].
      replace (Z.of_nat n <? Z.of_nat (List.length array))%Z with true
        by (symmetry; apply Z.ltb_lt; lia).
      replace (Z.of_nat n + chunkSize)%Z
        with (Z.of_nat (n + Z.to_nat chunkSize)) by lia.
      destruct (IH (n + Z.to_nat chunkSize) ltac:(lia))
        as (chunks & E & Hcat & Hall & Hfull & Hnil).
      rewrite E. eexists. split; [reflexivity|].
      rewrite slice_nonneg by lia.
      replace (Z.to_nat (Z.of_nat (n + Z.to_nat chunkSize))
               - Z.to_nat (Z.of_nat n)) with (Z.to_nat chunkSize) by lia.
      rewrite Nat2Z.id.
      assert (Hlen : List.length (firstn (Z.to_nat chunkSize)
                                    (skipn n array))
                     = Nat.min (Z.to_nat chunkSize)
                         (List.length array - n))
        by (rewrite length_firstn, length_skipn; reflexivity).
      split; [|split; [|split]].
      * cbn [concat]. rewrite Hcat.
        rewrite Nat.add_comm, <- skipn_skipn. apply firstn_skipn.
      * constructor; [|exact Hall]. split; [|lia].
        intro Hempty. rewrite Hempty in Hlen. simpl in Hlen. lia.
      * intros [|k] Hk.
        -- cbn [nth]. rewrite Hlen.
           destruct (le_lt_dec (List.length array)
                       (n + Z.to_nat chunkSize)) as [Hend | Hend];
             [|lia].
           rewrite (Hnil Hend) in Hk. simpl in Hk. lia.
        -- cbn [nth]. apply Hfull. simpl in Hk. lia.
      * intro Hge. lia.
Qed.

(** X11: with a chunk size of at least 1, [chunkArray] ends (any bound of
    at least [array.length] turns is enough) and cuts the array into
    consecutive chunks: their concatenation is the array, no chunk is
    empty or longer than the chunk size, and every chunk but the last has
    exactly the chunk size. *)
Theorem chunkArray_partition :
  forall (A : Type) (array : list A) (chunkSize : Z) (fuel : nat),
    (1 <= chunkSize)%Z ->
    List.length array <= fuel ->
    exists chunks,
      Batch.chunkArray fuel array chunkSize = Some chunks
      /\ concat chunks = array
      /\ Forall (fun c => c <> [] /\ List.length c <= Z.to_nat chunkSize)
                chunks
      /\ (forall k, S k < List.length chunks ->
                    List.length (nth k chunks []) = Z.to_nat chunkSize).
Proof.
  intros A array chunkSize fuel Hsize Hfuel. unfold Batch.chunkArray.
  destruct (chunkLoop_spec array chunkSize Hsize fuel 0 ltac:(lia))
    as (chunks & E & Hcat & Hall & Hfull & _).
  exists chunks. repeat split; assumption.
Qed.

Lemma chunkArray_partition_witness :
  exists chunks,
    Batch.chunkArray 5 [1; 2; 3; 4; 5] 2 = Some chunks
    /\ concat chunks = [1; 2; 3; 4; 5]
    /\ Forall (fun c => c <> [] /\ List.length c <= Z.to_nat 2) chunks
    /\ (forall k, S k < List.length chunks ->
                  List.length (nth k chunks []) = Z.to_nat 2).
Proof.
  apply (chunkArray_partition nat [1; 2; 3; 4; 5] 2%Z 5).
  - lia.
  - simpl. lia.
Defined.

Lemma chunkLoop_stuck {A} (array : list A) (chunkSize : Z) :
  (chunkSize <= 0)%Z ->
  forall fuel i,
    (i < Z.of_nat (List.length array))%Z ->
    Batch.chunkLoop fuel array chunkSize i = None.
Proof.
  intro Hsize. induction fuel as [|fuel IH]; intros i Hi;
    cbn [Batch.chunkLoop];
    replace (i <? Z.of_nat (List.length array))%Z with true
      by (symmetry; apply Z.ltb_lt; lia).
  - reflexivity.
  - rewrite IH by lia. reflexivity.
Qed.

(** X12: with a chunk size of zero or less, the loop of [chunkArray] on a
    non-empty array never ends: no bound on its turns is enough, and
    [processInParallel] does not reach its first batch. *)
Theorem chunkArray_diverges :
  forall (es : Batch.extractors) (maxConcurrency : Z) (retries : nat)
         (data : list Batch.ZipCodeData) (fuel : nat),
    (maxConcurrency <= 0)%Z ->
    data <> [] ->
    Batch.chunkArray fuel data maxConcurrency = None
    /\ Batch.processInParallel fuel es maxConcurrency retries data = None.
Proof.
  intros es maxConcurrency retries data fuel Hsize Hdata.
  assert (E : Batch.chunkArray fuel data maxConcurrency = None).
  { unfold Batch.chunkArray. apply chunkLoop_stuck; [exact Hsize|].
    destruct data; [contradiction | simpl; lia]. }
  split; [exact E|]. unfold Batch.processInParallel. rewrite E.
  reflexivity.
Qed.

Lemma chunkArray_diverges_witness :
  let es : Batch.extractors :=
    fun _ _ _ => ParallelProcessor.Rejects ParallelProcessor.OtherValue in
  let data := [ {| Batch.zipcode := js "10001"; Batch.state := js "NY" |} ] in
  Batch.chunkArray 100 data 0 = None
  /\ Batch.processInParallel 100 es 0 3 data = None.
Proof.
  intros es data. apply (chunkArray_diverges es 0%Z 3 data 100).
  - lia.
  - discriminate.
Defined.

Lemma batchFrom_global (es : Batch.extractors) (count retries q : nat)
    (chunk : list Batch.ZipCodeData) :
  forall index,
    Batch.batchFrom es count retries index chunk
    = List.map (handled es count retries)
        (combine (seq (q * count + index) (List.length chunk)) chunk).
Proof.
  induction chunk as [|item rest IH]; intro index; [reflexivity|].
  cbn [Batch.batchFrom List.length seq combine List.map].
  f_equal.
  - unfold handled. cbn [fst snd].
    rewrite (Nat.add_comm (q * count) index), Nat.Div0.mod_add.
    reflexivity.
  - rewrite IH. rewrite Nat.add_succ_r. reflexivity.
Qed.

Lemma combine_seq_app {A} (a b : list A) (off : nat) :
  combine (seq off (List.length (a ++ b))) (a ++ b)
  = combine (seq off (List.length a)) a
    ++ combine (seq (off + List.length a) (List.length b)) b.
Proof.
  revert off. induction a as [|x a IH]; intro off.
  - simpl. rewrite Nat.add_0_r. reflexivity.
  - cbn [List.length app seq combine]. f_equal. rewrite IH.
    rewrite Nat.add_succ_r. reflexivity.
Qed.

Lemma batches_global (es : Batch.extractors) (count retries : nat)
    (chunks : list (list Batch.ZipCodeData)) :
  (forall k, S k < List.length chunks ->
             List.length (nth k chunks []) = count) ->
  forall q,
    concat (List.map (Batch.batchFrom es count retries 0) chunks)
    = List.map (handled es count retries)
        (combine (seq (q * count) (List.length (concat chunks)))
                 (concat chunks)).
Proof.
  induction chunks as [|c rest IH]; intros Hfull q; [reflexivity|].
  cbn [List.map concat]. rewrite combine_seq_app, map_app. f_equal.
  - rewrite (batchFrom_global es count retries q c 0), Nat.add_0_r.
    reflexivity.
  - destruct rest as [|c' rest'] eqn:R; [reflexivity|]. rewrite <- R in *.
    assert (Hc : List.length c = count)
      by (apply (Hfull 0); rewrite R; simpl; lia).
    rewrite Hc. replace (q * count + count) with (S q * count) by lia.
    apply IH. intros k Hk. apply (Hfull (S k)). simpl. lia.
Qed.

Lemma runBatches_results (es : Batch.extractors)
    (count retries total : nat) (chunks : list (list Batch.ZipCodeData)) :
  forall i acc,
    Batch.results (Batch.runBatches es count retries total i chunks acc)
    = Batch.results acc
      ++ concat (List.map (Batch.batchFrom es count retries 0) chunks).
Proof.
  induction chunks as [|c rest IH]; intros i acc.
  - simpl. rewrite app_nil_r. reflexivity.
  - cbn [Batch.runBatches List.map concat]. rewrite IH.
    cbn [Batch.results]. rewrite app_assoc. reflexivity.
Qed.

Lemma runBatches_last_save (es : Batch.extractors)
    (count retries total : nat) (chunks : list (list Batch.ZipCodeData)) :
  forall i acc,
    chunks <> [] ->
    i + List.length chunks = total ->
    last (Batch.saved (Batch.runBatches es count retries total i chunks acc))
         []
    = Batch.results (Batch.runBatches es count retries total i chunks acc).
Proof.
  induction chunks as [|c rest IH]; intros i acc Hne Hi; [contradiction|].
  cbn [Batch.runBatches]. destruct rest as [|c' rest'] eqn:R.
  - cbn [Batch.runBatches Batch.saved Batch.results].
    replace (Nat.eqb i (total - 1)) with true
      by (symmetry; apply Nat.eqb_eq; simpl in Hi; lia).
    rewrite orb_true_r. apply last_last.
  - rewrite <- R in *. apply IH.
    + rewrite R. discriminate.
    + simpl in Hi. lia.
Qed.

(** X13: with [maxConcurrency] of at least 1, [processInParallel] returns
    one result per unit, in the order of the data; unit number [j] is
    handled by extractor number [j mod maxConcurrency]; and when there is
    data, the last call of the save callback gets exactly the results that
    are returned. *)
Theorem processInParallel_results :
  forall (es : Batch.extractors) (maxConcurrency : Z) (retries : nat)
         (data : list Batch.ZipCodeData) (fuel : nat),
    (1 <= maxConcurrency)%Z ->
    List.length data <= fuel ->
    exists p,
      Batch.processInParallel fuel es maxConcurrency retries data = Some p
      /\ Batch.results p
         = List.map (handled es (Z.to_nat maxConcurrency) retries)
             (combine (seq 0 (List.length data)) data)
      /\ List.length (Batch.results p) = List.length data
      /\ (data <> [] -> last (Batch.saved p) [] = Batch.results p).
Proof.
  intros es maxConcurrency retries data fuel Hsize Hfuel.
  unfold Batch.processInParallel, Batch.chunkArray.
  destruct (chunkLoop_spec data maxConcurrency Hsize fuel 0 ltac:(lia))
    as (chunks & E & Hcat & _ & Hfull & _).
  change (Z.of_nat 0) with 0%Z in E.
  rewrite E. eexists. split; [reflexivity|].
  assert (R : Batch.results
                (Batch.runBatches es (Z.to_nat maxConcurrency) retries
                   (List.length chunks) 0 chunks
                   {| Batch.results := []; Batch.saved := [] |})
              = List.map (handled es (Z.to_nat maxConcurrency) retries)
                  (combine (seq 0 (List.length data)) data)).
  { rewrite runBatches_results. cbn [Batch.results app].
    rewrite (batches_global es (Z.to_nat maxConcurrency) retries chunks
               Hfull 0).
    cbn [skipn] in Hcat. rewrite Hcat. reflexivity. }
  split; [exact R|]. split.
  - rewrite R, length_map, length_combine, length_seq. lia.
  - intro Hdata. apply runBatches_last_save; [|reflexivity].
    intros ->. cbn [concat skipn] in Hcat. congruence.
Qed.

Lemma processInParallel_results_witness :
  let es : Batch.extractors :=
    fun _ _ _ => ParallelProcessor.Rejects ParallelProcessor.OtherValue in
  let data := [ {| Batch.zipcode := js "10001"; Batch.state := js "NY" |};
                {| Batch.zipcode := js "10002"; Batch.state := js "NY" |};
                {| Batch.zipcode := js "07001"; Batch.state := js "NJ" |} ] in
  exists p,
    Batch.processInParallel 3 es 2 1 data = Some p
    /\ Batch.results p
       = List.map (handled es (Z.to_nat 2) 1)
           (combine (seq 0 (List.length data)) data)
    /\ List.length (Batch.results p) = List.length data
    /\ (data <> [] -> last (Batch.saved p) [] = Batch.results p).
Proof.
  intros es data. apply (processInParallel_results es 2%Z 1 data 3).
  - lia.
  - simpl. lia.
Defined.

(** ** The repair of the table: [initializeCSVHeaders] *)

Lemma split_app (d : cu) (a b : jsstring) :
  split d (a ++ d :: b) = split d a ++ split d b.
Proof.
  induction a as [|c t IH].
  - cbn [app split]. rewrite N.eqb_refl. reflexivity.
  - cbn [app]. rewrite !split_cons_eq. destruct (c =? d)%N.
    + rewrite IH. reflexivity.
    + rewrite IH. destruct (split d t) as [|h r] eqn:E.
      * exfalso. exact (split_not_nil d t E).
      * reflexivity.
Qed.

Lemma join_snoc (d : jsstring) (parts : list jsstring) (x : jsstring) :
  parts <> [] -> join d (parts ++ [x]) = join d parts ++ d ++ x.
Proof.
  induction parts as [|p rest IH]; intro Hne; [contradiction|].
  destruct rest as [|q rest']; [reflexivity|].
  change (join d ((p :: q :: rest') ++ [x]))
    with (p ++ d ++ join d ((q :: rest') ++ [x])).
  rewrite IH by discriminate.
  change (join d (p :: q :: rest')) with (p ++ d ++ join d (q :: rest')).
  rewrite <- !app_assoc. reflexivity.
Qed.

Lemma not_blank (s : jsstring) (c : cu) :
  In c s -> is_space c = false -> Script.is_blank_string s = false.
Proof.
  intros Hin Hc. unfold Script.is_blank_string.
  destruct (trim s) eqn:E; [|reflexivity].
  apply trim_nil in E. rewrite forallb_forall in E.
  rewrite (E c Hin) in Hc. discriminate.
Qed.

Lemma eqb_neq (a b : jsstring) : eqb a b = false <-> a <> b.
Proof.
  split.
  - intros H Heq. apply eqb_eq in Heq. congruence.
  - intro H. destruct (eqb a b) eqn:E; [|reflexivity].
    apply eqb_eq in E. contradiction.
Qed.

(** What one turn of the loop over the rows does: a row is dropped, gets
    [,"",""] or [,""] appended, or is kept as it is. *)
Lemma cleanRow_shape (line : jsstring) (updated : bool) (kept : jsstring) :
  Repair.cleanRow line = Some (updated, kept) ->
  Script.is_blank_string line = false
  /\ nth 0 (split Script.comma line) [] <> []
  /\ nth 0 (split Script.comma line) [] <> Repair.emptyQuoted
  /\ ((List.length (split Script.comma line) = 2 /\ updated = true
       /\ kept = line ++ [Script.comma] ++ Repair.emptyQuoted
                 ++ [Script.comma] ++ Repair.emptyQuoted)
      \/ (List.length (split Script.comma line) = 3 /\ updated = true
          /\ kept = line ++ [Script.comma] ++ Repair.emptyQuoted)
      \/ (List.length (split Script.comma line) <> 2
          /\ List.length (split Script.comma line) <> 3
          /\ updated = false /\ kept = line)).
Proof.
  unfold Repair.cleanRow.
  destruct (Script.is_blank_string line); [discriminate|].
  destruct (eqb (nth 0 (split Script.comma line) []) []) eqn:E0;
    [discriminate|].
  destruct (eqb (nth 0 (split Script.comma line) []) Repair.emptyQuoted)
    eqn:E1; [discriminate|].
  apply eqb_neq in E0. apply eqb_neq in E1. cbn [orb].
  pose proof (split_not_nil Script.comma line) as Hne.
  destruct (Nat.eqb (List.length (split Script.comma line)) 2) eqn:L2.
  - apply Nat.eqb_eq in L2. intro H. injection H as <- <-.
    repeat (split; [first [reflexivity | assumption]|]).
    left. repeat (split; [first [reflexivity | assumption]|]).
    change (split Script.comma line
            ++ [Repair.emptyQuoted; Repair.emptyQuoted])
      with (split Script.comma line
            ++ [Repair.emptyQuoted] ++ [Repair.emptyQuoted]).
    rewrite app_assoc.
    rewrite join_snoc by (intro H; apply app_eq_nil in H;
                          destruct H; discriminate).
    rewrite join_snoc by assumption.
    rewrite join_split, <- !app_assoc. reflexivity.
  - destruct (Nat.eqb (List.length (split Script.comma line)) 3) eqn:L3.
    + apply Nat.eqb_eq in L3. intro H. injection H as <- <-.
      repeat (split; [first [reflexivity | assumption]|]).
      right. left. repeat (split; [first [reflexivity | assumption]|]).
      rewrite join_snoc by assumption. rewrite join_split. reflexivity.
    + apply Nat.eqb_neq in L2. apply Nat.eqb_neq in L3.
      intro H. injection H as <- <-.
      repeat (split; [first [reflexivity | assumption]|]).
      right. right. rewrite join_split. repeat split; assumption.
Qed.

Lemma wellFormed_iff (line : jsstring) :
  wellFormedRow line <-> Repair.cleanRow line = Some (false, line).
Proof.
  split.
  - intros (Hb & H0 & H1 & H2 & H3). unfold Repair.cleanRow.
    rewrite Hb.
    apply eqb_neq in H0. apply eqb_neq in H1. rewrite H0, H1. cbn [orb].
    apply Nat.eqb_neq in H2. apply Nat.eqb_neq in H3. rewrite H2, H3.
    rewrite join_split. reflexivity.
  - intro H. apply cleanRow_shape in H.
    destruct H as (Hb & H0 & H1 & [(_ & U & _) | [(_ & U & _) | H]]);
      try discriminate.
    destruct H as (H2 & H3 & _ & _). repeat split; assumption.
Qed.

Lemma nth_0_app (a b : list jsstring) :
  a <> [] -> nth 0 (a ++ b) [] = nth 0 a [].
Proof. destruct a; [contradiction | reflexivity]. Qed.

Lemma cleanRow_kept (line : jsstring) (updated : bool) (kept : jsstring) :
  Repair.cleanRow line = Some (updated, kept) ->
  wellFormedRow kept
  /\ (~ In Script.newline line -> ~ In Script.newline kept)
  /\ (updated = false -> kept = line)
  /\ (updated = true -> kept <> line).
Proof.
  intro H. pose proof (cleanRow_shape _ _ _ H) as S.
  destruct S as (Hb & H0 & H1 & Hcase).
  pose proof (split_not_nil Script.comma line) as Hne.
  assert (Hq : forall s, Script.is_blank_string
                 (s ++ [Script.comma] ++ Repair.emptyQuoted) = false).
  { intro s. apply (not_blank _ Script.comma); [|reflexivity].
    apply in_or_app. right. left. reflexivity. }
  destruct Hcase as [(L & -> & ->) | [(L & -> & ->) | (L2 & L3 & -> & ->)]].
  - split; [|split; [|split]].
    + unfold wellFormedRow.
      replace (line ++ [Script.comma] ++ Repair.emptyQuoted
               ++ [Script.comma] ++ Repair.emptyQuoted)
        with ((line ++ [Script.comma] ++ Repair.emptyQuoted)
              ++ [Script.comma] ++ Repair.emptyQuoted)
        by (rewrite <- !app_assoc; reflexivity).
      split; [apply Hq|].
      cbn [app]. rewrite !split_app.
      change (split Script.comma Repair.emptyQuoted)
        with [Repair.emptyQuoted].
      rewrite <- app_assoc, nth_0_app by assumption.
      rewrite !length_app, L. cbn [List.length].
      repeat split; first [assumption | lia].
    + intros Hfree Hin. apply Hfree.
      apply in_app_or in Hin. destruct Hin as [Hin | Hin]; [exact Hin|].
      vm_compute in Hin. intuition discriminate.
    + discriminate.
    + intros _ Heq.
      apply (f_equal (@List.length cu)) in Heq.
      rewrite !length_app in Heq. simpl in Heq. lia.
  - split; [|split; [|split]].
    + unfold wellFormedRow. split; [apply Hq|].
      cbn [app]. rewrite !split_app.
      change (split Script.comma Repair.emptyQuoted)
        with [Repair.emptyQuoted].
      rewrite nth_0_app by assumption.
      rewrite !length_app, L. cbn [List.length].
      repeat split; first [assumption | lia].
    + intros Hfree Hin. apply Hfree.
      apply in_app_or in Hin. destruct Hin as [Hin | Hin]; [exact Hin|].
      vm_compute in Hin. intuition discriminate.
    + discriminate.
    + intros _ Heq.
      apply (f_equal (@List.length cu)) in Heq.
      rewrite !length_app in Heq. simpl in Heq. lia.
  - split; [|split; [|split]].
    + repeat split; assumption.
    + auto.
    + reflexivity.
    + discriminate.
Qed.

Lemma cleanRows_cons (line : jsstring) (rest : list jsstring) :
  Repair.cleanRows (line :: rest)
  = match Repair.cleanRow line with
    | None => Repair.cleanRows rest
    | Some (updated, kept) =>
        ((if updated then S (fst (Repair.cleanRows rest))
          else fst (Repair.cleanRows rest)),
         kept :: snd (Repair.cleanRows rest))
    end.
Proof.
  cbn [Repair.cleanRows]. destruct (Repair.cleanRows rest) as [n l].
  destruct (Repair.cleanRow line) as [[u k]|]; reflexivity.
Qed.

Lemma cleanRows_kept (rows : list jsstring) :
  Forall wellFormedRow (snd (Repair.cleanRows rows))
  /\ (Forall (fun r => ~ In Script.newline r) rows ->
      Forall (fun r => ~ In Script.newline r) (snd (Repair.cleanRows rows)))
  /\ List.length (snd (Repair.cleanRows rows)) <= List.length rows.
Proof.
  induction rows as [|line rest (IHw & IHf & IHl)].
  - repeat split; [constructor | auto | simpl; lia].
  - rewrite cleanRows_cons.
    destruct (Repair.cleanRow line) as [[u k]|] eqn:E.
    + destruct (cleanRow_kept _ _ _ E) as (Hw & Hf & _).
      cbn [snd List.length]. repeat split.
      * constructor; assumption.
      * intro H. inversion H; subst. constructor; auto.
      * lia.
    + repeat split.
      * assumption.
      * intro H. inversion H; subst. auto.
      * simpl. lia.
Qed.

Lemma cleanRows_fixed (rows : list jsstring) :
  Forall wellFormedRow rows -> Repair.cleanRows rows = (0, rows).
Proof.
  induction 1 as [|line rest Hw _ IH]; [reflexivity|].
  rewrite cleanRows_cons. apply wellFormed_iff in Hw. rewrite Hw, IH.
  reflexivity.
Qed.

Lemma cleanRows_unchanged (rows : list jsstring) :
  fst (Repair.cleanRows rows) = 0 ->
  List.length (snd (Repair.cleanRows rows)) = List.length rows ->
  Forall wellFormedRow rows.
Proof.
  induction rows as [|line rest IH]; [constructor|].
  rewrite cleanRows_cons.
  pose proof (cleanRows_kept rest) as (_ & _ & Hl).
  destruct (Repair.cleanRow line) as [[u k]|] eqn:E.
  - cbn [fst snd List.length]. intros Hu Hlen.
    destruct u; [discriminate|].
    destruct (cleanRow_kept _ _ _ E) as (Hw & _ & Hk & _).
    rewrite (Hk eq_refl) in Hw.
    constructor; [exact Hw|]. apply IH; [exact Hu | lia].
  - intros _ Hlen. simpl in Hlen. lia.
Qed.

(** The lines of the table after the header is looked at. *)
Lemma header_fixed (lines : list jsstring) :
  lines <> [] ->
  let lines1 :=
    if negb (includes (js "address")
               (split Script.comma (nth 0 lines [])))
       || negb (includes (js "city")
                  (split Script.comma (nth 0 lines [])))
    then Script.set_at 0 Script.canonicalHeader lines else lines in
  tl lines1 = tl lines
  /\ List.length lines1 = List.length lines
  /\ negb (includes (js "address")
             (split Script.comma (nth 0 lines1 [])))
     || negb (includes (js "city")
                (split Script.comma (nth 0 lines1 []))) = false
  /\ ((forall r, In r lines -> ~ In Script.newline r) ->
      ~ In Script.newline (nth 0 lines1 [])).
Proof.
  intros Hne lines1. unfold lines1.
  destruct lines as [|h t]; [contradiction|].
  destruct (negb _ || negb _) eqn:C.
  - cbn [Script.set_at tl List.length nth].
    repeat split. intros _ Hin. vm_compute in Hin.
    repeat (destruct Hin as [Hin | Hin]; [discriminate|]). exact Hin.
  - repeat split; [exact C|].
    intros Hfree. apply Hfree. left. reflexivity.
Qed.

Lemma In_split_free (d : cu) (s r : jsstring) :
  In r (split d s) -> ~ In d r.
Proof.
  intro Hin. pose proof (split_parts_free d s) as H.
  rewrite Forall_forall in H. apply H. exact Hin.
Qed.

(** The file of the table after the repair of an existing table: either
    the table is left alone, and then all its rows are well formed, or it
    is rewritten with a header and well-formed rows that split back. *)
Lemma initializeCSVHeaders_cases (cfg : Script.config) (fs : Script.files)
    (content : jsstring) :
  fs (Script.csvFilePath cfg) = Some content ->
  (Repair.initializeCSVHeaders cfg fs = fs
   /\ Forall wellFormedRow (tl (split Script.newline content)))
  \/ (exists header rows,
        Repair.initializeCSVHeaders cfg fs
        = Script.writeFileSync fs (Script.csvFilePath cfg)
            (join [Script.newline] (header :: rows))
        /\ split Script.newline (join [Script.newline] (header :: rows))
           = header :: rows
        /\ Forall wellFormedRow rows
        /\ negb (includes (js "address") (split Script.comma header))
           || negb (includes (js "city") (split Script.comma header))
           = false
        /\ header :: rows <> split Script.newline content).
Proof.
  intro H. unfold Repair.initializeCSVHeaders. rewrite H.
  set (lines := split Script.newline content).
  assert (Hne : lines <> []) by apply split_not_nil.
  assert (Hfree : forall r, In r lines -> ~ In Script.newline r)
    by (intros r Hr; exact (In_split_free _ _ _ Hr)).
  destruct (header_fixed lines Hne) as (T & L & Hh & Hhf).
  set (lines1 :=
         if negb (includes (js "address")
                    (split Script.comma (nth 0 lines [])))
            || negb (includes (js "city")
                       (split Script.comma (nth 0 lines [])))
         then Script.set_at 0 Script.canonicalHeader lines else lines) in *.
  destruct (Repair.cleanRows (tl lines1)) as [updatedRows cleanedRows] eqn:E.
  pose proof (cleanRows_kept (tl lines1)) as (Hw & Hf & Hl).
  rewrite E in Hw, Hf, Hl. cbn [snd] in Hw, Hf, Hl.
  destruct (Nat.ltb 0 updatedRows
            || negb (Nat.eqb (List.length (nth 0 lines1 [] :: cleanedRows))
                             (List.length lines1))) eqn:W.
  - right. exists (nth 0 lines1 []), cleanedRows.
    split; [reflexivity|]. split; [|split; [exact Hw|split; [exact Hh|]]].
    + apply split_join; [discriminate|].
      constructor; [apply Hhf; exact Hfree|].
      apply Hf. rewrite T. apply Forall_forall. intros r Hr.
      apply Hfree. destruct lines; [contradiction | right; exact Hr].
    + intro Heq.
      assert (Hrows : cleanedRows = tl lines)
        by (rewrite <- Heq; reflexivity).
      apply orb_true_iff in W. destruct W as [W | W].
      * apply Nat.ltb_lt in W.
        assert (Hfix : Repair.cleanRows (tl lines1) = (0, tl lines1)).
        { apply cleanRows_fixed. rewrite T, <- Hrows. exact Hw. }
        rewrite Hfix in E. injection E as E _. lia.
      * apply negb_true_iff, Nat.eqb_neq in W. apply W.
        rewrite L, <- Heq. reflexivity.
  - left. split; [reflexivity|].
    apply orb_false_iff in W. destruct W as [W1 W2].
    apply Nat.ltb_ge in W1. apply negb_false_iff, Nat.eqb_eq in W2.
    rewrite <- T. apply cleanRows_unchanged; rewrite E; cbn [fst snd].
    + lia.
    + cbn [List.length] in W2. destruct lines1; simpl in *; lia.
Qed.

Lemma initializeCSVHeaders_fixed (cfg : Script.config) (fs : Script.files)
    (content : jsstring) :
  fs (Script.csvFilePath cfg) = Some content ->
  Forall wellFormedRow (tl (split Script.newline content)) ->
  Repair.initializeCSVHeaders cfg fs = fs.
Proof.
  intros H Hw. unfold Repair.initializeCSVHeaders. rewrite H.
  destruct (header_fixed (split Script.newline content)
              (split_not_nil Script.newline content)) as (T & L & _ & _).
  cbv zeta in T, L. rewrite T, (cleanRows_fixed _ Hw).
  cbn [List.length]. rewrite L.
  replace (Nat.eqb (S (List.length (tl (split Script.newline content))))
                   (List.length (split Script.newline content)))
    with true; [reflexivity|].
  symmetry. apply Nat.eqb_eq.
  pose proof (split_not_nil Script.newline content).
  destruct (split Script.newline content); [contradiction | reflexivity].
Qed.

(** X14: after [initializeCSVHeaders] on an existing table, every data row
    of the stored table is well formed: it is not blank, its first field
    is neither empty nor [""], and it has neither 2 nor 3 fields. *)
Theorem repaired_rows_are_well_formed :
  forall (cfg : Script.config) (fs : Script.files) (content : jsstring),
    fs (Script.csvFilePath cfg) = Some content ->
    exists content',
      Repair.initializeCSVHeaders cfg fs (Script.csvFilePath cfg)
      = Some content'
      /\ Forall wellFormedRow (tl (split Script.newline content')).
Proof.
  intros cfg fs content H.
  destruct (initializeCSVHeaders_cases cfg fs content H)
    as [(E & Hw) | (header & rows & E & Hsplit & Hw & _)].
  - exists content. rewrite E. split; assumption.
  - exists (join [Script.newline] (header :: rows)). rewrite E.
    unfold Script.writeFileSync. rewrite path_eqb_refl.
    split; [reflexivity|]. rewrite Hsplit. exact Hw.
Qed.

Lemma repaired_rows_are_well_formed_witness :
  let table := js "zipcode,state" ++ [Script.newline]
               ++ js "10001,NY" ++ [Script.newline] ++ js ",NY"
               ++ [Script.newline] in
  let cfg := {| Script.TARGET_STATE := inl (js "ALL");
                Script.SHARD_INDEX := 0; Script.TOTAL_SHARDS := 1;
                Script.MAX_RECORDS_PER_SHARD := 1000 |} in
  exists content',
    Repair.initializeCSVHeaders cfg (fun _ => Some table)
      (Script.csvFilePath cfg) = Some content'
    /\ Forall wellFormedRow (tl (split Script.newline content')).
Proof.
  intros table cfg.
  apply (repaired_rows_are_well_formed cfg (fun _ => Some table) table).
  reflexivity.
Defined.

(** X15: [initializeCSVHeaders] leaves an existing table alone exactly when
    all its data rows are well formed, whatever its header is: a header
    without the address and city columns is replaced in memory only, and
    is not written unless some row is dropped or padded. *)
Theorem repair_rewrites_for_rows_only :
  forall (cfg : Script.config) (fs : Script.files) (content : jsstring),
    fs (Script.csvFilePath cfg) = Some content ->
    (Repair.initializeCSVHeaders cfg fs (Script.csvFilePath cfg)
     = Some content
     <-> Forall wellFormedRow (tl (split Script.newline content))).
Proof.
  intros cfg fs content H. split.
  - intro Hsame.
    destruct (initializeCSVHeaders_cases cfg fs content H)
      as [(_ & Hw) | (header & rows & E & Hsplit & _ & _ & Hdiff)];
      [exact Hw|].
    exfalso. apply Hdiff. rewrite E in Hsame.
    unfold Script.writeFileSync in Hsame. rewrite path_eqb_refl in Hsame.
    injection Hsame as Hsame. rewrite <- Hsame. symmetry. exact Hsplit.
  - intro Hw. rewrite (initializeCSVHeaders_fixed cfg fs content H Hw).
    exact H.
Qed.

Lemma repair_rewrites_for_rows_only_witness :
  let table := js "zip,st" ++ [Script.newline] ++ js "10001,NY,," in
  let cfg := {| Script.TARGET_STATE := inl (js "ALL");
                Script.SHARD_INDEX := 0; Script.TOTAL_SHARDS := 1;
                Script.MAX_RECORDS_PER_SHARD := 1000 |} in
  Repair.initializeCSVHeaders cfg (fun _ => Some table)
    (Script.csvFilePath cfg) = Some table
  <-> Forall wellFormedRow (tl (split Script.newline table)).
Proof.
  intros table cfg.
  apply (repair_rewrites_for_rows_only cfg (fun _ => Some table) table).
  reflexivity.
Defined.

(** X16: [initializeCSVHeaders] is idempotent, unless it is the run that
    creates the table of a shard: when the table exists, or the run is not
    sharded, a second repair changes nothing. *)
Theorem initializeCSVHeaders_idempotent :
  forall (cfg : Script.config) (fs : Script.files),
    fs (Script.csvFilePath cfg) <> None
    \/ (Script.TOTAL_SHARDS cfg <= 1)%Z ->
    Repair.initializeCSVHeaders cfg (Repair.initializeCSVHeaders cfg fs)
    = Repair.initializeCSVHeaders cfg fs.
Proof.
  intros cfg fs Hcase.
  destruct (fs (Script.csvFilePath cfg)) as [content|] eqn:H.
  - destruct (initializeCSVHeaders_cases cfg fs content H)
      as [(E & _) | (header & rows & E & Hsplit & Hw & _)].
    + rewrite E. exact E.
    + rewrite E.
      apply (initializeCSVHeaders_fixed cfg _
               (join [Script.newline] (header :: rows))).
      * unfold Script.writeFileSync. rewrite path_eqb_refl. reflexivity.
      * rewrite Hsplit. exact Hw.
  - destruct Hcase as [Hcase | Hcase]; [contradiction|].
    assert (E : Repair.initializeCSVHeaders cfg fs = fs).
    { unfold Repair.initializeCSVHeaders. rewrite H.
      replace (Script.TOTAL_SHARDS cfg >? 1)%Z with false
        by (symmetry; rewrite Z.gtb_ltb; apply Z.ltb_ge; exact Hcase).
      reflexivity. }
    rewrite E. exact E.
Qed.

Lemma initializeCSVHeaders_idempotent_witness :
  let table := js "zipcode,state" ++ [Script.newline]
               ++ js "10001,NY" ++ [Script.newline] in
  let cfg := {| Script.TARGET_STATE := inl (js "ALL");
                Script.SHARD_INDEX := 0; Script.TOTAL_SHARDS := 1;
                Script.MAX_RECORDS_PER_SHARD := 1000 |} in
  let fs : Script.files := fun _ => Some table in
  Repair.initializeCSVHeaders cfg (Repair.initializeCSVHeaders cfg fs)
  = Repair.initializeCSVHeaders cfg fs.
Proof.
  intros table cfg fs. apply (initializeCSVHeaders_idempotent cfg fs).
  left. discriminate.
Defined.

(** X17: in a sharded run whose shard table does not exist yet,
    [initializeCSVHeaders] creates it with the header line only; no row is
    ever found in it, so [updateFinalCSV] and [processZipCode] store
    nothing, whatever the page gives; and a second repair rewrites the
    table without its final line break. *)
Theorem fresh_shard_stores_nothing :
  forall (pg : Script.page) (cfg : Script.config) (fs : Script.files)
         (zipcode state : jsstring),
    (1 < Script.TOTAL_SHARDS cfg)%Z ->
    fs (Script.csvFilePath cfg) = None ->
    Repair.initializeCSVHeaders cfg fs (Script.csvFilePath cfg)
    = Some (Script.canonicalHeader ++ [Script.newline])
    /\ (forall addressLine city,
          Script.updateFinalCSV cfg (Repair.initializeCSVHeaders cfg fs)
            zipcode state addressLine city
          = Repair.initializeCSVHeaders cfg fs)
    /\ Script.processZipCode pg cfg (Repair.initializeCSVHeaders cfg fs)
         zipcode state
       = Repair.initializeCSVHeaders cfg fs
    /\ Repair.initializeCSVHeaders cfg (Repair.initializeCSVHeaders cfg fs)
         (Script.csvFilePath cfg)
       = Some Script.canonicalHeader.
Proof.
  intros pg cfg fs zipcode state Hshards Hmissing.
  assert (E : Repair.initializeCSVHeaders cfg fs
              = Script.writeFileSync fs (Script.csvFilePath cfg)
                  (Script.canonicalHeader ++ [Script.newline])).
  { unfold Repair.initializeCSVHeaders. rewrite Hmissing.
    replace (Script.TOTAL_SHARDS cfg >? 1)%Z with true
      by (symmetry; rewrite Z.gtb_ltb; apply Z.ltb_lt; exact Hshards).
    reflexivity. }
  rewrite E.
  assert (Hfile : Script.writeFileSync fs (Script.csvFilePath cfg)
                    (Script.canonicalHeader ++ [Script.newline])
                    (Script.csvFilePath cfg)
                  = Some (Script.canonicalHeader ++ [Script.newline]))
    by (unfold Script.writeFileSync; rewrite path_eqb_refl; reflexivity).
  assert (Hupdate : forall addressLine city,
            Script.updateFinalCSV cfg
              (Script.writeFileSync fs (Script.csvFilePath cfg)
                 (Script.canonicalHeader ++ [Script.newline]))
              zipcode state addressLine city
            = Script.writeFileSync fs (Script.csvFilePath cfg)
                (Script.canonicalHeader ++ [Script.newline])).
  { intros addressLine city. unfold Script.updateFinalCSV.
    rewrite Hfile. reflexivity. }
  split; [exact Hfile|]. split; [exact Hupdate|]. split.
  - unfold Script.processZipCode.
    destruct (Script.resolveUnit pg zipcode state); apply Hupdate.
  - unfold Repair.initializeCSVHeaders at 1. rewrite Hfile.
    change (split Script.newline
              (Script.canonicalHeader ++ [Script.newline]))
      with [Script.canonicalHeader; []].
    cbv zeta. cbn [nth].
    change (negb (includes (js "address")
                    (split Script.comma Script.canonicalHeader))
            || negb (includes (js "city")
                       (split Script.comma Script.canonicalHeader)))
      with false.
    cbv iota.
    change (Repair.cleanRows (tl [Script.canonicalHeader; []]))
      with (0, @nil jsstring).
    cbv iota beta. cbn [List.length Nat.ltb Nat.leb Nat.eqb negb orb join].
    unfold Script.writeFileSync at 1. rewrite path_eqb_refl. reflexivity.
Qed.

Lemma fresh_shard_stores_nothing_witness :
  let cfg := {| Script.TARGET_STATE := inl (js "ALL");
                Script.SHARD_INDEX := 2; Script.TOTAL_SHARDS := 4;
                Script.MAX_RECORDS_PER_SHARD := 1000 |} in
  let fs : Script.files := fun _ => None in
  let pg : Script.page := fun _ => Script.Returned [] in
  Repair.initializeCSVHeaders cfg fs (Script.csvFilePath cfg)
  = Some (Script.canonicalHeader ++ [Script.newline])
  /\ (forall addressLine city,
        Script.updateFinalCSV cfg (Repair.initializeCSVHeaders cfg fs)
          (js "10001") (js "NY") addressLine city
        = Repair.initializeCSVHeaders cfg fs)
  /\ Script.processZipCode pg cfg (Repair.initializeCSVHeaders cfg fs)
       (js "10001") (js "NY")
     = Repair.initializeCSVHeaders cfg fs
  /\ Repair.initializeCSVHeaders cfg (Repair.initializeCSVHeaders cfg fs)
       (Script.csvFilePath cfg)
     = Some Script.canonicalHeader.
Proof.
  intros cfg fs pg.
  apply (fresh_shard_stores_nothing pg cfg fs (js "10001") (js "NY")).
  - reflexivity.
  - reflexivity.
Defined.

(** ** The update of the table, twice *)

Lemma findRow_Some (zipcode state : jsstring) (rows : list jsstring) :
  forall i k,
    Script.findRow zipcode state i rows = Some k ->
    exists r,
      k = i + r /\ r < List.length rows
      /\ rowMatches zipcode state (nth r rows []) = true
      /\ (forall j, j < r ->
                    rowMatches zipcode state (nth j rows []) = false).
Proof.
  induction rows as [|line rest IH]; intros i k H; [discriminate|].
  rewrite findRow_step in H.
  destruct (rowMatches zipcode state line) eqn:M.
  - injection H as <-. exists 0. repeat split.
    + lia.
    + simpl. lia.
    + exact M.
    + intros j Hj. lia.
  - destruct (IH _ _ H) as (r & -> & Hr & Hm & Hbefore).
    exists (S r). repeat split.
    + lia.
    + simpl. lia.
    + exact Hm.
    + intros [|j] Hj; [exact M|]. apply Hbefore. lia.
Qed.

Lemma set_at_twice {A} (i : nat) (x y : A) (l : list A) :
  Script.set_at i x (Script.set_at i y l) = Script.set_at i x l.
Proof.
  revert i. induction l as [|h t IH]; intros [|i]; simpl;
    try reflexivity.
  rewrite IH. reflexivity.
Qed.

Lemma nth_set_at_same {A} (i : nat) (x d : A) (l : list A) :
  i < List.length l -> nth i (Script.set_at i x l) d = x.
Proof.
  revert i. induction l as [|h t IH]; intros [|i] Hi; simpl in *;
    try lia; [reflexivity|].
  apply IH. lia.
Qed.

Lemma Forall_set_at {A} (P : A -> Prop) (i : nat) (x : A) (l : list A) :
  Forall P l -> P x -> Forall P (Script.set_at i x l).
Proof.
  intros Hl Hx. revert i. induction Hl as [|h t Hh Ht IH]; intros [|i];
    simpl; constructor; auto.
Qed.

Lemma header_fixed_free (d : cu) (lines : list jsstring) :
  ~ In d Script.canonicalHeader ->
  Forall (fun r => ~ In d r) lines ->
  Forall (fun r => ~ In d r)
    (if negb (includes (js "address")
                (split Script.comma (nth 0 lines [])))
        || negb (includes (js "city")
                   (split Script.comma (nth 0 lines [])))
     then Script.set_at 0 Script.canonicalHeader lines else lines).
Proof.
  intros Hd H. destruct (negb _ || negb _); [|exact H].
  apply Forall_set_at; assumption.
Qed.

Lemma key_fields_inside (line zipcode state : jsstring)
    (rest : list jsstring) (x : cu) :
  split Script.comma line = zipcode :: state :: rest ->
  In x zipcode \/ In x state -> In x line.
Proof.
  intros Hcols Hin. rewrite <- (join_split Script.comma line), Hcols.
  change (join [Script.comma] (zipcode :: state :: rest))
    with (zipcode ++ [Script.comma] ++ join [Script.comma] (state :: rest)).
  destruct Hin as [Hin | Hin].
  - apply in_or_app. left. exact Hin.
  - apply in_or_app. right. apply in_or_app. right.
    destruct rest as [|r rest']; [exact Hin|].
    change (join [Script.comma] (state :: r :: rest'))
      with (state ++ [Script.comma] ++ join [Script.comma] (r :: rest')).
    apply in_or_app. left. exact Hin.
Qed.

Lemma storedRow_columns (zipcode state addressLine city : jsstring) :
  ~ In Script.comma zipcode -> ~ In Script.comma state ->
  split Script.comma (storedRow zipcode state addressLine city)
  = zipcode :: state
    :: split Script.comma
         ([Script.dquote] ++ addressLine ++ [Script.dquote]
          ++ [Script.comma] ++ [Script.dquote] ++ city ++ [Script.dquote]).
Proof.
  intros Hz Hs. unfold storedRow. cbn [app].
  rewrite split_app, (split_free Script.comma zipcode Hz).
  rewrite split_app, (split_free Script.comma state Hs). reflexivity.
Qed.

Lemma storedRow_matches (zipcode state addressLine city : jsstring) :
  ~ In Script.comma zipcode -> ~ In Script.comma state ->
  rowMatches zipcode state (storedRow zipcode state addressLine city)
  = true.
Proof.
  intros Hz Hs. unfold rowMatches.
  rewrite (storedRow_columns _ _ addressLine city Hz Hs).
  cbn [List.length nth Nat.leb].
  rewrite (proj2 (eqb_eq zipcode zipcode) eq_refl).
  rewrite (proj2 (eqb_eq state state) eq_refl).
  rewrite (not_blank _ Script.dquote); [reflexivity | | reflexivity].
  unfold storedRow. do 4 (apply in_or_app; right). left. reflexivity.
Qed.

Lemma storedRow_free (d : cu) (zipcode state addressLine city : jsstring) :
  d <> Script.comma -> d <> Script.dquote ->
  ~ In d zipcode -> ~ In d state -> ~ In d addressLine -> ~ In d city ->
  ~ In d (storedRow zipcode state addressLine city).
Proof.
  intros Hc Hq Hz Hs Ha Hcity Hin. unfold storedRow in Hin.
  repeat (apply in_app_or in Hin; destruct Hin as [Hin | Hin];
          [first [contradiction
                 | destruct Hin as [Hin | []]; congruence] |]).
  destruct Hin as [Hin | []]; congruence.
Qed.

Lemma updateFinalCSV_unfold (cfg : Script.config) (fs : Script.files)
    (content zipcode state addressLine city : jsstring) :
  fs (Script.csvFilePath cfg) = Some content ->
  Script.updateFinalCSV cfg fs zipcode state addressLine city
  = let lines := split Script.newline content in
    let lines1 :=
      if negb (includes (js "address")
                 (split Script.comma (nth 0 lines [])))
         || negb (includes (js "city")
                    (split Script.comma (nth 0 lines [])))
      then Script.set_at 0 Script.canonicalHeader lines else lines in
    match Script.findRow zipcode state 1 (tl lines1) with
    | None => fs
    | Some rowIndex =>
        Script.writeFileSync fs (Script.csvFilePath cfg)
          (join [Script.newline]
             (Script.set_at rowIndex
                (Script.rebuildRow (nth rowIndex lines1 []) addressLine
                   city) lines1))
    end.
Proof.
  intro H. unfold Script.updateFinalCSV. rewrite H. reflexivity.
Qed.

(** X18: storing the same result twice is storing it once: when the
    address and the city hold no line break and the key fields are not
    changed by the removal of enclosing quotes, a second [updateFinalCSV]
    with the same arguments leaves every file as the first one left it. *)
Theorem updateFinalCSV_idempotent :
  forall (cfg : Script.config) (fs : Script.files)
         (zipcode state addressLine city : jsstring),
    ~ In Script.newline addressLine ->
    ~ In Script.newline city ->
    Script.unquote zipcode = zipcode ->
    Script.unquote state = state ->
    forall q,
      Script.updateFinalCSV cfg
        (Script.updateFinalCSV cfg fs zipcode state addressLine city)
        zipcode state addressLine city q
      = Script.updateFinalCSV cfg fs zipcode state addressLine city q.
Proof.
  intros cfg fs zipcode state addressLine city Ha Hc Hz Hs q.
  destruct (fs (Script.csvFilePath cfg)) as [content|] eqn:H.
  2: { assert (E : Script.updateFinalCSV cfg fs zipcode state addressLine
                     city = fs)
         by (unfold Script.updateFinalCSV; rewrite H; reflexivity).
       rewrite !E. reflexivity. }
  pose proof (updateFinalCSV_unfold cfg fs content zipcode state
                addressLine city H) as E.
  cbv zeta in E.
  set (lines := split Script.newline content) in *.
  assert (Hne : lines <> []) by apply split_not_nil.
  destruct (header_fixed lines Hne) as (T & L & Hh & _).
  pose proof (header_fixed_free Script.newline lines
                ltac:(vm_compute; intuition discriminate)
                (split_parts_free Script.newline content)) as Hfree.
  cbv zeta in T, L, Hh.
  set (lines1 :=
         if negb (includes (js "address")
                    (split Script.comma (nth 0 lines [])))
            || negb (includes (js "city")
                       (split Script.comma (nth 0 lines [])))
         then Script.set_at 0 Script.canonicalHeader lines else lines) in *.
  destruct (Script.findRow zipcode state 1 (tl lines1)) as [k|] eqn:F.
  2: { rewrite !E. reflexivity. }
  destruct (findRow_Some _ _ _ _ _ F) as (r & -> & Hr & Hm & Hbefore).
  rewrite nth_tl in Hm.
  assert (Hlen : S r < List.length lines1)
    by (destruct lines1; simpl in *; lia).
  destruct (rowMatches_columns _ _ _ Hm) as [rest Hcols].
  assert (Hrow : Script.rebuildRow (nth (1 + r) lines1 []) addressLine city
                 = storedRow zipcode state addressLine city).
  { cbn [Nat.add].
    rewrite (rebuildRow_columns _ _ _ _ addressLine city Hcols), Hz, Hs.
    reflexivity. }
  rewrite Hrow in E.
  set (row := storedRow zipcode state addressLine city) in *.
  set (lines2 := Script.set_at (1 + r) row lines1) in *.
  assert (Hzc : ~ In Script.comma zipcode /\ ~ In Script.comma state).
  { pose proof (split_parts_free Script.comma (nth (S r) lines1 [])) as P.
    rewrite Hcols in P. inversion P as [|? ? Pz P']; subst.
    inversion P' as [|? ? Ps _]; subst. split; assumption. }
  destruct Hzc as [Hzc Hsc].
  assert (Hline : ~ In Script.newline (nth (S r) lines1 [])).
  { rewrite Forall_forall in Hfree. apply Hfree. apply nth_In. exact Hlen. }
  assert (Hrowfree : ~ In Script.newline row).
  { apply storedRow_free; try assumption; try discriminate.
    - intro Hin. apply Hline.
      apply (key_fields_inside _ _ _ _ _ Hcols). left. exact Hin.
    - intro Hin. apply Hline.
      apply (key_fields_inside _ _ _ _ _ Hcols). right. exact Hin. }
  assert (Hsplit : split Script.newline (join [Script.newline] lines2)
                   = lines2).
  { apply split_join.
    - intro Hnil. apply (f_equal (@List.length jsstring)) in Hnil.
      unfold lines2 in Hnil. rewrite set_at_length in Hnil.
      simpl in Hnil. lia.
    - apply Forall_set_at; assumption. }
  assert (Hfile : Script.updateFinalCSV cfg fs zipcode state addressLine
                    city (Script.csvFilePath cfg)
                  = Some (join [Script.newline] lines2))
    by (rewrite E; unfold Script.writeFileSync; rewrite path_eqb_refl;
        reflexivity).
  rewrite (updateFinalCSV_unfold cfg _ _ zipcode state addressLine city
             Hfile).
  cbv zeta. rewrite Hsplit.
  assert (Hhead : nth 0 lines2 [] = nth 0 lines1 [])
    by (unfold lines2; apply nth_set_at_other; discriminate).
  rewrite Hhead, Hh.
  rewrite (findRow_first zipcode state (tl lines2) 1 r).
  - assert (Hnth : nth (1 + r) lines2 [] = row)
      by (unfold lines2; apply nth_set_at_same; exact Hlen).
    rewrite Hnth.
    assert (Hagain : Script.rebuildRow row addressLine city = row).
    { unfold row.
      rewrite (rebuildRow_columns _ _ _ _ addressLine city
                 (storedRow_columns zipcode state addressLine city
                    Hzc Hsc)), Hz, Hs.
      reflexivity. }
    rewrite Hagain. unfold lines2. rewrite set_at_twice.
    fold lines2. rewrite E. unfold Script.writeFileSync.
    destruct (Script.path_eqb q (Script.csvFilePath cfg)); reflexivity.
  - assert (List.length lines2 = List.length lines1)
      by apply set_at_length.
    destruct lines2; simpl in *; lia.
  - rewrite nth_tl. unfold lines2. rewrite nth_set_at_same by exact Hlen.
    apply storedRow_matches; assumption.
  - intros j Hj. rewrite nth_tl. unfold lines2.
    rewrite nth_set_at_other by lia. rewrite <- nth_tl.
    apply Hbefore. exact Hj.
Qed.

Lemma updateFinalCSV_idempotent_witness :
  let table := js "zipcode,state,address,city" ++ [Script.newline]
               ++ js "10001,NY,," ++ [Script.newline] ++ js "10002,NY" in
  let fs : Script.files := fun _ => Some table in
  let cfg := {| Script.TARGET_STATE := inl (js "ALL");
                Script.SHARD_INDEX := 0; Script.TOTAL_SHARDS := 1;
                Script.MAX_RECORDS_PER_SHARD := 1000 |} in
  Script.updateFinalCSV cfg
    (Script.updateFinalCSV cfg fs (js "10002") (js "NY")
       (js "1 Main St") (js "Albany"))
    (js "10002") (js "NY") (js "1 Main St") (js "Albany") Script.MainTable
  = Script.updateFinalCSV cfg fs (js "10002") (js "NY")
      (js "1 Main St") (js "Albany") Script.MainTable.
Proof.
  intros table fs cfg.
  refine (updateFinalCSV_idempotent cfg fs (js "10002") (js "NY")
            (js "1 Main St") (js "Albany") _ _ _ _ Script.MainTable).
  - vm_compute. intuition discriminate.
  - vm_compute. intuition discriminate.
  - vm_compute. reflexivity.
  - vm_compute. reflexivity.
Defined.

(** ** The stored row, read back *)

Lemma replace_all_from_keeps (P : cu -> Prop) (r : regex) (fuel : nat) :
  forall prev s,
    Forall P s -> Forall P (replace_all_from fuel r [] prev s).
Proof.
  induction fuel as [|fuel IH]; intros prev s H; [exact H|].
  cbn [replace_all_from].
  assert (Hskip : Forall P
            match s with
            | [] => []
            | c :: s' => c :: replace_all_from fuel r [] (Some c) s'
            end).
  { destruct s as [|c s']; [constructor|].
    inversion H; subst. constructor; [assumption | apply IH; assumption]. }
  destruct (match_at r prev s) as [rest|] eqn:E; [|exact Hskip].
  destruct (Nat.ltb (List.length rest) (List.length s)); [|exact Hskip].
  cbn [app]. apply IH.
  destruct (match_at_suffix _ _ _ _ E) as [u ->].
  apply Forall_app in H. tauto.
Qed.

Lemma unquote_keeps (P : cu -> Prop) (s : jsstring) :
  Forall P s -> Forall P (Script.unquote s).
Proof. apply replace_all_from_keeps. Qed.

Lemma strip_end_snoc (p : cu -> bool) (s : jsstring) (x : cu) :
  p x = false -> strip_end p (s ++ [x]) = s ++ [x].
Proof.
  intro Hx. induction s as [|c t IH].
  - cbn [app strip_end]. rewrite Hx. reflexivity.
  - cbn [app strip_end]. rewrite IH.
    destruct (t ++ [x]) eqn:E; [|reflexivity].
    apply app_eq_nil in E. destruct E; discriminate.
Qed.

Lemma trim_wrapped (a : jsstring) :
  trim ([Script.dquote] ++ a ++ [Script.dquote])
  = [Script.dquote] ++ a ++ [Script.dquote].
Proof.
  rewrite trim_strip. cbn [app].
  change (drop_while is_space (Script.dquote :: a ++ [Script.dquote]))
    with (Script.dquote :: a ++ [Script.dquote]).
  change (Script.dquote :: a ++ [Script.dquote])
    with ((Script.dquote :: a) ++ [Script.dquote]).
  apply strip_end_snoc. reflexivity.
Qed.

Lemma unquote_closing (fuel : nat) :
  forall (c : cu) (a : jsstring),
    List.length a < fuel ->
    replace_all_from (S fuel)
      (Alt (Seq Bol (chr Script.dquote false))
           (Seq (chr Script.dquote false) Eol)) [] (Some c)
      (a ++ [Script.dquote]) = a.
Proof.
  induction fuel as [|fuel IH]; intros c a Hf; [lia|].
  destruct a as [|d t].
  - cbn [app replace_all_from]. unfold match_at, chr. cbn [m orelse].
    rewrite N.eqb_refl. cbn [m orelse List.length Nat.ltb Nat.leb].
    cbn [app replace_all_from]. unfold match_at. cbn [m orelse].
    reflexivity.
  - cbn [app]. cbn [replace_all_from]. unfold match_at, chr.
    cbn [m orelse].
    assert (Hrec : replace_all_from (S fuel)
                     (Alt (Seq Bol (Chr (fun x => (x =? Script.dquote)%N)))
                          (Seq (Chr (fun x => (x =? Script.dquote)%N)) Eol))
                     [] (Some d) (t ++ [Script.dquote]) = t)
      by (apply IH; simpl in Hf; lia).
    destruct (d =? Script.dquote)%N.
    + destruct t as [|e t']; cbn [app m orelse]; f_equal; exact Hrec.
    + cbn [orelse]. f_equal. exact Hrec.
Qed.

Lemma replace_all_from_S (fuel : nat) (r : regex) (rep : jsstring)
    (prev : option cu) (s : jsstring) :
  replace_all_from (S fuel) r rep prev s
  = match match_at r prev s with
    | Some rest =>
        if Nat.ltb (List.length rest) (List.length s)
        then rep ++ replace_all_from fuel r rep
                      (last_of prev
                         (firstn (List.length s - List.length rest) s))
                      rest
        else rep ++ match s with
                    | [] => []
                    | c :: s' => c :: replace_all_from fuel r rep (Some c) s'
                    end
    | None => match s with
              | [] => []
              | c :: s' => c :: replace_all_from fuel r rep (Some c) s'
              end
    end.
Proof. reflexivity. Qed.

(** [unquote] takes the enclosing quotes off a quoted field, whatever is
    inside. *)
Lemma unquote_wrapped (a : jsstring) :
  Script.unquote ([Script.dquote] ++ a ++ [Script.dquote]) = a.
Proof.
  unfold Script.unquote, replace_all. cbn [app].
  rewrite replace_all_from_S.
  change (match_at
            (Alt (Seq Bol (chr Script.dquote false))
                 (Seq (chr Script.dquote false) Eol))
            None (Script.dquote :: a ++ [Script.dquote]))
    with (Some (a ++ [Script.dquote])).
  cbv iota.
  replace (Nat.ltb (List.length (a ++ [Script.dquote]))
                   (List.length (Script.dquote :: a ++ [Script.dquote])))
    with true by (symmetry; apply Nat.ltb_lt; cbn [List.length]; lia).
  replace (List.length (Script.dquote :: a ++ [Script.dquote])
           - List.length (a ++ [Script.dquote])) with 1
    by (cbn [List.length]; lia).
  change (last_of None
            (firstn 1 (Script.dquote :: a ++ [Script.dquote])))
    with (Some Script.dquote).
  cbn [app].
  apply (unquote_closing (List.length (a ++ [Script.dquote]))).
  rewrite length_app. simpl. lia.
Qed.

Lemma stored_row_fields (line zipcode state addressLine city : jsstring) :
  rowMatches zipcode state line = true ->
  ~ In Script.comma addressLine ->
  ~ In Script.comma city ->
  Script.address
    (Script.parseRow 2 3 (Script.rebuildRow line addressLine city))
  = Some addressLine
  /\ Script.city
       (Script.parseRow 2 3 (Script.rebuildRow line addressLine city))
     = Some city.
Proof.
  intros Hm Ha Hc.
  destruct (rowMatches_columns _ _ _ Hm) as [rest Hcols].
  assert (Hrow : Script.rebuildRow line addressLine city
                 = storedRow (Script.unquote zipcode) (Script.unquote state)
                     addressLine city)
    by (rewrite (rebuildRow_columns _ _ _ _ addressLine city Hcols);
        reflexivity).
  assert (Hfree : ~ In Script.comma (Script.unquote zipcode)
                  /\ ~ In Script.comma (Script.unquote state)).
  { pose proof (split_parts_free Script.comma line) as P.
    rewrite Hcols in P. inversion P as [|? ? Pz P']; subst.
    inversion P' as [|? ? Ps _]; subst.
    split; apply free_Forall, unquote_keeps, free_Forall; assumption. }
  destruct Hfree as [Hz Hs].
  assert (Hq : forall x, ~ In Script.comma x ->
                 ~ In Script.comma ([Script.dquote] ++ x ++ [Script.dquote])).
  { intros x Hx Hin. cbn [app] in Hin.
    destruct Hin as [Hin | Hin]; [discriminate|].
    apply in_app_or in Hin. destruct Hin as [Hin | [Hin | []]];
      [contradiction | discriminate]. }
  assert (Hsplit : split Script.comma
                     (Script.rebuildRow line addressLine city)
                   = [Script.unquote zipcode; Script.unquote state;
                      [Script.dquote] ++ addressLine ++ [Script.dquote];
                      [Script.dquote] ++ city ++ [Script.dquote]]).
  { rewrite Hrow, (storedRow_columns _ _ addressLine city Hz Hs).
    do 2 f_equal.
    replace ([Script.dquote] ++ addressLine ++ [Script.dquote]
             ++ [Script.comma] ++ [Script.dquote] ++ city
             ++ [Script.dquote])
      with (([Script.dquote] ++ addressLine ++ [Script.dquote])
            ++ Script.comma :: ([Script.dquote] ++ city ++ [Script.dquote]))
      by (cbn [app]; rewrite <- app_assoc; reflexivity).
    rewrite split_app, (split_free _ _ (Hq _ Ha)), (split_free _ _ (Hq _ Hc)).
    reflexivity. }
  unfold Script.parseRow. rewrite Hsplit.
  cbn [List.map nth_error Script.address Script.city].
  rewrite !trim_wrapped, !unquote_wrapped.
  split; reflexivity.
Qed.

(** X19: the row that [updateFinalCSV] writes, parsed as a line of the
    table under the canonical header (address at index 2, city at index
    3), gives back the address and the city that were stored, provided
    they hold no comma; the filter of [readZipCodesFromCSV] then keeps it
    as pending exactly when the address or the city is empty. *)
Theorem stored_row_round_trip :
  forall (line zipcode state addressLine city : jsstring),
    rowMatches zipcode state line = true ->
    ~ In Script.comma addressLine ->
    ~ In Script.comma city ->
    Script.address
      (Script.parseRow 2 3 (Script.rebuildRow line addressLine city))
    = Some addressLine
    /\ Script.city
         (Script.parseRow 2 3 (Script.rebuildRow line addressLine city))
       = Some city
    /\ (Script.isPending
          (Script.parseRow 2 3 (Script.rebuildRow line addressLine city))
        = false
        <-> addressLine <> [] /\ city <> []).
Proof.
  intros line zipcode state addressLine city Hm Ha Hc.
  destruct (stored_row_fields line zipcode state addressLine city Hm Ha Hc)
    as (Ea & Ec).
  split; [exact Ea|]. split; [exact Ec|].
  unfold Script.isPending. rewrite Ea, Ec. unfold truthy, seq_opt.
  destruct addressLine as [|x xs]; destruct city as [|y ys];
    cbn [negb orb eqb]; split; intro H;
    try discriminate; try (destruct H; congruence);
    split; discriminate.
Qed.

Lemma stored_row_round_trip_witness :
  Script.address
    (Script.parseRow 2 3
       (Script.rebuildRow (js "10001,NY,,") (js "Not Found")
          (js "Not Found")))
  = Some (js "Not Found")
  /\ Script.city
       (Script.parseRow 2 3
          (Script.rebuildRow (js "10001,NY,,") (js "Not Found")
             (js "Not Found")))
     = Some (js "Not Found")
  /\ (Script.isPending
        (Script.parseRow 2 3
           (Script.rebuildRow (js "10001,NY,,") (js "Not Found")
              (js "Not Found")))
      = false
      <-> js "Not Found" <> [] /\ js "Not Found" <> []).
Proof.
  apply (stored_row_round_trip (js "10001,NY,,") (js "10001") (js "NY")
           (js "Not Found") (js "Not Found")).
  - vm_compute. reflexivity.
  - vm_compute. intuition discriminate.
  - vm_compute. intuition discriminate.
Defined.

(** X20: whatever the page does, [processZipCode] calls [updateFinalCSV]
    with an address and a city that are not empty and hold no comma (a
    validated address, "Not Found" or "Error"); the row that
    [updateFinalCSV] builds of them for a matching line, parsed as one row
    by the row parser of [readZipCodesFromCSV] with the address at column
    2 and the city at column 3, is not pending.  The statement is about
    that row as one line under the canonical header; it says nothing of a
    later reading of a file. *)
Theorem processed_row_is_settled :
  forall (pg : Script.page) (zipcode state : jsstring),
  exists addressLine city,
    (forall cfg fs,
        Script.processZipCode pg cfg fs zipcode state
        = Script.updateFinalCSV cfg fs zipcode state addressLine city)
    /\ addressLine <> [] /\ city <> []
    /\ ~ In Script.comma addressLine /\ ~ In Script.comma city
    /\ (forall line,
           rowMatches zipcode state line = true ->
           Script.isPending
             (Script.parseRow 2 3
                (Script.rebuildRow line addressLine city)) = false).
Proof.
  intros pg zipcode state.
  assert (Hsettled : forall a c,
            a <> [] -> c <> [] ->
            ~ In Script.comma a -> ~ In Script.comma c ->
            forall line,
              rowMatches zipcode state line = true ->
              Script.isPending
                (Script.parseRow 2 3 (Script.rebuildRow line a c)) = false).
  { intros a c Ha Hc Hfa Hfc line Hm.
    destruct (stored_row_fields line zipcode state a c Hm Hfa Hfc)
      as (Ea & Ec).
    unfold Script.isPending. rewrite Ea, Ec.
    destruct a; [contradiction|]. destruct c; [contradiction|].
    reflexivity. }
  unfold Script.processZipCode.
  destruct (Script.resolveUnit pg zipcode state) as [r| |msg] eqn:R.
  - unfold Script.resolveUnit in R.
    destruct (Script.trySearchTypes pg zipcode state Script.SEARCH_TYPES)
      as [[r'|]|msg] eqn:E; try discriminate.
    injection R as ->.
    destruct (trySearchTypes_hit _ _ _ _ _ E) as [label Hl].
    destruct (checkAddress_hit _ _ _ _ Hl) as (Va & Vc & Fa & Fc).
    assert (Ha : Script.addressLine r <> [])
      by (intro H; rewrite H in Va; discriminate).
    assert (Hc : Script.foundCity r <> [])
      by (intro H; rewrite H in Vc; discriminate).
    exists (Script.addressLine r), (Script.foundCity r).
    split; [reflexivity|]. repeat (split; [assumption|]).
    apply Hsettled; assumption.
  - exists (js "Not Found"), (js "Not Found").
    split; [reflexivity|].
    assert (F : ~ In Script.comma (js "Not Found"))
      by (vm_compute; intuition discriminate).
    repeat (split; [first [discriminate | exact F]|]).
    apply Hsettled; first [discriminate | exact F].
  - exists (js "Error"), (js "Error").
    split; [reflexivity|].
    assert (F : ~ In Script.comma (js "Error"))
      by (vm_compute; intuition discriminate).
    repeat (split; [first [discriminate | exact F]|]).
    apply Hsettled; first [discriminate | exact F].
Qed.

Lemma retryLoop_calls_waited (extract : ParallelProcessor.extractor)
    (retries : nat) (zip st : jsstring) :
  forall left lastError made waited waited',
    ParallelProcessor.calls
      (ParallelProcessor.retryLoop extract retries zip st left lastError
         made waited)
    = ParallelProcessor.calls
        (ParallelProcessor.retryLoop extract retries zip st left lastError
           made waited').
Proof.
  induction left as [|left IH]; intros lastError made waited waited';
    [reflexivity|].
  cbn [ParallelProcessor.retryLoop].
  destruct (extract (S made)) as [r|t]; [|apply IH].
  destruct (CsvUtils.valid r || eqb (CsvUtils.addressline r) _);
    [reflexivity|].
  destruct (Nat.ltb _ retries && truthy (CsvUtils.error r));
    [apply IH | reflexivity].
Qed.

(** ** One extraction under the retry wrapper and in the batches *)

Lemma extractAddress_keys (zipcode state : jsstring) (s : Session.session)
    (r : CsvUtils.AddressResult) :
  Session.extractAddress zipcode state s = ParallelProcessor.Resolves r ->
  CsvUtils.zipcode r = zipcode /\ CsvUtils.state r = state.
Proof.
  unfold Session.extractAddress.
  destruct (Session.opening s); [discriminate|].
  destruct (Session.closing s); [discriminate|].
  intro H. injection H as <-.
  destruct (Session.search s) as [[|x a] [|y c]|t]; split; reflexivity.
Qed.

Lemma retryLoop_keys (extract : ParallelProcessor.extractor)
    (retries : nat) (zip st : jsstring) :
  (forall n r, extract n = ParallelProcessor.Resolves r ->
               CsvUtils.zipcode r = zip /\ CsvUtils.state r = st) ->
  forall left lastError made waited,
    CsvUtils.zipcode
      (ParallelProcessor.result
         (ParallelProcessor.retryLoop extract retries zip st left lastError
            made waited)) = zip
    /\ CsvUtils.state
         (ParallelProcessor.result
            (ParallelProcessor.retryLoop extract retries zip st left
               lastError made waited)) = st.
Proof.
  intro Hkeys. induction left as [|left IH]; intros lastError made waited.
  - split; reflexivity.
  - cbn [ParallelProcessor.retryLoop].
    destruct (extract (S made)) as [r|t] eqn:E; [|apply IH].
    pose proof (Hkeys _ _ E) as Hr.
    destruct (CsvUtils.valid r || eqb (CsvUtils.addressline r) _);
      [exact Hr|].
    destruct (Nat.ltb _ retries && truthy (CsvUtils.error r));
      [apply IH | exact Hr].
Qed.

Lemma batchFrom_keys (ss : Session.sessions) (count retries : nat)
    (chunk : list Batch.ZipCodeData) :
  forall index,
    List.map (fun r => (CsvUtils.zipcode r, CsvUtils.state r))
      (Batch.batchFrom (Session.extractorsOf ss) count retries index chunk)
    = List.map (fun u => (Batch.zipcode u, Batch.state u)) chunk.
Proof.
  induction chunk as [|item rest IH]; intro index; [reflexivity|].
  cbn [Batch.batchFrom List.map]. rewrite IH. f_equal.
  unfold ParallelProcessor.processWithRetry.
  destruct (retryLoop_keys
              (Session.extractorsOf ss (Nat.modulo index count) item)
              retries (Batch.zipcode item) (Batch.state item)
              (fun n r => extractAddress_keys _ _ _ r)
              retries None 0 []) as [Hz Hs].
  rewrite Hz, Hs. reflexivity.
Qed.

Lemma chunkLoop_concat {A} (array : list A) (chunkSize : Z) :
  (1 <= chunkSize)%Z ->
  forall fuel n chunks,
    Batch.chunkLoop fuel array chunkSize (Z.of_nat n) = Some chunks ->
    concat chunks = skipn n array.
Proof.
  intro Hsize. induction fuel as [|fuel IH]; intros n chunks H;
    cbn [Batch.chunkLoop] in H;
    destruct (Z.of_nat n <? Z.of_nat (List.length array))%Z eqn:E;
    try discriminate;
    try (injection H as <-; apply Z.ltb_ge in E;
         rewrite skipn_all2 by lia; reflexivity).
  apply Z.ltb_lt in E.
  replace (Z.of_nat n + chunkSize)%Z
    with (Z.of_nat (n + Z.to_nat chunkSize)) in H by lia.
  destruct (Batch.chunkLoop fuel array chunkSize
              (Z.of_nat (n + Z.to_nat chunkSize))) as [rest|] eqn:R;
    [|discriminate].
  injection H as <-. cbn [concat]. rewrite (IH _ _ R).
  rewrite slice_nonneg by lia.
  replace (Z.to_nat (Z.of_nat (n + Z.to_nat chunkSize))
           - Z.to_nat (Z.of_nat n)) with (Z.to_nat chunkSize) by lia.
  rewrite Nat2Z.id, Nat.add_comm, <- skipn_skipn. apply firstn_skipn.
Qed.

Lemma chunkArray_concat {A} (array : list A) (chunkSize : Z) (fuel : nat)
    (chunks : list (list A)) :
  Batch.chunkArray fuel array chunkSize = Some chunks ->
  concat chunks = array.
Proof.
  unfold Batch.chunkArray. intro H.
  destruct (Z_le_gt_dec 1 chunkSize) as [Hsize | Hsize].
  - exact (chunkLoop_concat array chunkSize Hsize fuel 0 chunks H).
  - destruct array as [|x array'].
    + destruct fuel; cbn in H; injection H as <-; reflexivity.
    + rewrite chunkLoop_stuck in H; [discriminate | lia | simpl; lia].
Qed.

(** X21: every result carries the key of its unit: when each call of
    [extractAddress] is a session of the extractor, the results of
    [processInParallel], and the rows [writeResults] makes of them, have
    the zipcodes and states of the input units, in the order of the input,
    whatever happens in the sessions. *)
Theorem results_carry_keys :
  forall (ss : Session.sessions) (maxConcurrency : Z) (retries : nat)
         (data : list Batch.ZipCodeData) (fuel : nat) (p : Batch.progress),
    Batch.processInParallel fuel (Session.extractorsOf ss) maxConcurrency
      retries data = Some p ->
    List.map (fun r => (CsvUtils.zipcode r, CsvUtils.state r))
      (Batch.results p)
    = List.map (fun u => (Batch.zipcode u, Batch.state u)) data
    /\ List.map (fun row => (CsvUtils.c_zipcode row, CsvUtils.c_state row))
         (CsvUtils.writeResults (Batch.results p))
       = List.map (fun u => (Batch.zipcode u, Batch.state u)) data.
Proof.
  intros ss maxConcurrency retries data fuel p H.
  unfold Batch.processInParallel in H.
  destruct (Batch.chunkArray fuel data maxConcurrency) as [chunks|] eqn:E;
    [|discriminate].
  injection H as <-.
  assert (K : List.map (fun r => (CsvUtils.zipcode r, CsvUtils.state r))
                (Batch.results
                   (Batch.runBatches (Session.extractorsOf ss)
                      (Z.to_nat maxConcurrency) retries
                      (List.length chunks) 0 chunks
                      {| Batch.results := []; Batch.saved := [] |}))
              = List.map (fun u => (Batch.zipcode u, Batch.state u)) data).
  { rewrite runBatches_results. cbn [Batch.results app].
    rewrite <- (chunkArray_concat _ _ _ _ E).
    clear E. induction chunks as [|c rest IH]; [reflexivity|].
    cbn [List.map concat]. rewrite !map_app, IH, batchFrom_keys.
    reflexivity. }
  split; [exact K|].
  rewrite <- K. unfold CsvUtils.writeResults. rewrite map_map.
  reflexivity.
Qed.

Lemma results_carry_keys_witness :
  let quiet : Session.session :=
    {| Session.opening := None;
       Session.search := Session.Info (js "12 Oak Ave") (js "Salem");
       Session.closing := None |} in
  let ss : Session.sessions := fun _ _ _ => quiet in
  let data := [ {| Batch.zipcode := js "97301"; Batch.state := js "OR" |};
                {| Batch.zipcode := js "97302"; Batch.state := js "OR" |};
                {| Batch.zipcode := js "97303"; Batch.state := js "OR" |} ] in
  exists p,
    Batch.processInParallel 3 (Session.extractorsOf ss) 2 2 data = Some p
    /\ List.map (fun r => (CsvUtils.zipcode r, CsvUtils.state r))
         (Batch.results p)
       = List.map (fun u => (Batch.zipcode u, Batch.state u)) data
    /\ List.map (fun row => (CsvUtils.c_zipcode row, CsvUtils.c_state row))
         (CsvUtils.writeResults (Batch.results p))
       = List.map (fun u => (Batch.zipcode u, Batch.state u)) data.
Proof.
  intros quiet ss data. eexists. split; [vm_compute; reflexivity|].
  apply (results_carry_keys ss 2%Z 2 data 3). vm_compute. reflexivity.
Defined.

(** X22: under the retry wrapper, with at least two attempts allowed, the
    first call of [extractAddress] is the only one exactly when it does
    not end in a fault with a message: an address that was found, valid or
    not, and an address that was not found are final; a rejection and a
    throw inside the [try] block with a message lead to a second call. *)
Theorem first_attempt_is_final_unless_fault :
  forall (ss : nat -> Session.session) (retries : nat)
         (zipcode state : jsstring),
    2 <= retries ->
    (ParallelProcessor.calls
       (ParallelProcessor.processWithRetry
          (fun n => Session.extractAddress zipcode state (ss n))
          retries zipcode state) = 1
     <-> faulted (ss 1) = false).
Proof.
  intros ss retries zipcode state Hretries.
  unfold ParallelProcessor.processWithRetry.
  set (ex := fun n => Session.extractAddress zipcode state (ss n)).
  destruct retries as [|left]; [lia|].
  cbn [ParallelProcessor.retryLoop].
  replace (S left - left) with 1 by lia.
  assert (Hmore : forall lastError waited,
            1 < ParallelProcessor.calls
                  (ParallelProcessor.retryLoop ex (S left) zipcode state
                     left lastError 1 waited)).
  { intros lastError waited.
    destruct (retryLoop_waits ex (S left) zipcode state left lastError 1
                (List.map (fun a => 2000 * a)
                   (seq 1 (Nat.min 1 (S left - 1)))))
      as (_ & Hp & _); [lia | reflexivity |].
    rewrite (retryLoop_calls_waited ex (S left) zipcode state left
               lastError 1 waited
               (List.map (fun a => 2000 * a)
                  (seq 1 (Nat.min 1 (S left - 1))))).
    apply Hp. lia. }
  replace (Nat.ltb 1 (S left)) with true
    by (symmetry; apply Nat.ltb_lt; lia).
  change (ex 1) with (Session.extractAddress zipcode state (ss 1)).
  unfold Session.extractAddress, faulted.
  destruct (Session.opening (ss 1)) as [t|].
  { split; [|discriminate]. intro H.
    pose proof (Hmore (Some (ParallelProcessor.as_error t))
                  ([] ++ [2000 * 1])) as M.
    rewrite H in M. lia. }
  destruct (Session.closing (ss 1)) as [t|].
  { split; [|discriminate]. intro H.
    pose proof (Hmore (Some (ParallelProcessor.as_error t))
                  ([] ++ [2000 * 1])) as M.
    rewrite H in M. lia. }
  destruct (Session.search (ss 1)) as [[|x a] [|y c]|t];
    cbn [CsvUtils.valid CsvUtils.addressline CsvUtils.error orb andb];
    try (change (eqb (js "Not Found") (js "Not Found")) with true;
         cbn [orb ParallelProcessor.calls]; split; reflexivity).
  - destruct (Session.validateAddress (x :: a) (y :: c)
              || eqb (x :: a) (js "Not Found"));
      cbn [truthy andb ParallelProcessor.calls]; split; reflexivity.
  - change (eqb (js "Error") (js "Not Found")) with false.
    cbn [orb andb truthy].
    destruct (ParallelProcessor.as_error t) as [|e msg].
    + cbn [ParallelProcessor.calls]. split; reflexivity.
    + split; [|discriminate]. intro H.
      pose proof (Hmore None ([] ++ [2000 * 1])) as M.
      rewrite H in M. lia.
Qed.

Lemma first_attempt_is_final_unless_fault_witness :
  let found : Session.session :=
    {| Session.opening := None;
       Session.search := Session.Info (js "Oak Hotel") (js "Salem");
       Session.closing := None |} in
  ParallelProcessor.calls
    (ParallelProcessor.processWithRetry
       (fun n => Session.extractAddress (js "97301") (js "OR") found)
       2 (js "97301") (js "OR")) = 1
  <-> faulted found = false.
Proof.
  intro found.
  apply (first_attempt_is_final_unless_fault (fun _ => found) 2
           (js "97301") (js "OR")).
  lia.
Defined.

(** ** Reading a table that has no line to read *)

Lemma filter_nil_iff {A} (f : A -> bool) (l : list A) :
  filter f l = [] <-> Forall (fun x => f x = false) l.
Proof.
  induction l as [|x l IH]; simpl.
  - split; [constructor | reflexivity].
  - destruct (f x) eqn:E.
    + split; [discriminate|]. intro H. inversion H; congruence.
    + rewrite IH. split.
      * intro H. constructor; assumption.
      * intro H. inversion H; assumption.
Qed.

Lemma pendingRecords_throws (cfg : Script.config) (content : jsstring) :
  (exists e, Script.pendingRecords cfg content = Script.Threw e)
  <-> Forall (fun line => Script.is_blank_string line = true)
             (split Script.newline content).
Proof.
  unfold Script.pendingRecords.
  destruct (filter (fun line => negb (Script.is_blank_string line))
                   (split Script.newline content)) as [|h rows] eqn:F.
  - split; [|eauto]. intros _. apply filter_nil_iff in F.
    eapply Forall_impl; [|exact F]. cbv beta. intros line H.
    apply negb_false_iff. exact H.
  - split.
    + intros [e He].
      destruct (index_of (js "address") (split Script.comma h));
        [|discriminate].
      destruct (index_of (js "city") (split Script.comma h)); discriminate.
    + intro H. exfalso.
      assert (Hnil : filter (fun line => negb (Script.is_blank_string line))
                            (split Script.newline content) = []).
      { apply filter_nil_iff. eapply Forall_impl; [|exact H]. cbv beta.
        intros line Hl. rewrite Hl. reflexivity. }
      congruence.
Qed.

(** X23: [readZipCodesFromCSV] throws exactly when the master table exists
    and every one of its lines is blank (an empty file included): the
    header is then read from a line that is not there.  A missing table
    and a header without the address or city column do not make it
    throw. *)
Theorem readZipCodesFromCSV_throws :
  forall (cfg : Script.config) (fs : Script.files),
    (exists e, Script.readZipCodesFromCSV cfg fs = Script.Threw e)
    <-> (exists content,
            fs Script.MainTable = Some content
            /\ Forall (fun line => Script.is_blank_string line = true)
                      (split Script.newline content)).
Proof.
  intros cfg fs. unfold Script.readZipCodesFromCSV.
  destruct (fs Script.MainTable) as [content|].
  - split.
    + intros [e He]. exists content. split; [reflexivity|].
      apply (pendingRecords_throws cfg content).
      destruct (Script.pendingRecords cfg content) as [[l|]|e'];
        try discriminate. eauto.
    + intros (content' & Hc & Hblank). injection Hc as <-.
      apply (pendingRecords_throws cfg content) in Hblank.
      destruct Hblank as [e He]. rewrite He. eauto.
  - split.
    + intros [e He]. discriminate.
    + intros (content & Hc & _). discriminate.
Qed.

Lemma In_split_inside (d : cu) (s : jsstring) :
  forall part c, In part (split d s) -> In c part -> In c s.
Proof.
  induction s as [|x t IH]; intros part c Hp Hc.
  - destruct Hp as [<- | []]. exact Hc.
  - rewrite split_cons_eq in Hp.
    pose proof (split_not_nil d t) as Hne.
    destruct (x =? d)%N.
    + destruct Hp as [<- | Hp]; [destruct Hc|].
      right. exact (IH _ _ Hp Hc).
    + destruct (split d t) as [|h r] eqn:E; [contradiction|].
      cbn [hd tl] in Hp. destruct Hp as [<- | Hp].
      * destruct Hc as [<- | Hc]; [left; reflexivity|].
        right. apply (IH h c); [left; reflexivity | exact Hc].
      * right. apply (IH part c); [right; exact Hp | exact Hc].
Qed.

Lemma header_with_columns_not_blank (header : jsstring) :
  negb (includes (js "address") (split Script.comma header))
  || negb (includes (js "city") (split Script.comma header)) = false ->
  Script.is_blank_string header = false.
Proof.
  intro H. apply orb_false_iff in H. destruct H as [H _].
  apply negb_false_iff in H. unfold includes in H.
  apply existsb_exists in H. destruct H as (part & Hin & Heq).
  apply eqb_eq in Heq. subst part.
  apply (not_blank _ 97%N); [|reflexivity].
  apply (In_split_inside _ _ _ _ Hin). left. reflexivity.
Qed.

Lemma wellFormed_not_blank (rows : list jsstring) :
  Forall wellFormedRow rows ->
  Forall (fun line => Script.is_blank_string line = true) rows ->
  rows = [].
Proof.
  intros Hw Hb. destruct rows as [|r rest]; [reflexivity|].
  inversion Hw as [|? ? (Hr & _) _]; subst.
  inversion Hb as [|? ? Hr' _]; subst. congruence.
Qed.

(** X24: in a run that is not sharded, reading the units after the repair
    of the table, as the script does when it is loaded, throws exactly
    when the table is a single blank line (an empty file included); a
    missing table, and a table of several blank lines, do not make it
    throw. *)
Theorem read_after_repair_throws :
  forall (cfg : Script.config) (fs : Script.files),
    (Script.TOTAL_SHARDS cfg <= 1)%Z ->
    ((exists e,
         Script.readZipCodesFromCSV cfg (Repair.initializeCSVHeaders cfg fs)
         = Script.Threw e)
     <-> (exists content,
             fs Script.MainTable = Some content
             /\ Script.is_blank_string content = true
             /\ ~ In Script.newline content)).
Proof.
  intros cfg fs Hshards.
  assert (P : Script.csvFilePath cfg = Script.MainTable).
  { unfold Script.csvFilePath.
    replace (Script.TOTAL_SHARDS cfg >? 1)%Z with false
      by (symmetry; rewrite Z.gtb_ltb; apply Z.ltb_ge; exact Hshards).
    reflexivity. }
  assert (Hread : forall fs' content',
            fs' Script.MainTable = Some content' ->
            ((exists e, Script.readZipCodesFromCSV cfg fs' = Script.Threw e)
             <-> Forall (fun line => Script.is_blank_string line = true)
                        (split Script.newline content'))).
  { intros fs' content' Hf. unfold Script.readZipCodesFromCSV. rewrite Hf.
    rewrite <- (pendingRecords_throws cfg content'). split.
    - intros [e He].
      destruct (Script.pendingRecords cfg content') as [[l|]|e'];
        try discriminate. eauto.
    - intros [e He]. rewrite He. eauto. }
  destruct (fs Script.MainTable) as [content|] eqn:H.
  - assert (H' : fs (Script.csvFilePath cfg) = Some content)
      by (rewrite P; exact H).
    assert (Hsingle : Script.is_blank_string content = true
                      /\ ~ In Script.newline content
                      <-> Forall (fun line =>
                                    Script.is_blank_string line = true)
                                 (split Script.newline content)
                          /\ tl (split Script.newline content) = []).
    { split.
      - intros [Hb Hf]. rewrite (split_free _ _ Hf).
        split; [constructor; [exact Hb | constructor] | reflexivity].
      - intros [Hb Ht].
        pose proof (join_split Script.newline content) as J.
        pose proof (split_parts_free Script.newline content) as F.
        destruct (split Script.newline content) as [|h [|r rest]] eqn:S;
          try discriminate.
        + exfalso. exact (split_not_nil Script.newline content S).
        + cbn [join] in J. subst h. inversion Hb; subst.
          inversion F; subst. split; assumption. }
    destruct (initializeCSVHeaders_cases cfg fs content H')
      as [(E & Hw) | (header & rows & E & Hsplit & _ & Hh & Hdiff)].
    + rewrite E, (Hread fs content H). split.
      * intro Hb. exists content. split; [reflexivity|].
        apply Hsingle. split; [exact Hb|].
        apply (wellFormed_not_blank _ Hw).
        destruct (split Script.newline content); [constructor|].
        inversion Hb; assumption.
      * intros (content' & Hc & Hb & Hf). injection Hc as <-.
        apply Hsingle. split; assumption.
    + assert (Hfile : Repair.initializeCSVHeaders cfg fs Script.MainTable
                      = Some (join [Script.newline] (header :: rows))).
      { rewrite E, <- P. unfold Script.writeFileSync.
        rewrite path_eqb_refl. reflexivity. }
      rewrite (Hread _ _ Hfile), Hsplit. split.
      * intro Hb. inversion Hb as [|? ? Hhb _]; subst.
        rewrite (header_with_columns_not_blank _ Hh) in Hhb. discriminate.
      * intros (content' & Hc & Hb & Hf). injection Hc as <-.
        exfalso. apply Hdiff.
        assert (Hrows : Forall wellFormedRow
                          (tl (split Script.newline content)))
          by (rewrite (split_free _ _ Hf); constructor).
        pose proof (initializeCSVHeaders_fixed cfg fs content H' Hrows)
          as Hsame.
        rewrite Hsame in Hfile. rewrite H in Hfile.
        injection Hfile as Hfile. rewrite Hfile. symmetry. exact Hsplit.
  - assert (E : Repair.initializeCSVHeaders cfg fs = fs).
    { unfold Repair.initializeCSVHeaders. rewrite P, H.
      replace (Script.TOTAL_SHARDS cfg >? 1)%Z with false
        by (symmetry; rewrite Z.gtb_ltb; apply Z.ltb_ge; exact Hshards).
      reflexivity. }
    rewrite E. unfold Script.readZipCodesFromCSV. rewrite H. split.
    + intros [e He]. discriminate.
    + intros (content & Hc & _). discriminate.
Qed.

Lemma read_after_repair_throws_witness :
  let cfg := {| Script.TARGET_STATE := inl (js "ALL");
                Script.SHARD_INDEX := 0; Script.TOTAL_SHARDS := 1;
                Script.MAX_RECORDS_PER_SHARD := 1000 |} in
  let fs : Script.files := fun _ => Some (js "  ") in
  (exists e,
      Script.readZipCodesFromCSV cfg (Repair.initializeCSVHeaders cfg fs)
      = Script.Threw e)
  <-> (exists content,
          fs Script.MainTable = Some content
          /\ Script.is_blank_string content = true
          /\ ~ In Script.newline content).
Proof.
  intros cfg fs. apply (read_after_repair_throws cfg fs).
  vm_compute. discriminate.
Defined.

(** ** The search on the page *)

Section PageFacts.

Variables W El : Type.
Variable page : Pages.Page W El.

Lemma scan_hit (accepts : jsstring -> bool) (elements : list El) :
  forall w t w',
    Pages.scan page accepts elements w = (inl (Some t), w') ->
    exists text,
      accepts text = true /\ t = AddressExtractor.cleanAddressText text.
Proof.
  induction elements as [|e rest IH]; intros w t w' H.
  - discriminate.
  - cbn [Pages.scan] in H. unfold Pages.bind in H.
    destruct (Pages.textContent page e w) as [[[text|]|thr] w1].
    + destruct (accepts text) eqn:A; [|exact (IH _ _ _ H)].
      injection H as <- <-. eauto.
    + exact (IH _ _ _ H).
    + discriminate.
Qed.

Lemma addressFrom_hit (selectors : list jsstring) :
  forall w t w',
    Pages.addressFrom page selectors w = (inl t, w') ->
    t = [] \/ exists text,
                Pages.accepted text = true
                /\ t = AddressExtractor.cleanAddressText text.
Proof.
  induction selectors as [|selector rest IH]; intros w t w' H.
  - injection H as <- <-. left. reflexivity.
  - cbn [Pages.addressFrom] in H. unfold Pages.bind, Pages.catch in H.
    destruct (Pages.query page selector w) as [[elements|thr] w1].
    + destruct (Pages.scan page Pages.accepted elements w1)
        as [[[[|c t0]|]|thr] w2] eqn:S; cbn in H;
        try exact (IH _ _ _ H).
      injection H as <- <-. right. exact (scan_hit _ _ _ _ _ S).
    + cbn in H. exact (IH _ _ _ H).
Qed.

Lemma extractAddressFromPage_info :
  forall w info w',
    Pages.extractAddressFromPage page w = (inl info, w') ->
    info = Pages.noAddress \/ parsedFromPage info.
Proof.
  intros w info w' H. unfold Pages.extractAddressFromPage in H.
  unfold Pages.bind at 1 in H.
  destruct (Pages.addressFrom page Pages.addressSelectors w)
    as [[[|c t]|thr] w1] eqn:A; [| |discriminate].
  - unfold Pages.bind in H.
    destruct (Pages.query page (js "span, div") w1) as [[all|thr] w2];
      [|discriminate].
    destruct (Pages.scan page Pages.acceptedAnywhere all w2)
      as [[[[|c t]|]|thr] w3] eqn:S; cbn in H; try discriminate;
      try (injection H as <- <-; left; reflexivity).
    injection H as <- <-. right.
    destruct (scan_hit _ _ _ _ _ S) as (text & Hacc & Ht).
    unfold Pages.acceptedAnywhere in Hacc.
    apply andb_true_iff in Hacc. destruct Hacc as [Hacc Hlooks].
    apply andb_true_iff in Hacc. destruct Hacc as [Hlen _].
    apply Nat.ltb_lt in Hlen.
    exists text. rewrite Ht. repeat split; [exact Hlooks | lia].
  - cbn in H. injection H as <- <-. right.
    destruct (addressFrom_hit _ _ _ _ A) as [Hnil | (text & Hacc & Ht)];
      [discriminate|].
    unfold Pages.accepted in Hacc.
    apply andb_true_iff in Hacc. destruct Hacc as [Hlen Hlooks].
    apply Nat.ltb_lt in Hlen.
    exists text. rewrite Ht. repeat split; assumption.
Qed.

Lemma attempts_info (todo : list nat) :
  forall w info w',
    Pages.attempts page todo w = (inl info, w') ->
    info = Pages.noAddress
    \/ (AddressExtractor.addressline info <> []
        /\ AddressExtractor.city info <> []
        /\ Pages.isProperAddress (AddressExtractor.addressline info) = true
        /\ parsedFromPage info).
Proof.
  induction todo as [|attempt rest IH]; intros w info w' H.
  - injection H as <- <-. left. reflexivity.
  - cbn [Pages.attempts] in H. unfold Pages.bind at 1 in H.
    destruct (Pages.clickResult page attempt Pages.resultSelectors w)
      as [[[|]|thr] w1]; cbn [negb] in H; [| |discriminate].
    + unfold Pages.bind at 1 in H.
      destruct (Pages.extractAddressFromPage page w1)
        as [[info1|thr] w2] eqn:E; [|discriminate].
      destruct (AddressExtractor.addressline info1) as [|x a] eqn:Ea;
        [exact (IH _ _ _ H)|].
      destruct (AddressExtractor.city info1) as [|y c] eqn:Ec;
        [exact (IH _ _ _ H)|].
      destruct (Pages.isProperAddress (x :: a)) eqn:P.
      * injection H as <- <-. right. rewrite Ea, Ec.
        repeat split; try discriminate; [exact P|].
        destruct (extractAddressFromPage_info _ _ _ E) as [-> | Hp];
          [discriminate | exact Hp].
      * unfold Pages.bind in H.
        destruct (Pages.goBack page w2) as [[[]|thr] w3]; [|discriminate].
        destruct (Pages.waitForTimeout page 1000 w3) as [[[]|thr] w4];
          [|discriminate].
        exact (IH _ _ _ H).
    + injection H as <- <-. left. reflexivity.
Qed.

End PageFacts.

Section SearchFacts.

Variables W El : Type.
Variable page : Pages.Page W El.
Variables zipcode state : jsstring.

Lemma searchAddress_returns :
  forall w r w',
    Pages.searchAddress page zipcode state w = (inl r, w') ->
    exists info w0 w1,
      Pages.tryMultipleResults page w0 = (inl info, w1)
      /\ r = match AddressExtractor.addressline info,
                   AddressExtractor.city info with
             | _ :: _, _ :: _ =>
                 {| CsvUtils.zipcode := zipcode; CsvUtils.state := state;
                    CsvUtils.addressline :=
                      AddressExtractor.addressline info;
                    CsvUtils.city := AddressExtractor.city info;
                    CsvUtils.valid :=
                      Session.validateAddress
                        (AddressExtractor.addressline info)
                        (AddressExtractor.city info);
                    CsvUtils.error := None |}
             | _, _ => notFoundOutcome zipcode state
             end.
Proof.
  intros w r w' H. unfold Pages.searchAddress in H.
  unfold Pages.bind at 1 in H.
  destruct (Pages.catch _ _ w) as [[[]|thr] w0]; [|discriminate].
  unfold Pages.bind at 1 in H.
  destruct (Pages.waitForTimeout page 3000 w0) as [[[]|thr] w1];
    [|discriminate].
  unfold Pages.bind at 1 in H.
  destruct (Pages.tryMultipleResults page w1) as [[info|thr] w2] eqn:T;
    [|discriminate].
  exists info, w1, w2. split; [exact T|].
  destruct (AddressExtractor.addressline info) as [|x a];
    [injection H as <- <-; reflexivity|].
  destruct (AddressExtractor.city info) as [|y c];
    injection H as <- <-; reflexivity.
Qed.

Lemma tryMultipleResults_checked :
  forall w info w',
    Pages.tryMultipleResults page w = (inl info, w') ->
    (AddressExtractor.addressline info = []
     /\ AddressExtractor.city info = [])
    \/ checkedAddress (AddressExtractor.addressline info)
                      (AddressExtractor.city info).
Proof.
  intros w info w' H. unfold Pages.tryMultipleResults in H.
  destruct (attempts_info _ _ page _ _ _ _ H) as [-> | (Ha & Hc & Hp & Hf)].
  - left. split; reflexivity.
  - right. destruct info as [a c]. repeat split; assumption.
Qed.

End SearchFacts.


(** X26: whatever the page does, a result [extractAddress] resolves to
    carries the zipcode and the state it was asked for; when it is marked
    valid, its address line and city have passed [validateAddress], its
    address line has passed [isProperAddress], both come from the cleaned
    text of an element that looks like an address, and it has no error
    text. *)
Theorem valid_result_is_checked :
  forall (W El : Type) (page : Pages.Page W El)
         (zipcode state : jsstring) (w w' : W) (r : CsvUtils.AddressResult),
    Pages.extractAddress page zipcode state w
    = (ParallelProcessor.Resolves r, w') ->
    CsvUtils.zipcode r = zipcode
    /\ CsvUtils.state r = state
    /\ (CsvUtils.valid r = true ->
        Session.validateAddress (CsvUtils.addressline r) (CsvUtils.city r)
        = true
        /\ checkedAddress (CsvUtils.addressline r) (CsvUtils.city r)
        /\ CsvUtils.error r = None).
Proof.
  intros W El page zipcode state w w' r H.
  unfold Pages.extractAddress in H.
  destruct (Pages.createContext page w) as [[[]|t] w1]; [|discriminate].
  destruct (Pages.searchAddress page zipcode state w1) as [[r1|t] w2] eqn:S.
  - destruct (Pages.close page w2) as [[[]|t] w3]; [|discriminate].
    injection H as <- <-.
    destruct (searchAddress_returns _ _ _ _ _ _ _ _ S)
      as (info & w0 & w0' & T & ->).
    pose proof (tryMultipleResults_checked _ _ _ _ _ _ T) as Hinfo.
    destruct (AddressExtractor.addressline info) as [|x a];
      [repeat split; discriminate|].
    destruct (AddressExtractor.city info) as [|y c];
      [repeat split; discriminate|].
    cbn [CsvUtils.zipcode CsvUtils.state CsvUtils.valid CsvUtils.addressline
         CsvUtils.city CsvUtils.error].
    split; [reflexivity|]. split; [reflexivity|]. intro V.
    split; [exact V|]. split; [|reflexivity].
    destruct Hinfo as [[Hx _] | Hchecked]; [discriminate | exact Hchecked].
  - destruct (Pages.close page w2) as [[[]|t'] w3]; [|discriminate].
    injection H as <- <-. repeat split; discriminate.
Qed.

Lemma valid_result_is_checked_witness :
  let page : Pages.Page unit jsstring :=
    {| Pages.createContext := Pages.ret tt;
       Pages.goto := fun _ _ => Pages.ret tt;
       Pages.waitForTimeout := fun _ => Pages.ret tt;
       Pages.query := fun _ => Pages.ret [js "12 Oak Ave, Salem, OR 97301"];
       Pages.click := fun _ => Pages.ret tt;
       Pages.textContent := fun e => Pages.ret (Some e);
       Pages.goBack := Pages.ret tt;
       Pages.close := Pages.ret tt |} in
  exists r,
    Pages.extractAddress page (js "97301") (js "OR") tt
    = (ParallelProcessor.Resolves r, tt)
    /\ CsvUtils.zipcode r = js "97301"
    /\ CsvUtils.state r = js "OR"
    /\ (CsvUtils.valid r = true ->
        Session.validateAddress (CsvUtils.addressline r) (CsvUtils.city r)
        = true
        /\ checkedAddress (CsvUtils.addressline r) (CsvUtils.city r)
        /\ CsvUtils.error r = None).
Proof.
  intro page. eexists. split; [vm_compute; reflexivity|].
  apply (valid_result_is_checked unit jsstring page (js "97301") (js "OR")
           tt tt).
  vm_compute. reflexivity.
Defined.

Lemma clickResult_faults (W El : Type) (page : Pages.Page W El)
    (attempt : nat) (selectors : list jsstring) :
  (forall selector, throws (Pages.query page selector)) ->
  forall w, exists w',
    Pages.clickResult page attempt selectors w = (inl false, w').
Proof.
  intro Hq. induction selectors as [|selector rest IH]; intro w.
  - exists w. reflexivity.
  - cbn [Pages.clickResult]. unfold Pages.bind at 1. unfold Pages.catch.
    unfold Pages.bind at 1.
    destruct (Hq selector w) as (t & w1 & E). rewrite E.
    cbn. apply IH.
Qed.

(** X27: when every query of the page ([page.$$]) throws, while the
    context opens and closes, the first navigation succeeds and the wait
    after it returns, [extractAddress] resolves to the "Not Found" result
    of the unit, with the error text "Address extraction failed": the
    faults of the queries are not reported as an error. *)
Theorem query_faults_give_not_found :
  forall (W El : Type) (page : Pages.Page W El)
         (zipcode state : jsstring),
    (forall selector, throws (Pages.query page selector)) ->
    returns (Pages.createContext page) ->
    returns (Pages.goto page (Pages.searchUrl zipcode state)
               (js "domcontentloaded")) ->
    returns (Pages.waitForTimeout page 3000) ->
    returns (Pages.close page) ->
    forall w,
      fst (Pages.extractAddress page zipcode state w)
      = ParallelProcessor.Resolves (notFoundOutcome zipcode state).
Proof.
  intros W El page zipcode state Hq Hopen Hgoto Hwait Hclose w.
  unfold Pages.extractAddress.
  destruct (Hopen w) as ([] & w1 & E1). rewrite E1.
  assert (S : exists w2,
            Pages.searchAddress page zipcode state w1
            = (inl (notFoundOutcome zipcode state), w2)).
  { unfold Pages.searchAddress. unfold Pages.bind at 1. unfold Pages.catch.
    destruct (Hgoto w1) as ([] & w2 & E2). rewrite E2.
    unfold Pages.bind at 1.
    destruct (Hwait w2) as ([] & w3 & E3). rewrite E3.
    unfold Pages.bind at 1.
    unfold Pages.tryMultipleResults. cbn [Pages.attempts].
    unfold Pages.bind at 1.
    destruct (clickResult_faults W El page 0 Pages.resultSelectors Hq w3)
      as (w4 & E4).
    rewrite E4. eexists. reflexivity. }
  destruct S as (w2 & E2). rewrite E2.
  destruct (Hclose w2) as ([] & w3 & E3). rewrite E3. reflexivity.
Qed.

Lemma query_faults_give_not_found_witness :
  let page : Pages.Page unit jsstring :=
    {| Pages.createContext := Pages.ret tt;
       Pages.goto := fun _ _ => Pages.ret tt;
       Pages.waitForTimeout := fun _ => Pages.ret tt;
       Pages.query := fun _ w =>
         (inr (ParallelProcessor.ErrorObj (js "Target closed")), w);
       Pages.click := fun _ => Pages.ret tt;
       Pages.textContent := fun e => Pages.ret (Some e);
       Pages.goBack := Pages.ret tt;
       Pages.close := Pages.ret tt |} in
  fst (Pages.extractAddress page (js "97301") (js "OR") tt)
  = ParallelProcessor.Resolves (notFoundOutcome (js "97301") (js "OR")).
Proof.
  intro page.
  apply (query_faults_give_not_found unit jsstring page (js "97301")
           (js "OR")).
  - intros selector w. eexists. eexists. reflexivity.
  - intro w. eexists. eexists. reflexivity.
  - intro w. eexists. eexists. reflexivity.
  - intro w. eexists. eexists. reflexivity.
  - intro w. eexists. eexists. reflexivity.
Defined.

(** ** The two validators of an address line *)

Lemma find_alt (a b : regex) (s : jsstring) :
  forall prev,
    match find (Alt a b) prev s with Some _ => true | None => false end
    = match find a prev s with Some _ => true | None => false end
      || match find b prev s with Some _ => true | None => false end.
Proof.
  induction s as [|c t IH]; intro prev.
  - cbn [find]. unfold match_at. cbn [m]. unfold orelse.
    destruct (m a prev [] _); [reflexivity|].
    destruct (m b prev [] _); reflexivity.
  - cbn [find]. unfold match_at. cbn [m]. unfold orelse.
    specialize (IH (Some c)).
    destruct (m a prev (c :: t) _) as [ra|]; [reflexivity|].
    destruct (m b prev (c :: t) _) as [rb|].
    + destruct (find a (Some c) t) as [[[? ?] ?]|]; reflexivity.
    + destruct (find (Alt a b) (Some c) t) as [[[? ?] ?]|];
        destruct (find a (Some c) t) as [[[? ?] ?]|];
        destruct (find b (Some c) t) as [[[? ?] ?]|];
        first [reflexivity | discriminate].
Qed.

Lemma test_alt (a b : regex) (s : jsstring) :
  test (Alt a b) s = test a s || test b s.
Proof. unfold test. apply find_alt. Qed.

(** X28: an address line that the validator of the script accepts is a
    proper address for the extractor: every pattern [isProperAddress]
    looks for is one [isValidAddressLine] rejects. *)
Theorem valid_address_line_is_proper :
  forall a : jsstring,
    Script.isValidAddressLine (Some a) = true ->
    Pages.isProperAddress a = true.
Proof.
  intros a H. unfold Script.isValidAddressLine in H.
  destruct a as [|x a']; [discriminate|].
  destruct (Nat.eqb (List.length (trim (x :: a'))) 0); [discriminate|].
  apply andb_true_iff in H. destruct H as [_ H].
  apply negb_true_iff in H.
  unfold Pages.isProperAddress. apply negb_true_iff.
  unfold Script.improperPatterns, words in H.
  cbn [existsb List.map alts] in H.
  rewrite !test_alt in H.
  repeat (apply orb_false_iff in H; destruct H as [? H]).
  repeat match goal with
         | Hx : _ || _ = false |- _ =>
             apply orb_false_iff in Hx; destruct Hx
         end.
  unfold Pages.improperPatterns. cbn [existsb].
  fold Script.ratingPattern.
  repeat match goal with
         | Hx : test ?r _ = false |- _ => rewrite Hx; clear Hx
         end.
  reflexivity.
Qed.

Lemma valid_address_line_is_proper_witness :
  Pages.isProperAddress (js "12 Oak Ave") = true.
Proof.
  apply (valid_address_line_is_proper (js "12 Oak Ave")).
  vm_compute. reflexivity.
Defined.

(* ================================================================== *)
(** * The patterns of the validators and of the parser *)
(* ================================================================== *)

(** ** The matcher on words, tokens and ratings *)

Lemma is_some_orelse (a b : option jsstring) :
  is_some (orelse a b) = is_some a || is_some b.
Proof. destruct a; reflexivity. Qed.

Lemma find_somewhere (r : regex) (s : jsstring) :
  forall prev,
    is_some (find r prev s)
    = somewhere (fun p t => is_some (match_at r p t)) prev s.
Proof.
  induction s as [|c t IH]; intro prev; cbn [find somewhere].
  - destruct (match_at r prev []); reflexivity.
  - rewrite <- IH.
    destruct (match_at r prev (c :: t)); [reflexivity|].
    destruct (find r (Some c) t) as [[[? ?] ?]|]; reflexivity.
Qed.

Lemma test_somewhere (r : regex) (s : jsstring) :
  test r s = somewhere (fun p t => is_some (match_at r p t)) None s.
Proof. rewrite <- find_somewhere. reflexivity. Qed.

Lemma somewhere_ext (f g : option cu -> jsstring -> bool) (s : jsstring) :
  (forall p t, f p t = g p t) ->
  forall prev, somewhere f prev s = somewhere g prev s.
Proof.
  intro H. induction s as [|c t IH]; intro prev; cbn [somewhere];
    rewrite H; [reflexivity|]. rewrite IH. reflexivity.
Qed.

Lemma somewhere_orb (f g : option cu -> jsstring -> bool) (s : jsstring) :
  forall prev,
    somewhere (fun p t => f p t || g p t) prev s
    = somewhere f prev s || somewhere g prev s.
Proof.
  induction s as [|c t IH]; intro prev; cbn [somewhere].
  - rewrite !orb_false_r. reflexivity.
  - rewrite IH.
    destruct (f prev (c :: t)), (g prev (c :: t)),
      (somewhere f (Some c) t), (somewhere g (Some c) t); reflexivity.
Qed.

Lemma somewhere_false (s : jsstring) :
  forall prev, somewhere (fun _ _ => false) prev s = false.
Proof.
  induction s as [|c t IH]; intro prev; cbn [somewhere orb];
    [reflexivity | apply IH].
Qed.

Lemma somewhere_existsb {A} (f : A -> option cu -> jsstring -> bool)
    (ws : list A) (s : jsstring) (prev : option cu) :
  somewhere (fun p t => existsb (fun w => f w p t) ws) prev s
  = existsb (fun w => somewhere (f w) prev s) ws.
Proof.
  induction ws as [|w ws IH]; cbn [existsb].
  - apply somewhere_false.
  - rewrite somewhere_orb, IH. reflexivity.
Qed.

(** A literal under the [i] flag. *)
Lemma m_lit_of (w : jsstring) :
  forall prev s k,
    m (lit_of true w) prev s k
    = match after_ci w s prev with
      | Some (p', rest) => k p' rest
      | None => None
      end.
Proof.
  induction w as [|x w IH]; intros prev s k; [reflexivity|].
  destruct w as [|y w'].
  - cbn [lit_of]. unfold chr. cbn [m after_ci]. unfold same_ci.
    destruct s as [|c t]; [reflexivity|].
    destruct (canon c =? canon x)%N; reflexivity.
  - change (lit_of true (x :: y :: w'))
      with (Seq (chr x true) (lit_of true (y :: w'))).
    unfold chr. cbn [m]. cbn [after_ci]. unfold same_ci at 1.
    destruct s as [|c t]; [reflexivity|].
    destruct (canon c =? canon x)%N; [|reflexivity].
    apply IH.
Qed.

Lemma after_ci_starts (w : jsstring) :
  forall s prev, is_some (after_ci w s prev) = starts_ci w s.
Proof.
  induction w as [|x w IH]; intros s prev; [reflexivity|].
  destruct s as [|c t]; [reflexivity|]. cbn [after_ci starts_ci].
  destruct (same_ci c x); [apply IH | reflexivity].
Qed.

Lemma after_ci_rest (w : jsstring) :
  forall s prev p' rest,
    after_ci w s prev = Some (p', rest) ->
    rest = skipn (List.length w) s.
Proof.
  induction w as [|x w IH]; intros s prev p' rest H.
  - injection H as _ <-. reflexivity.
  - destruct s as [|c t]; [discriminate|]. cbn [after_ci] in H.
    destruct (same_ci c x); [|discriminate].
    cbn [List.length skipn]. exact (IH _ _ _ _ H).
Qed.

Lemma same_ci_word (y x : cu) :
  same_ci y x = true -> is_word x = true -> is_word y = true.
Proof.
  unfold same_ci, canon, is_word, is_letter, is_lower, is_upper, is_digit,
    in_range.
  intros H W. apply N.eqb_eq in H.
  rewrite ?orb_true_iff, ?andb_true_iff, ?N.eqb_eq, ?N.leb_le in W |- *.
  destruct ((97 <=? y) && (y <=? 122))%N eqn:Y;
    destruct ((97 <=? x) && (x <=? 122))%N eqn:X;
    rewrite ?andb_true_iff, ?andb_false_iff, ?N.leb_le, ?N.leb_gt in *;
    lia.
Qed.

Lemma after_ci_prev (w : jsstring) :
  forall x s prev p' rest,
    after_ci (x :: w) s prev = Some (p', rest) ->
    exists y, p' = Some y /\ same_ci y (last (x :: w) x) = true.
Proof.
  induction w as [|x' w IH]; intros x s prev p' rest H.
  - destruct s as [|c t]; [discriminate|]. cbn [after_ci] in H.
    destruct (same_ci c x) eqn:E; [|discriminate].
    injection H as <- <-. exists c. split; [reflexivity | exact E].
  - destruct s as [|c t]; [discriminate|].
    cbn [after_ci] in H. fold (after_ci (x' :: w)) in H.
    destruct (same_ci c x); [|discriminate].
    change (after_ci (x' :: w) t (Some c) = Some (p', rest)) in H.
    destruct (IH _ _ _ _ _ H) as (y & Hy & Hs).
    exists y. split; [exact Hy|].
    change (last (x :: x' :: w) x) with (last (x' :: w) x).
    replace (last (x' :: w) x) with (last (x' :: w) x'); [exact Hs|].
    clear. revert x'. induction w as [|z w IHw]; intro x'; [reflexivity|].
    change (last (x' :: z :: w) ?d) with (last (z :: w) d).
    rewrite <- (IHw z). symmetry. 
    assert (G : forall d1 d2, last (z :: w) d1 = last (z :: w) d2).
    { clear. revert z. induction w as [|u w IHw]; intros z d1 d2;
        [reflexivity|].
      change (last (z :: u :: w) ?d) with (last (u :: w) d). apply IHw. }
    apply G.
Qed.

Lemma is_some_alts (rs : list regex) :
  forall r prev s k,
    is_some (m (alts r rs) prev s k)
    = existsb (fun r' => is_some (m r' prev s k)) (r :: rs).
Proof.
  induction rs as [|r' rs IH]; intros r prev s k.
  - cbn [alts existsb]. rewrite orb_false_r. reflexivity.
  - cbn [alts m]. rewrite is_some_orelse, IH. reflexivity.
Qed.

Lemma existsb_of_map {A B} (g : A -> B) (f : B -> bool) (h : A -> bool)
    (l : list A) :
  (forall x, f (g x) = h x) ->
  existsb f (List.map g l) = existsb h l.
Proof.
  intro H. induction l as [|x l IH]; [reflexivity|].
  cbn [List.map existsb]. rewrite H, IH. reflexivity.
Qed.

Lemma is_some_words (w : string) (ws : list string) (prev : option cu)
    (s : jsstring) (k : kont) :
  is_some (m (words true w ws) prev s k)
  = existsb (fun x =>
               match after_ci (js x) s prev with
               | Some (p', rest) => is_some (k p' rest)
               | None => false
               end) (w :: ws).
Proof.
  unfold words. rewrite is_some_alts.
  change (lit true w :: List.map (lit true) ws)
    with (List.map (lit true) (w :: ws)).
  apply existsb_of_map. intro x.
  unfold lit. rewrite m_lit_of.
  destruct (after_ci (js x) s prev) as [[p' rest]|]; reflexivity.
Qed.

Lemma existsb_same {A} (f g : A -> bool) (l : list A) :
  (forall x, In x l -> f x = g x) -> existsb f l = existsb g l.
Proof.
  intro H. induction l as [|x l IH]; [reflexivity|].
  cbn [existsb]. rewrite (H x) by (left; reflexivity).
  rewrite IH; [reflexivity|]. intros y Hy. apply H. right. exact Hy.
Qed.

Lemma starts_ci_hd_word (x : cu) (w s : jsstring) :
  starts_ci (x :: w) s = true -> is_word x = true ->
  word_opt (hd_error s) = true.
Proof.
  destruct s as [|c t]; [discriminate|]. cbn [starts_ci hd_error word_opt].
  intros H W. apply andb_true_iff in H. destruct H as [H _].
  exact (same_ci_word _ _ H W).
Qed.

(** A token pattern [\b(w|...)\b] at one place. *)
Lemma token_pattern (w : string) (ws : list string) :
  forallb good_token (w :: ws) = true ->
  forall prev s,
    is_some (match_at (seqs WordB [words true w ws; WordB]) prev s)
    = existsb (fun x => token_here (js x) prev s) (w :: ws).
Proof.
  intros Hgood prev s. rewrite forallb_forall in Hgood.
  unfold match_at. cbn [seqs]. cbn [m].
  assert (Hone : forall x, In x (w :: ws) ->
            (if xorb (word_opt prev) (word_opt (hd_error s))
             then match after_ci (js x) s prev with
                  | Some (p', rest) =>
                      is_some (if xorb (word_opt p')
                                       (word_opt (hd_error rest))
                               then accept p' rest else None)
                  | None => false
                  end
             else false)
            = token_here (js x) prev s).
  { intros x Hx. specialize (Hgood x Hx). unfold good_token in Hgood.
    unfold token_here. rewrite <- (after_ci_starts (js x) s prev).
    destruct (js x) as [|c t] eqn:J; [discriminate|].
    apply andb_true_iff in Hgood. destruct Hgood as [Hfirst Hlast].
    destruct (after_ci (c :: t) s prev) as [[p' rest]|] eqn:A.
    - assert (Hs : starts_ci (c :: t) s = true)
        by (rewrite <- (after_ci_starts _ s prev), A; reflexivity).
      rewrite (starts_ci_hd_word _ _ _ Hs Hfirst).
      rewrite (after_ci_rest _ _ _ _ _ A) in *.
      destruct (after_ci_prev _ _ _ _ _ _ A) as (y & -> & Hy).
      cbn [word_opt]. rewrite (same_ci_word _ _ Hy Hlast).
      cbn [is_some andb].
      destruct (word_opt prev); cbn [xorb negb andb]; [reflexivity|].
      destruct (word_opt (hd_error (skipn (List.length (c :: t)) s)));
        reflexivity.
    - cbn [is_some]. rewrite andb_false_r.
      destruct (xorb _ _); reflexivity. }
  destruct (xorb (word_opt prev) (word_opt (hd_error s))) eqn:X.
  - rewrite is_some_words. apply existsb_same. intros x Hx.
    rewrite <- (Hone x Hx).
    destruct (after_ci (js x) s prev) as [[p' rest]|]; reflexivity.
  - cbn [is_some]. symmetry. apply existsb_none. intros x Hx.
    rewrite <- (Hone x Hx). reflexivity.
Qed.

Lemma test_tokens (w : string) (ws : list string) (s : jsstring) :
  forallb good_token (w :: ws) = true ->
  test (seqs WordB [words true w ws; WordB]) s
  = existsb (fun x => contains_token x s) (w :: ws).
Proof.
  intro Hgood. rewrite test_somewhere.
  rewrite (somewhere_ext _ _ s (token_pattern w ws Hgood)).
  apply (somewhere_existsb (fun x => token_here (js x))).
Qed.

(** A pattern [w|...] of words, under the [i] flag. *)
Lemma test_words (w : string) (ws : list string) (s : jsstring) :
  test (words true w ws) s
  = existsb (fun x => contains_ci x s) (w :: ws).
Proof.
  rewrite test_somewhere.
  rewrite (somewhere_ext _ (fun _ t =>
             existsb (fun x => starts_ci (js x) t) (w :: ws)) s).
  - apply (somewhere_existsb (fun x (_ : option cu) t => starts_ci (js x) t)).
  - intros p t. unfold match_at. rewrite is_some_words.
    apply existsb_same. intros x _.
    rewrite <- (after_ci_starts (js x) t p).
    destruct (after_ci (js x) t p) as [[p' rest]|]; reflexivity.
Qed.

Lemma orelse_none (a : option jsstring) : orelse a None = a.
Proof. destruct a; reflexivity. Qed.

(** A greedy run of one class, followed by something that cannot start
    inside the class, takes the whole run. *)
Lemma star_chr_run (p : cu -> bool) (k : kont) :
  (forall pv c t, p c = true -> k pv (c :: t) = None) ->
  forall n prev s,
    List.length s < n ->
    star_loop (m (Chr p)) true k n prev s
    = k (run_prev p prev s) (drop_while p s).
Proof.
  intro Hk. induction n as [|n IH]; intros prev s Hn; [lia|].
  rewrite star_chr_step. destruct s as [|c t]; [reflexivity|].
  cbn [run_prev drop_while]. destruct (p c) eqn:Hc; [|reflexivity].
  rewrite (Hk prev c t Hc), orelse_none. apply IH. simpl in Hn. lia.
Qed.

Lemma plus_chr_run (p : cu -> bool) (k : kont) :
  (forall pv c t, p c = true -> k pv (c :: t) = None) ->
  forall prev s,
    m (plus (Chr p)) prev s k
    = match s with
      | c :: t =>
          if p c then k (run_prev p (Some c) t) (drop_while p t) else None
      | [] => None
      end.
Proof.
  intros Hk prev s. rewrite m_plus_chr. destruct s as [|c t]; [reflexivity|].
  destruct (p c); [|reflexivity]. apply star_chr_run; [exact Hk | lia].
Qed.

Lemma digits_then_pattern (k : kont) (next : jsstring -> bool) :
  (forall pv t, is_some (k pv t) = next t) ->
  (forall c t, is_digit c = true -> next (c :: t) = false) ->
  forall prev s,
    is_some (m (plus digit) prev s k) = digits_then next s.
Proof.
  intros Hk Hnext prev s. unfold digit. rewrite plus_chr_run.
  - destruct s as [|c t]; [reflexivity|]. cbn [digits_then].
    destruct (is_digit c); [apply Hk | reflexivity].
  - intros pv c t Hc. specialize (Hk pv (c :: t)).
    rewrite (Hnext c t Hc) in Hk. destruct (k pv (c :: t)); [discriminate|].
    reflexivity.
Qed.

Lemma cu_then_pattern (c : cu) (k : kont) (next : jsstring -> bool) :
  (forall pv t, is_some (k pv t) = next t) ->
  forall prev s,
    is_some (m (chr c false) prev s k) = cu_then c next s.
Proof.
  intros Hk prev s. unfold chr. cbn [m]. destruct s as [|x t]; [reflexivity|].
  cbn [cu_then]. destruct (x =? c)%N; [apply Hk | reflexivity].
Qed.

Lemma digit_is_not (c x : cu) :
  is_digit c = true -> is_digit x = false -> (c =? x)%N = false.
Proof.
  intros Hc Hx. apply N.eqb_neq. intros ->. congruence.
Qed.

(** The rating pattern at one place. *)
Lemma rating_pattern (prev : option cu) (s : jsstring) :
  is_some (match_at Script.ratingPattern prev s) = rating_here s.
Proof.
  unfold match_at, Script.ratingPattern, rating_here. cbn [seqs].
  change (lit false ".") with (chr 46%N false).
  change (lit false "(") with (chr 40%N false).
  change (lit false ")") with (chr 41%N false).
  cbn [m].
  apply digits_then_pattern;
    [|intros c t Hc; cbn [cu_then]; rewrite (digit_is_not c 46%N Hc eq_refl);
      reflexivity].
  intros pv1 t1. apply cu_then_pattern. intros pv2 t2.
  apply digits_then_pattern;
    [|intros c t Hc; cbn [cu_then]; rewrite (digit_is_not c 40%N Hc eq_refl);
      reflexivity].
  intros pv3 t3. apply cu_then_pattern. intros pv4 t4.
  apply digits_then_pattern;
    [|intros c t Hc; cbn [cu_then]; rewrite (digit_is_not c 41%N Hc eq_refl);
      reflexivity].
  intros pv5 t5. apply cu_then_pattern. reflexivity.
Qed.

Lemma test_rating (s : jsstring) : test Script.ratingPattern s = hasRating s.
Proof.
  rewrite test_somewhere. apply somewhere_ext. apply rating_pattern.
Qed.

Lemma digit_same_ci (c x : cu) :
  is_digit c = true -> is_digit x = false -> is_lower x = false ->
  same_ci c x = false.
Proof.
  unfold same_ci, canon, is_digit, is_lower, in_range. intros Hc Hx Hl.
  rewrite Hl.
  destruct ((97 <=? c) && (c <=? 122))%N eqn:Lc.
  - rewrite ?andb_true_iff, ?N.leb_le in *. lia.
  - apply N.eqb_neq. intros ->. congruence.
Qed.

Lemma test_star_rating (s : jsstring) :
  test (Seq (plus digit) (lit true "-star")) s = hasStarRating s.
Proof.
  rewrite test_somewhere. apply somewhere_ext. intros p t.
  unfold match_at. cbn [m]. apply digits_then_pattern.
  - intros pv t'. unfold lit. rewrite m_lit_of.
    rewrite <- (after_ci_starts (js "-star") t' pv).
    destruct (after_ci (js "-star") t' pv) as [[? ?]|]; reflexivity.
  - intros c t' Hc.
    change (js "-star") with (45%N :: js "star"). cbn [starts_ci].
    rewrite (digit_same_ci c 45%N Hc eq_refl eq_refl). reflexivity.
Qed.

Lemma test_hours (s : jsstring) :
  test (alts (Seq (lit true "open ") (plus digit))
             [lit true "closed"; lit true "hours"]) s
  = hasHoursPhrase s.
Proof.
  unfold hasHoursPhrase, contains_ci. rewrite test_somewhere.
  rewrite <- !somewhere_orb. apply somewhere_ext. intros p t.
  unfold match_at. rewrite is_some_alts. cbn [existsb].
  rewrite orb_false_r, orb_assoc. f_equal; [f_equal|].
  - cbn [m]. unfold lit. rewrite m_lit_of.
    rewrite <- (after_ci_starts (js "open ") t p).
    destruct (after_ci (js "open ") t p) as [[p' rest]|] eqn:A;
      [|reflexivity].
    rewrite (after_ci_rest _ _ _ _ _ A).
    change (List.length (js "open ")) with 5.
    fold (match_at (plus digit) p' (skipn 5 t)).
    unfold digit. rewrite match_at_plus_chr.
    destruct (skipn 5 t) as [|d r]; [reflexivity|].
    destruct (is_digit d); reflexivity.
  - unfold lit. rewrite m_lit_of.
    rewrite <- (after_ci_starts (js "closed") t p).
    destruct (after_ci (js "closed") t p) as [[? ?]|]; reflexivity.
  - unfold lit. rewrite m_lit_of.
    rewrite <- (after_ci_starts (js "hours") t p).
    destruct (after_ci (js "hours") t p) as [[? ?]|]; reflexivity.
Qed.






(** ** C7 and C8: what the validators look for *)

Lemma existsb_checks {A} (f : A -> bool) (l : list A) :
  existsb (fun b => b) (List.map f l) = existsb f l.
Proof. apply existsb_of_map. reflexivity. Qed.

Lemma streetSuffixes_tokens (s : jsstring) :
  test Script.streetSuffixes s = hasSuffixToken s.
Proof.
  unfold Script.streetSuffixes. rewrite test_tokens; reflexivity.
Qed.

Lemma improperPatterns_checks (s : jsstring) :
  List.map (fun pattern => test pattern s) Script.improperPatterns
  = improperChecks s.
Proof.
  unfold Script.improperPatterns, improperChecks. cbn [List.map].
  rewrite test_rating, test_star_rating, !test_words, test_hours.
  reflexivity.
Qed.


(** C7: [isValidAddressLine] holds exactly of the strings that contain a
    digit, contain one of the 23 street-suffix tokens (St, Street, Ave,
    Avenue, Rd, Road, Dr, Drive, Blvd, Boulevard, Way, Lane, Ln, Ct, Court,
    Pl, Place, Cir, Circle, Pkwy, Parkway, Hwy, Highway) as a whole word,
    whatever its case, and hold none of the improper contents: a rating
    (digits, a period, digits, bracketed digits), a star rating (digits and
    -star), one of the nouns hotel, inn, suites, motel, resort, lodge,
    restaurant, cafe, mall, center, plaza, gas station, convenience store
    anywhere in the text (inside a word too, whatever its case), or one of
    the phrases "open " and a digit, closed, hours.  The suffix pattern and
    each improper pattern of the code test exactly these.  The function
    holds of "123 Main St" and fails on "4.2(318) Hotel", on the empty
    string and on a missing argument; it fails on a line without a suffix
    token ("Station" holds "St" but not as a word), on a line with an
    accommodation noun, with a star rating or with opening hours. *)
Theorem isValidAddressLine_spec :
  (forall s,
      Script.isValidAddressLine (Some s) = true <->
      existsb is_digit s = true
      /\ hasSuffixToken s = true
      /\ improperLine s = false)
  /\ (forall s, test Script.streetSuffixes s = hasSuffixToken s)
  /\ (forall s,
         List.map (fun pattern => test pattern s) Script.improperPatterns
         = improperChecks s)
  /\ Script.isValidAddressLine (Some (js "123 Main St")) = true
  /\ Script.isValidAddressLine (Some (js "4.2(318) Hotel")) = false
  /\ Script.isValidAddressLine (Some (js "")) = false
  /\ Script.isValidAddressLine None = false
  /\ Script.isValidAddressLine (Some (js "12 Main Station")) = false
  /\ Script.isValidAddressLine (Some (js "12 Grand Hotel Ave")) = false
  /\ Script.isValidAddressLine (Some (js "3-star 12 Main St")) = false
  /\ Script.isValidAddressLine (Some (js "12 Main St Open 24 hours")) = false.
Proof.
  split; [|split; [exact streetSuffixes_tokens
                  |split; [exact improperPatterns_checks
                          |vm_compute; repeat split; reflexivity]]].
  intro s. unfold improperLine.
  rewrite <- improperPatterns_checks, existsb_checks.
  rewrite <- streetSuffixes_tokens, <- test_chr.
  unfold Script.isValidAddressLine, digit.
  destruct s as [|c t].
  - vm_compute. split; [discriminate | intros [H _]; discriminate].
  - destruct (Nat.eqb (List.length (trim (c :: t))) 0) eqn:E.
    + apply Nat.eqb_eq in E. apply length_zero_iff_nil in E.
      apply trim_nil, blank_has_no_digit in E.
      rewrite test_chr, E. split; [discriminate | intros [H _]; discriminate].
    + rewrite !andb_true_iff, negb_true_iff. tauto.
Qed.

Lemma isValidAddressLine_spec_witness :
  Script.isValidAddressLine (Some (js "12 Oak Ave")) = true.
Proof.
  apply (proj2 (proj1 isValidAddressLine_spec (js "12 Oak Ave"))).
  vm_compute. repeat split; reflexivity.
Defined.



(** ** C9: the state and the zip code after the city *)















